(** * LSQR (nlpy/optimize/solvers/lsqr.py): a shallow embedding of
    [LSQRFramework.solve] and the properties of its stopping policy.

    The embedding follows the Python text statement by statement.

    - Scalars.  Every scalar of the solver is an IEEE binary64 number, but
      Python distinguishes the built-in [float] (literals, the results of
      [math.sqrt], the keyword arguments) from [numpy.float64] (the results
      of [norm] and [dot] and everything computed from them).  The two
      differ in how they fail: [float / 0.0] raises [ZeroDivisionError] and
      [float ** 2] raises [OverflowError] on overflow, where [numpy.float64]
      returns [inf] or [nan].  [num] keeps that tag, and the arithmetic is
      written once over an interface [FloatOps] with two instances: the
      binary64 numbers of the kernel ([PrimFloat]), on which the solver is
      run, and the real numbers, which give the exact-arithmetic reading of
      the recurrences.
    - Vectors are [list]s of scalars (one-dimensional float64 arrays), with
      numpy's broadcasting rule for arrays of different lengths.
    - Failure is explicit: a [result] is [Ok] or a raised Python exception.
      The main loop runs on fuel and gives [None] when it is cut before its
      guard becomes false.
    - [show] is [False] throughout: printing is left out.
    - [roots_quadratic] (nlpy.tools.utils) is a parameter of the solver.
    - The products [A * x] and [A.T * y] return new arrays; [x ** 2] is the
      rounded product [x * x]; [norm] and [dot] add their terms in index
      order. *)

From Stdlib Require Import ZArith List Bool String Lia.
From Stdlib Require Import Floats.PrimFloat Floats.SpecFloat Floats.FloatOps Floats.FloatAxioms.
From Stdlib Require Import Reals Lra.
Import ListNotations.
Local Open Scope Z_scope.

(** ** Exceptions and results *)

Inductive exn : Set :=
| TypeError            (* zeros(n, 1): 1 is not a data type *)
| ValueError           (* shape mismatch, max([]), math domain error *)
| ZeroDivisionError    (* float / 0.0 *)
| OverflowError        (* float ** 2 out of range *)
| UnboundLocalError    (* v or w read before assignment *)
| OperatorError.       (* raised by the caller's operator *)

Inductive result (A : Type) : Type :=
| Ok (a : A)
| Raise (e : exn).

Arguments Ok {A} a.
Arguments Raise {A} e.

Definition bind {A B : Type} (r : result A) (k : A -> result B) : result B :=
  match r with
  | Ok a => k a
  | Raise e => Raise e
  end.

Notation "x <- e ;; k" := (bind e (fun x => k))
  (at level 61, e at next level, right associativity).

Definition unbound {A : Type} (o : option A) : result A :=
  match o with
  | Some a => Ok a
  | None => Raise UnboundLocalError
  end.

(** ** Scalars *)

Class FloatOps (F : Type) : Type := {
  f0 : F;
  f1 : F;
  f2 : F;
  f_inf : F;
  f_add : F -> F -> F;
  f_sub : F -> F -> F;
  f_mul : F -> F -> F;
  f_div : F -> F -> F;
  f_neg : F -> F;
  f_abs : F -> F;
  f_sqrt : F -> F;
  f_eqb : F -> F -> bool;
  f_ltb : F -> F -> bool;
  f_leb : F -> F -> bool;
  f_isfinite : F -> bool
}.

Inductive num (F : Type) : Type :=
| PyFloat (a : F)
| NpFloat64 (a : F).

Arguments PyFloat {F} a.
Arguments NpFloat64 {F} a.

(** numpy.zeros(shape, dtype): the second positional argument is the dtype. *)
Inductive dtype_arg : Set :=
| DtypeDefault
| DtypeInt (k : Z).

Section Scalars.
Context {F : Type} {FO : FloatOps F}.

Definition val (a : num F) : F :=
  match a with
  | PyFloat a0 => a0
  | NpFloat64 a0 => a0
  end.

(** The result of a binary operator is a [float] only when both operands are. *)
Definition lift2 (op : F -> F -> F) (a b : num F) : num F :=
  match a, b with
  | PyFloat a0, PyFloat b0 => PyFloat (op a0 b0)
  | _, _ => NpFloat64 (op (val a) (val b))
  end.

Definition lift1 (op : F -> F) (a : num F) : num F :=
  match a with
  | PyFloat a0 => PyFloat (op a0)
  | NpFloat64 a0 => NpFloat64 (op a0)
  end.

Definition add : num F -> num F -> num F := lift2 f_add.
Definition sub : num F -> num F -> num F := lift2 f_sub.
Definition mul : num F -> num F -> num F := lift2 f_mul.
Definition neg : num F -> num F := lift1 f_neg.
Definition abs : num F -> num F := lift1 f_abs.

(** [a / b] *)
Definition div (a b : num F) : result (num F) :=
  match a, b with
  | PyFloat a0, PyFloat b0 =>
      if f_eqb b0 f0 then Raise ZeroDivisionError else Ok (PyFloat (f_div a0 b0))
  | _, _ => Ok (NpFloat64 (f_div (val a) (val b)))
  end.

(** [a ** 2] *)
Definition sq (a : num F) : result (num F) :=
  match a with
  | PyFloat a0 =>
      if f_isfinite a0 && negb (f_isfinite (f_mul a0 a0))
      then Raise OverflowError
      else Ok (PyFloat (f_mul a0 a0))
  | NpFloat64 a0 => Ok (NpFloat64 (f_mul a0 a0))
  end.

(** [math.sqrt(a)] *)
Definition sqrt (a : num F) : result (num F) :=
  if f_ltb (val a) f0 then Raise ValueError else Ok (PyFloat (f_sqrt (val a))).

(** Comparisons: [a > b], [a <= b], [a < b], [a == b]. *)
Definition gt (a b : num F) : bool := f_ltb (val b) (val a).
Definition le (a b : num F) : bool := f_leb (val a) (val b).
Definition lt (a b : num F) : bool := f_ltb (val a) (val b).
Definition eq0 (a : num F) : bool := f_eqb (val a) f0.

Definition zero : num F := PyFloat f0.
Definition one : num F := PyFloat f1.
Definition two : num F := PyFloat f2.
Definition inf : num F := PyFloat f_inf.

(** [def normof2(x,y): return sqrt(x**2 + y**2)] *)
Definition normof2 (x y : num F) : result (num F) :=
  x2 <- sq x ;;
  y2 <- sq y ;;
  sqrt (add x2 y2).

(** [def normof4(x1,x2,x3,x4): return sqrt(x1**2 + x2**2 + x3**2 + x4**2)] *)
Definition normof4 (x1 x2 x3 x4 : num F) : result (num F) :=
  a1 <- sq x1 ;;
  a2 <- sq x2 ;;
  a3 <- sq x3 ;;
  a4 <- sq x4 ;;
  sqrt (add (add (add a1 a2) a3) a4).

(** ** Vectors (one-dimensional float64 arrays) *)

Fixpoint map2 (op : F -> F -> F) (a b : list F) : list F :=
  match a, b with
  | a0 :: a', b0 :: b' => op a0 b0 :: map2 op a' b'
  | _, _ => []
  end.

(** [a op b] on arrays: equal lengths, or one of them of length one. *)
Definition broadcast2 (op : F -> F -> F) (a b : list F) : result (list F) :=
  if Nat.eqb (List.length a) (List.length b) then Ok (map2 op a b)
  else match a, b with
       | [a0], _ => Ok (map (op a0) b)
       | _, [b0] => Ok (map (fun ai => op ai b0) a)
       | _, _ => Raise ValueError
       end.

(** [a op= b] on arrays: the result must have the shape of [a]. *)
Definition inplace2 (op : F -> F -> F) (a b : list F) : result (list F) :=
  if Nat.eqb (List.length a) (List.length b) then Ok (map2 op a b)
  else match b with
       | [b0] => Ok (map (fun ai => op ai b0) a)
       | _ => Raise ValueError
       end.

(** [c * a] for a scalar [c] *)
Definition scale (c : num F) (a : list F) : list F := map (f_mul (val c)) a.

(** [a /= c] and [a *= c] for a scalar [c] *)
Definition idiv (a : list F) (c : num F) : list F := map (fun ai => f_div ai (val c)) a.
Definition imul (a : list F) (c : num F) : list F := map (fun ai => f_mul ai (val c)) a.

Definition sumsq (a : list F) : F :=
  fold_left (fun acc ai => f_add acc (f_mul ai ai)) a f0.

(** [numpy.linalg.norm(a)]: the square root of the sum of the squares,
    summed from the first entry on. *)
Definition norm (a : list F) : num F := NpFloat64 (f_sqrt (sumsq a)).

(** [numpy.dot(a, b)] on one-dimensional arrays *)
Definition dot (a b : list F) : result (num F) :=
  if Nat.eqb (List.length a) (List.length b)
  then Ok (NpFloat64 (fold_left f_add (map2 f_mul a b) f0))
  else Raise ValueError.

Definition zeros (n : nat) (dt : dtype_arg) : result (list F) :=
  match dt with
  | DtypeDefault => Ok (repeat f0 n)
  | DtypeInt _ => Raise TypeError
  end.

(** [max(l)]: the first maximal element; [ValueError] on the empty list. *)
Definition py_max (l : list (num F)) : result (num F) :=
  match l with
  | [] => Raise ValueError
  | a :: l' => Ok (fold_left (fun cur item => if gt item cur then item else cur) l' a)
  end.

End Scalars.

(** ** The solver *)

(** The operator [A]: [A.shape], [A * x] and [A.T * y].  The products are
    the caller's code and may raise. *)
Record LinearOperator (F : Type) : Type := {
  shape : nat * nat;
  A_mul : list F -> result (list F);
  AT_mul : list F -> result (list F)
}.

Arguments shape {F} l.
Arguments A_mul {F} l _.
Arguments AT_mul {F} l _.

(** The arguments of [solve] ([show] is [False]). *)
Record args (F : Type) : Type := {
  rhs : list F;
  itnlim : Z;
  damp : F;
  atol : F;
  btol : F;
  conlim : F;
  radius : option F;
  wantvar : bool
}.

Arguments rhs {F} a.
Arguments itnlim {F} a.
Arguments damp {F} a.
Arguments atol {F} a.
Arguments btol {F} a.
Arguments conlim {F} a.
Arguments radius {F} a.
Arguments wantvar {F} a.

(** The local variables of [solve] that the main loop carries. *)
Record locals (F : Type) : Type := {
  itn : Z;
  istop : Z;
  x : list F;
  u : list F;
  v : option (list F);
  w : option (list F);
  alfa : num F;
  beta : num F;
  anorm : num F;
  acond : num F;
  arnorm : num F;
  rhobar : num F;
  phibar : num F;
  cs2 : num F;
  sn2 : num F;
  z : num F;
  xnorm : num F;
  xxnorm : num F;
  ddnorm : num F;
  res2 : num F;
  rnorm : num F;
  r1norm : num F;
  r2norm : num F;
  tr_active : bool;
  var : option (list F)
}.

Arguments itn {F} l.
Arguments istop {F} l.
Arguments x {F} l.
Arguments u {F} l.
Arguments v {F} l.
Arguments w {F} l.
Arguments alfa {F} l.
Arguments beta {F} l.
Arguments anorm {F} l.
Arguments acond {F} l.
Arguments arnorm {F} l.
Arguments rhobar {F} l.
Arguments phibar {F} l.
Arguments cs2 {F} l.
Arguments sn2 {F} l.
Arguments z {F} l.
Arguments xnorm {F} l.
Arguments xxnorm {F} l.
Arguments ddnorm {F} l.
Arguments res2 {F} l.
Arguments rnorm {F} l.
Arguments r1norm {F} l.
Arguments r2norm {F} l.
Arguments tr_active {F} l.
Arguments var {F} l.

(** What [solve] fixes before the loop and only reads inside it. *)
Record frame (F : Type) : Type := {
  fr_itnlim : Z;              (* itnlim, after [if itnlim == 0: itnlim = 3*n] *)
  fr_damp : num F;
  fr_dampsq : num F;
  fr_atol : num F;
  fr_btol : num F;
  fr_ctol : num F;            (* the local [ctol] *)
  fr_self_ctol : option (num F);   (* the attribute [self.ctol] *)
  fr_radius : option (num F);
  fr_wantvar : bool;
  fr_bnorm : num F;
  fr_x_is_zero : bool
}.

Arguments fr_itnlim {F} f.
Arguments fr_damp {F} f.
Arguments fr_dampsq {F} f.
Arguments fr_atol {F} f.
Arguments fr_btol {F} f.
Arguments fr_ctol {F} f.
Arguments fr_self_ctol {F} f.
Arguments fr_radius {F} f.
Arguments fr_wantvar {F} f.
Arguments fr_bnorm {F} f.
Arguments fr_x_is_zero {F} f.

(** The attributes of the [LSQRFramework] object that [solve] stores. *)
Record LSQRFramework (F : Type) : Type := {
  self_x : list F;
  self_var : option (list F);
  self_istop : Z;
  self_itn : Z;
  self_r1norm : num F;
  self_r2norm : num F;
  self_anorm : num F;
  self_acond : num F;
  self_arnorm : num F;
  self_xnorm : num F;
  self_onBoundary : bool;
  self_status : option string;
  self_ctol : option (num F)
}.

Arguments self_x {F} l.
Arguments self_var {F} l.
Arguments self_istop {F} l.
Arguments self_itn {F} l.
Arguments self_r1norm {F} l.
Arguments self_r2norm {F} l.
Arguments self_anorm {F} l.
Arguments self_acond {F} l.
Arguments self_arnorm {F} l.
Arguments self_xnorm {F} l.
Arguments self_onBoundary {F} l.
Arguments self_status {F} l.
Arguments self_ctol {F} l.

Section Solver.
Context {F : Type} {FO : FloatOps F}.

(** [nlpy.tools.utils.roots_quadratic(q2, q1, q0)]: the list of the real
    roots of [q2*t^2 + q1*t + q0]. *)
Variable roots_quadratic : num F -> num F -> num F -> result (list (num F)).

Variable A : LinearOperator F.

(** Lines 125-181: everything before the main loop. *)
Definition initialise (a : args F) : result (frame F * locals F) :=
  let '(m, n) := shape A in
  let itnlim := if a.(itnlim) =? 0 then 3 * Z.of_nat n else a.(itnlim) in
  var <- (if a.(wantvar)
          then r <- zeros n (DtypeInt 1) ;; Ok (Some r)
          else Ok None) ;;
  dampsq <- sq (PyFloat a.(damp)) ;;
  let ctol := zero in
  self_ctol <- (if gt (PyFloat a.(conlim)) zero
                then r <- div one (PyFloat a.(conlim)) ;; Ok (Some r)
                else Ok None) ;;
  x <- zeros n DtypeDefault ;;
  let u := firstn m a.(rhs) in
  let alfa := zero in
  let beta := norm u in
  st <- (if gt beta zero
         then let u := idiv u beta in
              v <- AT_mul A u ;;
              Ok (u, Some v, norm v)
         else Ok (u, None, alfa)) ;;
  let '(u, v, alfa) := st in
  vw <- (if gt alfa zero
         then v0 <- unbound v ;;
              let v1 := idiv v0 alfa in
              Ok (Some v1, Some v1)
         else Ok (v, None)) ;;
  let '(v, w) := vw in
  let arnorm := mul alfa beta in
  let x_is_zero := eq0 arnorm in
  Ok ({| fr_itnlim := itnlim;
         fr_damp := PyFloat a.(damp);
         fr_dampsq := dampsq;
         fr_atol := PyFloat a.(atol);
         fr_btol := PyFloat a.(btol);
         fr_ctol := ctol;
         fr_self_ctol := self_ctol;
         fr_radius := option_map PyFloat a.(radius);
         fr_wantvar := a.(wantvar);
         fr_bnorm := beta;
         fr_x_is_zero := x_is_zero |},
      {| itn := 0; istop := 0;
         x := x; u := u; v := v; w := w;
         alfa := alfa; beta := beta;
         anorm := zero; acond := zero; arnorm := arnorm;
         rhobar := alfa; phibar := beta;
         cs2 := neg one; sn2 := zero; z := zero;
         xnorm := zero; xxnorm := zero; ddnorm := zero; res2 := zero;
         rnorm := beta; r1norm := beta; r2norm := beta;
         tr_active := false; var := var |}).

(** Lines 204-211: the next step of the bidiagonalization. *)
Definition bidiag (dmp : num F) (s : locals F) : result (locals F) :=
  v0 <- unbound s.(v) ;;
  Av <- A_mul A v0 ;;
  u1 <- broadcast2 f_sub Av (scale s.(alfa) s.(u)) ;;
  let beta1 := norm u1 in
  if gt beta1 zero then
    let u2 := idiv u1 beta1 in
    anorm1 <- normof4 s.(anorm) s.(alfa) beta1 dmp ;;
    ATu <- AT_mul A u2 ;;
    v1 <- broadcast2 f_sub ATu (scale beta1 v0) ;;
    let alfa1 := norm v1 in
    let v2 := if gt alfa1 zero then idiv v1 alfa1 else v1 in
    Ok {| itn := s.(itn); istop := s.(istop);
          x := s.(x); u := u2; v := Some v2; w := s.(w);
          alfa := alfa1; beta := beta1;
          anorm := anorm1; acond := s.(acond); arnorm := s.(arnorm);
          rhobar := s.(rhobar); phibar := s.(phibar);
          cs2 := s.(cs2); sn2 := s.(sn2); z := s.(z);
          xnorm := s.(xnorm); xxnorm := s.(xxnorm); ddnorm := s.(ddnorm);
          res2 := s.(res2);
          rnorm := s.(rnorm); r1norm := s.(r1norm); r2norm := s.(r2norm);
          tr_active := s.(tr_active); var := s.(var) |}
  else
    Ok {| itn := s.(itn); istop := s.(istop);
          x := s.(x); u := u1; v := s.(v); w := s.(w);
          alfa := s.(alfa); beta := beta1;
          anorm := s.(anorm); acond := s.(acond); arnorm := s.(arnorm);
          rhobar := s.(rhobar); phibar := s.(phibar);
          cs2 := s.(cs2); sn2 := s.(sn2); z := s.(z);
          xnorm := s.(xnorm); xxnorm := s.(xxnorm); ddnorm := s.(ddnorm);
          res2 := s.(res2);
          rnorm := s.(rnorm); r1norm := s.(r1norm); r2norm := s.(r2norm);
          tr_active := s.(tr_active); var := s.(var) |}.

(** Lines 216-238: the two plane rotations and the step lengths. *)
Record rotation : Type := {
  psi : num F;
  rho : num F;
  cs : num F;
  sn : num F;
  theta : num F;
  rhobar_new : num F;
  phi : num F;
  phibar_new : num F;
  tau : num F;
  t1 : num F;
  t2 : num F;
  dk : list F
}.

Definition rotate (dmp : num F) (s : locals F) : result rotation :=
  rhobar1 <- normof2 s.(rhobar) dmp ;;
  cs1 <- div s.(rhobar) rhobar1 ;;
  sn1 <- div dmp rhobar1 ;;
  let psi := mul sn1 s.(phibar) in
  let phibar := mul cs1 s.(phibar) in
  rho <- normof2 rhobar1 s.(beta) ;;
  cs <- div rhobar1 rho ;;
  sn <- div s.(beta) rho ;;
  let theta := mul sn s.(alfa) in
  let rhobar := mul (neg cs) s.(alfa) in
  let phi := mul cs phibar in
  let phibar := mul sn phibar in
  let tau := mul sn phi in
  t1 <- div phi rho ;;
  t2 <- div (neg theta) rho ;;
  rinv <- div one rho ;;
  w0 <- unbound s.(w) ;;
  Ok {| psi := psi; rho := rho; cs := cs; sn := sn; theta := theta;
        rhobar_new := rhobar; phi := phi; phibar_new := phibar; tau := tau;
        t1 := t1; t2 := t2; dk := scale rinv w0 |}.

(** Lines 323-332: the stopping tests, in the order of the text. *)
Definition stop_tests (itn itnlim : Z)
    (test1 test2 test3 t1 ctol atol rtol : num F) (istop : Z) : Z :=
  let istop := if itnlim <=? itn then 7 else istop in
  let istop := if le (add one test3) one then 6 else istop in
  let istop := if le (add one test2) one then 5 else istop in
  let istop := if le (add one t1) one then 4 else istop in
  let istop := if le test3 ctol then 3 else istop in
  let istop := if le test2 atol then 2 else istop in
  let istop := if le test1 rtol then 1 else istop in
  istop.

(** Lines 240-258: the trust-region test, run when [radius is not None].
    [s] already holds the new [rhobar] and [phibar]. *)
Definition trust_region (rad : num F) (s : locals F) (r : rotation)
  : result (locals F) :=
  w0 <- unbound s.(w) ;;
  xw <- dot s.(x) w0 ;;
  ww <- dot w0 w0 ;;
  roots <- roots_quadratic ww (mul two xw)
             (sub (mul s.(xnorm) s.(xnorm)) (mul rad rad)) ;;
  stepMax <- py_max (map abs (filter (fun rt => gt (mul rt r.(t1)) zero) roots)) ;;
  if gt (abs r.(t1)) (abs stepMax) then
    x1 <- inplace2 f_add s.(x) (scale stepMax w0) ;;
    r1 <- normof2 (mul (mul r.(rho) stepMax) r.(sn))
                  (sub (mul (mul r.(rho) stepMax) r.(cs)) s.(phibar)) ;;
    Ok {| itn := s.(itn); istop := 8;
          x := x1; u := s.(u); v := s.(v); w := s.(w);
          alfa := s.(alfa); beta := s.(beta);
          anorm := s.(anorm); acond := s.(acond); arnorm := s.(arnorm);
          rhobar := s.(rhobar); phibar := s.(phibar);
          cs2 := s.(cs2); sn2 := s.(sn2); z := s.(z);
          xnorm := rad; xxnorm := s.(xxnorm); ddnorm := s.(ddnorm);
          res2 := s.(res2);
          rnorm := s.(rnorm); r1norm := r1; r2norm := s.(r2norm);
          tr_active := true; var := s.(var) |}
  else Ok s.

(** Lines 308-315: the quantities the stopping tests compare.  They are
    computed from variables the full step has just assigned. *)
Record tests : Type := {
  test1 : num F;
  test2 : num F;
  test3 : num F;
  t1' : num F;
  rtol : num F
}.

Definition convergence_tests (fr : frame F) (s : locals F) : result tests :=
  test1 <- div s.(rnorm) fr.(fr_bnorm) ;;
  test2 <- div s.(arnorm) (mul s.(anorm) s.(rnorm)) ;;
  test3 <- (if eq0 s.(acond) then Ok inf else div one s.(acond)) ;;
  ax <- div (mul s.(anorm) s.(xnorm)) fr.(fr_bnorm) ;;
  t1' <- div test1 (add one ax) ;;
  ax' <- div (mul (mul fr.(fr_atol) s.(anorm)) s.(xnorm)) fr.(fr_bnorm) ;;
  Ok {| test1 := test1; test2 := test2; test3 := test3; t1' := t1';
        rtol := add fr.(fr_btol) ax' |}.

Definition set_istop (s : locals F) (k : Z) : locals F :=
  {| itn := s.(itn); istop := k;
     x := s.(x); u := s.(u); v := s.(v); w := s.(w);
     alfa := s.(alfa); beta := s.(beta);
     anorm := s.(anorm); acond := s.(acond); arnorm := s.(arnorm);
     rhobar := s.(rhobar); phibar := s.(phibar);
     cs2 := s.(cs2); sn2 := s.(sn2); z := s.(z);
     xnorm := s.(xnorm); xxnorm := s.(xxnorm); ddnorm := s.(ddnorm);
     res2 := s.(res2);
     rnorm := s.(rnorm); r1norm := s.(r1norm); r2norm := s.(r2norm);
     tr_active := s.(tr_active); var := s.(var) |}.

(** Lines 261-303: the full step and the estimates of the norms. *)
Definition update (fr : frame F) (s : locals F) (r : rotation)
  : result (locals F) :=
  w0 <- unbound s.(w) ;;
  x1 <- inplace2 f_add s.(x) (scale r.(t1) w0) ;;
  v0 <- unbound s.(v) ;;
  w1 <- inplace2 f_add (imul w0 r.(t2)) v0 ;;
  ndk2 <- sq (norm r.(dk)) ;;
  let ddnorm1 := add s.(ddnorm) ndk2 in
  var1 <- (if fr.(fr_wantvar)
           then match s.(var) with
                | Some var0 =>
                    dk2 <- broadcast2 f_mul r.(dk) r.(dk) ;;
                    var' <- inplace2 f_add var0 dk2 ;;
                    Ok (Some var')
                | None => Raise TypeError
                end
           else Ok s.(var)) ;;
  let delta := mul s.(sn2) r.(rho) in
  let gambar := mul (neg s.(cs2)) r.(rho) in
  let rhs1 := sub r.(phi) (mul delta s.(z)) in
  zbar <- div rhs1 gambar ;;
  zbar2 <- sq zbar ;;
  xnorm1 <- sqrt (add s.(xxnorm) zbar2) ;;
  gamma <- normof2 gambar r.(theta) ;;
  cs2' <- div gambar gamma ;;
  sn2' <- div r.(theta) gamma ;;
  z1 <- div rhs1 gamma ;;
  let xxnorm1 := add s.(xxnorm) (mul z1 z1) in
  sd <- sqrt ddnorm1 ;;
  let acond1 := mul s.(anorm) sd in
  res1 <- sq s.(phibar) ;;
  psi2 <- sq r.(psi) ;;
  let res2' := add s.(res2) psi2 in
  rnorm1 <- sqrt (add res1 res2') ;;
  let arnorm1 := mul s.(alfa) (abs r.(tau)) in
  rn2 <- sq rnorm1 ;;
  let r1sq := sub rn2 (mul fr.(fr_dampsq) xxnorm1) in
  r1n <- sqrt (abs r1sq) ;;
  let r1norm1 := if lt r1sq zero then neg r1n else r1n in
  Ok {| itn := s.(itn); istop := s.(istop);
        x := x1; u := s.(u); v := s.(v); w := Some w1;
        alfa := s.(alfa); beta := s.(beta);
        anorm := s.(anorm); acond := acond1; arnorm := arnorm1;
        rhobar := s.(rhobar); phibar := s.(phibar);
        cs2 := cs2'; sn2 := sn2'; z := z1;
        xnorm := xnorm1; xxnorm := xxnorm1; ddnorm := ddnorm1;
        res2 := res2';
        rnorm := rnorm1; r1norm := r1norm1; r2norm := rnorm1;
        tr_active := s.(tr_active); var := var1 |}.

(** Lines 261-332: the full step, then the stopping tests. *)
Definition full_step (fr : frame F) (s : locals F) (r : rotation)
  : result (locals F) :=
  s1 <- update fr s r ;;
  t <- convergence_tests fr s1 ;;
  Ok (set_istop s1
        (stop_tests s1.(itn) fr.(fr_itnlim) t.(test1) t.(test2) t.(test3)
           t.(t1') fr.(fr_ctol) fr.(fr_atol) t.(rtol) s1.(istop))).

(** [itn = itn + 1] (line 198). *)
Definition next_itn (s : locals F) : locals F :=
  {| itn := s.(itn) + 1; istop := s.(istop);
     x := s.(x); u := s.(u); v := s.(v); w := s.(w);
     alfa := s.(alfa); beta := s.(beta);
     anorm := s.(anorm); acond := s.(acond); arnorm := s.(arnorm);
     rhobar := s.(rhobar); phibar := s.(phibar);
     cs2 := s.(cs2); sn2 := s.(sn2); z := s.(z);
     xnorm := s.(xnorm); xxnorm := s.(xxnorm); ddnorm := s.(ddnorm);
     res2 := s.(res2);
     rnorm := s.(rnorm); r1norm := s.(r1norm); r2norm := s.(r2norm);
     tr_active := s.(tr_active); var := s.(var) |}.

(** [rhobar = - cs * alfa] and [phibar = sn * phibar] (lines 229, 231). *)
Definition set_bars (s : locals F) (r : rotation) : locals F :=
  {| itn := s.(itn); istop := s.(istop);
     x := s.(x); u := s.(u); v := s.(v); w := s.(w);
     alfa := s.(alfa); beta := s.(beta);
     anorm := s.(anorm); acond := s.(acond); arnorm := s.(arnorm);
     rhobar := r.(rhobar_new); phibar := r.(phibar_new);
     cs2 := s.(cs2); sn2 := s.(sn2); z := s.(z);
     xnorm := s.(xnorm); xxnorm := s.(xxnorm); ddnorm := s.(ddnorm);
     res2 := s.(res2);
     rnorm := s.(rnorm); r1norm := s.(r1norm); r2norm := s.(r2norm);
     tr_active := s.(tr_active); var := s.(var) |}.

(** Lines 198-332: one pass through the body of the main loop. *)
Definition iteration (fr : frame F) (s : locals F) : result (locals F) :=
  s1 <- bidiag fr.(fr_damp) (next_itn s) ;;
  r <- rotate fr.(fr_damp) s1 ;;
  let s2 := set_bars s1 r in
  s3 <- match fr.(fr_radius) with
        | Some rad => trust_region rad s2 r
        | None => Ok s2
        end ;;
  if negb s3.(tr_active) then full_step fr s3 r else Ok s3.

(** Lines 197-353: [while itn < itnlim and not x_is_zero: ...;
    if istop > 0: break]. *)
Fixpoint main_loop (fuel : nat) (fr : frame F) (s : locals F)
  : option (result (locals F)) :=
  if (s.(itn) <? fr.(fr_itnlim)) && negb fr.(fr_x_is_zero) then
    match fuel with
    | O => None
    | S fuel' =>
        match iteration fr s with
        | Ok s' => if 0 <? s'.(istop) then Some (Ok s') else main_loop fuel' fr s'
        | Raise e => Some (Raise e)
        end
    end
  else Some (Ok s).

(** Lines 373-377: [self.status], left unset when no line assigns it. *)
Definition status_of (istop : Z) : option string :=
  let st := None in
  let st := if istop =? 0 then Some "solution is zero"%string else st in
  let st := if (istop =? 1) || (istop =? 2) || (istop =? 4) || (istop =? 5)
            then Some "residual small"%string else st in
  let st := if (istop =? 3) || (istop =? 6)
            then Some "ill-conditioned operator"%string else st in
  let st := if istop =? 7 then Some "max iterations"%string else st in
  let st := if istop =? 8 then Some "trust-region boundary active"%string else st in
  st.

(** Lines 373-389: the attributes stored on return. *)
Definition finish (fr : frame F) (s : locals F) : LSQRFramework F :=
  {| self_x := s.(x);
     self_var := s.(var);
     self_istop := s.(istop);
     self_itn := s.(itn);
     self_r1norm := s.(r1norm);
     self_r2norm := s.(r2norm);
     self_anorm := s.(anorm);
     self_acond := s.(acond);
     self_arnorm := s.(arnorm);
     self_xnorm := s.(xnorm);
     self_onBoundary := s.(tr_active);
     self_status := status_of s.(istop);
     self_ctol := fr.(fr_self_ctol) |}.

Definition solve_fuel (fuel : nat) (a : args F)
  : option (result (LSQRFramework F)) :=
  match initialise a with
  | Ok (fr, s0) =>
      match main_loop fuel fr s0 with
      | Some (Ok s) => Some (Ok (finish fr s))
      | Some (Raise e) => Some (Raise e)
      | None => None
      end
  | Raise e => Some (Raise e)
  end.

(** [LSQRFramework.solve]: the loop guard [itn < itnlim] bounds the number
    of passes, so [itnlim] passes of fuel are all the loop can use. *)
Definition solve (a : args F) : option (result (LSQRFramework F)) :=
  let '(_, n) := shape A in
  let lim := if a.(itnlim) =? 0 then 3 * Z.of_nat n else a.(itnlim) in
  solve_fuel (Z.to_nat lim) a.

End Solver.

(** ** The two readings of the arithmetic *)

(** IEEE binary64, as Python's [float] and [numpy.float64] are. *)
#[export] Instance Binary64 : FloatOps float := {
  f0 := PrimFloat.zero;
  f1 := PrimFloat.one;
  f2 := PrimFloat.two;
  f_inf := PrimFloat.infinity;
  f_add := PrimFloat.add;
  f_sub := PrimFloat.sub;
  f_mul := PrimFloat.mul;
  f_div := PrimFloat.div;
  f_neg := PrimFloat.opp;
  f_abs := PrimFloat.abs;
  f_sqrt := PrimFloat.sqrt;
  f_eqb := PrimFloat.eqb;
  f_ltb := PrimFloat.ltb;
  f_leb := PrimFloat.leb;
  f_isfinite := PrimFloat.is_finite
}.

Definition Reqb (a b : R) : bool := if Req_dec_T a b then true else false.
Definition Rltb (a b : R) : bool := if Rlt_dec a b then true else false.
Definition Rleb (a b : R) : bool := if Rle_dec a b then true else false.

(** Exact arithmetic: the same operations on the real numbers, with no
    rounding and no overflow.  The reals have no infinity; [pinf] stands for
    [inf], which the solver only assigns to [test3]. *)
Definition Exact (pinf : R) : FloatOps R := {|
  f0 := 0%R;
  f1 := 1%R;
  f2 := 2%R;
  f_inf := pinf;
  f_add := Rplus;
  f_sub := Rminus;
  f_mul := Rmult;
  f_div := Rdiv;
  f_neg := Ropp;
  f_abs := Rabs;
  f_sqrt := R_sqrt.sqrt;
  f_eqb := Reqb;
  f_ltb := Rltb;
  f_leb := Rleb;
  f_isfinite := fun _ => true
|}.

(** ** Operators and inputs used in the examples *)

Section Operators.
Context {F : Type} {FO : FloatOps F}.

Fixpoint sequence {B : Type} (l : list (result B)) : result (list B) :=
  match l with
  | [] => Ok []
  | r :: l' => b <- r ;; bs <- sequence l' ;; Ok (b :: bs)
  end.

(** The product of a matrix, given by its rows, with a vector; a row and
    a vector of different lengths raise, as in numpy. *)
Definition matvec (rows : list (list F)) (y : list F) : result (list F) :=
  sequence (map (fun row => r <- dot row y ;; Ok (val r)) rows).

Fixpoint columns (n : nat) (rows : list (list F)) : list (list F) :=
  match n with
  | O => []
  | S n' => map (hd f0) rows :: columns n' (map (@tl F) rows)
  end.

(** An [m] by [n] matrix as an operator. *)
Definition dense (m n : nat) (rows : list (list F)) : LinearOperator F :=
  {| shape := (m, n);
     A_mul := matvec rows;
     AT_mul := matvec (columns n rows) |}.

(** The identity on vectors of length [n], matrix-free. *)
Definition identity (n : nat) : LinearOperator F :=
  {| shape := (n, n);
     A_mul := fun y => Ok y;
     AT_mul := fun y => Ok y |}.

(** [c] times the identity, matrix-free, with a declared shape. *)
Definition scaling (m n : nat) (c : F) : LinearOperator F :=
  {| shape := (m, n);
     A_mul := fun y => Ok (map (f_mul c) y);
     AT_mul := fun y => Ok (map (f_mul c) y) |}.

(** Modelled from the spec: [roots_quadratic] is imported from
    [nlpy.tools.utils], which is not among the sources.  The spec (4.3,
    step 5) says: solve the scalar quadratic [q2*s^2 + q1*s + q0 = 0] for
    its real roots.  This is the closed form, smaller root first; a
    linear equation has its one root, and there is no root when the
    discriminant is negative. *)
Definition roots_quadratic_model (q2 q1 q0 : num F) : result (list (num F)) :=
  let a2 := val q2 in
  let a1 := val q1 in
  let a0 := val q0 in
  if f_eqb a2 f0 then
    if f_eqb a1 f0 then Ok [] else Ok [PyFloat (f_div (f_neg a0) a1)]
  else
    let disc := f_sub (f_mul a1 a1) (f_mul (f_mul (f_add f2 f2) a2) a0) in
    if f_ltb disc f0 then Ok []
    else
      let sd := f_sqrt disc in
      Ok [PyFloat (f_div (f_sub (f_neg a1) sd) (f_mul f2 a2));
          PyFloat (f_div (f_add (f_neg a1) sd) (f_mul f2 a2))].

End Operators.

(** ** The stopping policy in the words of the specification *)

(** "The last satisfied condition in this list wins": the code of the last
    test of [tests] whose condition holds, [otherwise] when none does. *)
Definition last_satisfied (tests : list (bool * Z)) (otherwise : Z) : Z :=
  match find fst (rev tests) with
  | Some (_, code) => code
  | None => otherwise
  end.

Section Policy.
Context {F : Type} {FO : FloatOps F}.

(** The tests in the order the specification fixes: the machine-precision
    guards 7, 6, 5, 4, then the user tolerances 3, 2, 1. *)
Definition evaluation_order (itn itnlim : Z) (t : @tests F)
    (ctol atol : num F) : list (bool * Z) :=
  [ (itnlim <=? itn, 7);
    (le (add one t.(test3)) one, 6);
    (le (add one t.(test2)) one, 5);
    (le (add one t.(t1')) one, 4);
    (le t.(test3) ctol, 3);
    (le t.(test2) atol, 2);
    (le t.(test1) t.(rtol), 1) ].

(** Some test other than the iteration limit holds. *)
Definition other_test_fires (t : @tests F) (ctol atol : num F) : bool :=
  le (add one t.(test3)) one || le (add one t.(test2)) one
  || le (add one t.(t1')) one
  || le t.(test3) ctol || le t.(test2) atol || le t.(test1) t.(rtol).

End Policy.

(** The iteration limit in force: [if itnlim == 0: itnlim = 3*n]. *)
Definition effective_itnlim {F : Type} (A : LinearOperator F) (a : args F) : Z :=
  if a.(itnlim) =? 0 then 3 * Z.of_nat (snd (shape A)) else a.(itnlim).

(** ** The log of a run *)

Section Log.
Context {F : Type} {FO : FloatOps F}.
Variable roots_quadratic : num F -> num F -> num F -> result (list (num F)).
Variable A : LinearOperator F.

(** The states at the end of the passes of [main_loop], in order: what an
    instrumented run records, one entry for each pass that returns. *)
Fixpoint passes (fuel : nat) (fr : frame F) (s : locals F) : list (locals F) :=
  if (s.(itn) <? fr.(fr_itnlim)) && negb fr.(fr_x_is_zero) then
    match fuel with
    | O => []
    | S fuel' =>
        match iteration roots_quadratic A fr s with
        | Ok s' => s' :: (if 0 <? s'.(istop) then [] else passes fuel' fr s')
        | Raise _ => []
        end
    end
  else [].

(** The values of [r1norm] after the full (non-boundary) passes. *)
Definition r1norm_log (fuel : nat) (fr : frame F) (s : locals F) : list F :=
  map (fun s' => val s'.(r1norm))
      (filter (fun s' => negb s'.(tr_active)) (passes fuel fr s)).

(** What an instrumented run checks: each recorded value is [<=] the one
    before it. *)
Fixpoint nonincreasingb (l : list F) : bool :=
  match l with
  | [] => true
  | a :: l' =>
      match l' with
      | [] => true
      | b :: _ => f_leb b a && nonincreasingb l'
      end
  end.

End Log.

(** On the reals: each entry is at most the one before it. *)
Fixpoint nonincreasing (l : list R) : Prop :=
  match l with
  | [] => True
  | a :: l' =>
      match l' with
      | [] => True
      | b :: _ => (b <= a)%R /\ nonincreasing l'
      end
  end.

(** Lines 301-302 on the reals: [sqrt(abs(r1sq))], negated when [r1sq < 0]. *)
Definition signed_sqrt (y : R) : R :=
  if Rltb y 0 then (- R_sqrt.sqrt (Rabs y))%R else R_sqrt.sqrt (Rabs y).

(** The quantity whose signed square root [r1norm] is: line 300 on the
    current values, [phibar^2 + res2 - dampsq*xxnorm]. *)
Definition r1sq_of (fr : frame R) (s : locals R) : R :=
  (val s.(phibar) * val s.(phibar) + val s.(res2)
   - val fr.(fr_dampsq) * val s.(xxnorm))%R.

(** ** The run on the identity, in exact arithmetic *)

(** The frame and the state that the initialisation leaves when the
    operator is the identity and [damp = 0]: [bt] is the norm of the
    right-hand side and [ub] the right-hand side divided by it. *)
Definition identity_frame (lim : Z) (tol_a tol_b : R) (o : option (num R))
    (bt : R) : frame R :=
  {| fr_itnlim := lim;
     fr_damp := PyFloat 0%R;
     fr_dampsq := PyFloat 0%R;
     fr_atol := PyFloat tol_a;
     fr_btol := PyFloat tol_b;
     fr_ctol := PyFloat 0%R;
     fr_self_ctol := o;
     fr_radius := None;
     fr_wantvar := false;
     fr_bnorm := NpFloat64 bt;
     fr_x_is_zero := false |}.

Definition identity_start (n : nat) (ub : list R) (bt : R) : locals R :=
  {| itn := 0; istop := 0;
     x := repeat 0%R n; u := ub; v := Some ub; w := Some ub;
     alfa := NpFloat64 1%R; beta := NpFloat64 bt;
     anorm := PyFloat 0%R; acond := PyFloat 0%R; arnorm := NpFloat64 bt;
     rhobar := NpFloat64 1%R; phibar := NpFloat64 bt;
     cs2 := PyFloat (-1)%R; sn2 := PyFloat 0%R; z := PyFloat 0%R;
     xnorm := PyFloat 0%R; xxnorm := PyFloat 0%R; ddnorm := PyFloat 0%R;
     res2 := PyFloat 0%R;
     rnorm := NpFloat64 bt; r1norm := NpFloat64 bt; r2norm := NpFloat64 bt;
     tr_active := false; var := None |}.

(** The right-hand side (1) with every tolerance at zero, on the reals. *)
Definition unit_args : args R :=
  {| rhs := [1%R]; itnlim := 0; damp := 0%R; atol := 0%R; btol := 0%R;
     conlim := 0%R; radius := None; wantvar := false |}.

(** ** Inputs of the examples (binary64) *)

Set Warnings "-inexact-float".

(** The keyword arguments at their defaults. *)
Definition defaults (b : list float) : args float :=
  {| rhs := b; itnlim := 0; damp := 0%float;
     atol := 1.0e-9%float; btol := 1.0e-9%float; conlim := 1.0e+8%float;
     radius := None; wantvar := false |}.

Definition with_itnlim (k : Z) (a : args float) : args float :=
  {| rhs := a.(rhs); itnlim := k; damp := a.(damp);
     atol := a.(atol); btol := a.(btol); conlim := a.(conlim);
     radius := a.(radius); wantvar := a.(wantvar) |}.

Definition with_conlim (c : float) (a : args float) : args float :=
  {| rhs := a.(rhs); itnlim := a.(itnlim); damp := a.(damp);
     atol := a.(atol); btol := a.(btol); conlim := c;
     radius := a.(radius); wantvar := a.(wantvar) |}.

Definition with_radius (r : float) (a : args float) : args float :=
  {| rhs := a.(rhs); itnlim := a.(itnlim); damp := a.(damp);
     atol := a.(atol); btol := a.(btol); conlim := a.(conlim);
     radius := Some r; wantvar := a.(wantvar) |}.

Definition with_damp (d : float) (a : args float) : args float :=
  {| rhs := a.(rhs); itnlim := a.(itnlim); damp := d;
     atol := a.(atol); btol := a.(btol); conlim := a.(conlim);
     radius := a.(radius); wantvar := a.(wantvar) |}.

Definition with_wantvar (a : args float) : args float :=
  {| rhs := a.(rhs); itnlim := a.(itnlim); damp := a.(damp);
     atol := a.(atol); btol := a.(btol); conlim := a.(conlim);
     radius := a.(radius); wantvar := true |}.

(** diag(1, 2), diag(1, 10, 100) and the 4 by 1 matrix with column (1, 1, 0, 0). *)
Definition diag2 : LinearOperator float :=
  dense 2 2 [[1; 0]; [0; 2]]%float.

Definition diag3 : LinearOperator float :=
  dense 3 3 [[1; 0; 0]; [0; 10; 0]; [0; 0; 100]]%float.

Definition column4 : LinearOperator float :=
  dense 4 1 [[1]; [1]; [0]; [0]]%float.

(** A 4 by 3 matrix of full column rank. *)
Definition tall43 : LinearOperator float :=
  dense 4 3 [[0.5; 0.25; 0.25]; [2; 0.5; 3]; [0.5; 0.25; 0]; [0.5; 0.25; 0.5]]%float.

(** ** The object *)

(** [LSQRFramework.__init__], lines 55-63: the messages, one for each stop
    code. *)
Definition msg : list string :=
  [ "The exact solution is  x = 0                              ";
    "Ax - b is small enough, given atol, btol                  ";
    "The least-squares solution is good enough, given atol     ";
    "The estimate of cond(Abar) has exceeded conlim            ";
    "Ax - b is small enough for this machine                   ";
    "The least-squares solution is good enough for this machine";
    "Cond(Abar) seems to be too large for this machine         ";
    "The iteration limit has been reached                      ";
    "The trust-region boundary has been hit                    " ]%string.

(** [l[i]] on a Python list; [None] stands for [IndexError]. *)
Definition py_index {B : Type} (l : list B) (i : Z) : option B :=
  if 0 <=? i then nth_error l (Z.to_nat i)
  else if - Z.of_nat (List.length l) <=? i
       then nth_error l (Z.to_nat (Z.of_nat (List.length l) + i))
       else None.

(** [solve] with [damp] replaced by [-damp]. *)
Definition negate_damp {F : Type} {FO : FloatOps F} (a : args F) : args F :=
  {| rhs := a.(rhs); itnlim := a.(itnlim); damp := f_neg a.(damp);
     atol := a.(atol); btol := a.(btol); conlim := a.(conlim);
     radius := a.(radius); wantvar := a.(wantvar) |}.

(** The rotation computed from [-damp]: [psi] changes sign, nothing else. *)
Definition flip_psi {F : Type} {FO : FloatOps F} (r : @rotation F)
  : @rotation F :=
  {| psi := neg r.(psi); rho := r.(rho); cs := r.(cs); sn := r.(sn);
     theta := r.(theta); rhobar_new := r.(rhobar_new); phi := r.(phi);
     phibar_new := r.(phibar_new); tau := r.(tau); t1 := r.(t1);
     t2 := r.(t2); dk := r.(dk) |}.

(** The frame of the call with [-damp]. *)
Definition flip_damp {F : Type} {FO : FloatOps F} (fr : frame F) : frame F :=
  {| fr_itnlim := fr.(fr_itnlim); fr_damp := neg fr.(fr_damp);
     fr_dampsq := fr.(fr_dampsq); fr_atol := fr.(fr_atol);
     fr_btol := fr.(fr_btol); fr_ctol := fr.(fr_ctol);
     fr_self_ctol := fr.(fr_self_ctol); fr_radius := fr.(fr_radius);
     fr_wantvar := fr.(fr_wantvar); fr_bnorm := fr.(fr_bnorm);
     fr_x_is_zero := fr.(fr_x_is_zero) |}.

(** A frame and a result with the attribute [self.ctol] left out. *)
Definition without_ctol {F : Type} (res : LSQRFramework F) : LSQRFramework F :=
  {| self_x := res.(self_x); self_var := res.(self_var);
     self_istop := res.(self_istop); self_itn := res.(self_itn);
     self_r1norm := res.(self_r1norm); self_r2norm := res.(self_r2norm);
     self_anorm := res.(self_anorm); self_acond := res.(self_acond);
     self_arnorm := res.(self_arnorm); self_xnorm := res.(self_xnorm);
     self_onBoundary := res.(self_onBoundary);
     self_status := res.(self_status); self_ctol := None |}.

Definition frame_without_ctol {F : Type} (fr : frame F) : frame F :=
  {| fr_itnlim := fr.(fr_itnlim); fr_damp := fr.(fr_damp);
     fr_dampsq := fr.(fr_dampsq); fr_atol := fr.(fr_atol);
     fr_btol := fr.(fr_btol); fr_ctol := fr.(fr_ctol);
     fr_self_ctol := None; fr_radius := fr.(fr_radius);
     fr_wantvar := fr.(fr_wantvar); fr_bnorm := fr.(fr_bnorm);
     fr_x_is_zero := fr.(fr_x_is_zero) |}.

(** The results of a call with [self.ctol] left out; an exception is kept. *)
Definition outcome {F : Type} (r : option (result (LSQRFramework F)))
  : option (result (LSQRFramework F)) :=
  match r with
  | Some (Ok res) => Some (Ok (without_ctol res))
  | other => other
  end.

(** An operator whose products take vectors of the declared lengths to
    vectors of the declared lengths, and do not raise on them. *)
Definition well_shaped {F : Type} (A : LinearOperator F) : Prop :=
  (forall y, List.length y = snd (shape A) ->
             exists r, A_mul A y = Ok r /\ List.length r = fst (shape A))
  /\ (forall y, List.length y = fst (shape A) ->
                exists r, AT_mul A y = Ok r /\ List.length r = snd (shape A)).

(** The exceptions of Python's own arithmetic and name lookup. *)
Definition arithmetic_or_unbound (e : exn) : Prop :=
  e = OverflowError \/ e = ZeroDivisionError \/ e = UnboundLocalError.

(** A result that is a value with property [P], or one of these exceptions. *)
Definition safe {B : Type} (P : B -> Prop) (r : result B) : Prop :=
  match r with
  | Ok b => P b
  | Raise e => arithmetic_or_unbound e
  end.

(** Not below zero (a NaN is not). *)
Definition not_negative (a : num float) : Prop :=
  PrimFloat.ltb (val a) PrimFloat.zero = false.

(** The vectors of a state have the lengths of an [m] by [n] problem. *)
Definition shapes_ok (m n : nat) (s : locals float) : Prop :=
  List.length (x s) = n /\ List.length (u s) = m
  /\ (forall v0, v s = Some v0 -> List.length v0 = n)
  /\ (forall w0, w s = Some w0 -> List.length w0 = n).

(** The running sums of squares are not below zero. *)
Definition sums_ok (s : locals float) : Prop :=
  not_negative (xxnorm s) /\ not_negative (ddnorm s) /\ not_negative (res2 s).

(** A binary64 value that is not below zero: a NaN, a zero of either sign,
    or a positive number. *)
Definition sf_not_negative (x : spec_float) : bool :=
  match x with
  | S754_infinity true | S754_finite true _ _ => false
  | _ => true
  end.

Section EstimateLog.
Context {F : Type} {FO : FloatOps F}.
Variable roots_quadratic : num F -> num F -> num F -> result (list (num F)).
Variable A : LinearOperator F.

(** The values of an estimate after the full (non-boundary) passes. *)
Definition estimate_log (f : locals F -> num F)
    (fuel : nat) (fr : frame F) (s : locals F) : list F :=
  map (fun s' => val (f s'))
      (filter (fun s' => negb s'.(tr_active)) (passes roots_quadratic A fuel fr s)).

End EstimateLog.

(** What the estimates of a state are in exact arithmetic: running sums
    that are not negative, [r1norm] and [r2norm] as the square roots of
    lines 288-303, and [acond] as the product of line 285. *)
Definition estimates_ok (fr : frame R) (s : locals R) : Prop :=
  (0 <= val (res2 s))%R /\ (0 <= val (xxnorm s))%R
  /\ (0 <= val (ddnorm s))%R /\ (0 <= val (anorm s))%R
  /\ val (r1norm s) = signed_sqrt (r1sq_of fr s)
  /\ val (r2norm s)
     = R_sqrt.sqrt (val (phibar s) * val (phibar s) + val (res2 s))
  /\ val (acond s) = (val (anorm s) * R_sqrt.sqrt (val (ddnorm s)))%R.

(** Adjacent entries of a list are related by [rel]. *)
Fixpoint chain {B : Type} (rel : B -> B -> Prop) (l : list B) : Prop :=
  match l with
  | [] => True
  | a :: l' =>
      match l' with
      | [] => True
      | b :: _ => rel a b /\ chain rel l'
      end
  end.

(** [u] and [v] are unit vectors when [beta] and [alfa] are positive, and
    have norm zero otherwise. *)
Definition normalised {F : Type} {FO : FloatOps F} (s : locals F) : Prop :=
  sumsq (u s) = (if gt (beta s) zero then f1 else f0)
  /\ (forall v0, v s = Some v0 ->
                 sumsq v0 = (if gt (alfa s) zero then f1 else f0)).

(* ================================================================== *)
(** * Properties *)
(* ================================================================== *)

(** ** The error monad *)

Lemma bind_Ok {A B : Type} (r : result A) (k : A -> result B) (b : B) :
  bind r k = Ok b -> exists a, r = Ok a /\ k a = Ok b.
Proof.
  destruct r as [a | e]; simpl; intros H; try discriminate.
  exists a. split; [reflexivity | exact H].
Qed.

Ltac inv_bind H :=
  let a := fresh "y" in
  let H1 := fresh "E" in
  apply bind_Ok in H; destruct H as (a & H1 & H).

(** ** The order of the stopping tests *)

(** Lines 323-332 compute the code of the last satisfied test in the
    evaluation order 7, 6, 5, 4, 3, 2, 1, and leave the code as it was when
    no test holds. *)
Lemma stop_tests_evaluation_order {F : Type} {FO : FloatOps F}
      (itn itnlim : Z) (t : @tests F) (ctol atol : num F) (istop0 : Z) :
  stop_tests itn itnlim t.(test1) t.(test2) t.(test3) t.(t1')
             ctol atol t.(rtol) istop0
  = last_satisfied (evaluation_order itn itnlim t ctol atol) istop0.
Proof.
  unfold stop_tests, last_satisfied, evaluation_order.
  destruct (itnlim <=? itn), (le (add one (test3 t)) one),
    (le (add one (test2 t)) one), (le (add one (t1' t)) one),
    (le (test3 t) ctol), (le (test2 t) atol), (le (test1 t) (rtol t));
    reflexivity.
Qed.

(** On the identity with right-hand side (3, 4) the first pass satisfies
    both the machine-precision test of code 4 and the tolerance test of
    code 1; the later assignment wins and the pass ends with code 1. *)
Example stop_code_overwritten :
  exists fr s0 s1 t,
    initialise (identity 2) (defaults [3; 4]%float) = Ok (fr, s0)
    /\ iteration roots_quadratic_model (identity 2) fr s0 = Ok s1
    /\ convergence_tests fr s1 = Ok t
    /\ le (add one (t1' t)) one = true
    /\ le (test1 t) (rtol t) = true
    /\ istop s1 = 1.
Proof.
  do 4 eexists.
  split; [lazy; reflexivity | ].
  split; [lazy; reflexivity | ].
  split; [lazy; reflexivity | ].
  repeat split; vm_compute; reflexivity.
Qed.

(** ** What one pass of the loop changes *)

Section Passes.
Context {F : Type} {FO : FloatOps F}.
Variable roots_quadratic : num F -> num F -> num F -> result (list (num F)).
Variable A : LinearOperator F.

Lemma bidiag_frame (dmp : num F) (s s' : locals F) :
  bidiag A dmp s = Ok s' ->
  itn s' = itn s /\ istop s' = istop s /\ tr_active s' = tr_active s
  /\ x s' = x s /\ w s' = w s /\ xnorm s' = xnorm s /\ var s' = var s
  /\ ddnorm s' = ddnorm s /\ acond s' = acond s /\ rnorm s' = rnorm s.
Proof.
  unfold bidiag. intros H.
  inv_bind H. inv_bind H. inv_bind H.
  destruct (gt (norm y1) zero).
  - inv_bind H. inv_bind H. inv_bind H.
    injection H as <-. simpl. repeat split; reflexivity.
  - injection H as <-. simpl. repeat split; reflexivity.
Qed.

Lemma trust_region_cases (rad : num F) (s s' : locals F) (r : rotation) :
  trust_region roots_quadratic rad s r = Ok s' ->
  (s' = s)
  \/ (tr_active s' = true /\ istop s' = 8 /\ itn s' = itn s
      /\ xnorm s' = rad /\ w s' = w s /\ ddnorm s' = ddnorm s
      /\ acond s' = acond s /\ rnorm s' = rnorm s
      /\ exists w0 stepMax,
           w s = Some w0
           /\ gt (abs r.(t1)) (abs stepMax) = true
           /\ inplace2 f_add (x s) (scale stepMax w0) = Ok (x s')).
Proof.
  unfold trust_region. intros H.
  inv_bind H. inv_bind H. inv_bind H. inv_bind H. inv_bind H.
  destruct (gt (abs (t1 r)) (abs y3)) eqn:Hgt.
  - inv_bind H. inv_bind H. injection H as <-. right. simpl.
    repeat split; try reflexivity.
    exists y, y3. repeat split; try assumption.
    destruct (w s); simpl in E; [injection E as ->; reflexivity | discriminate].
  - injection H as <-. left. reflexivity.
Qed.

Lemma update_frame (fr : frame F) (s s' : locals F) (r : rotation) :
  update fr s r = Ok s' ->
  itn s' = itn s /\ istop s' = istop s /\ tr_active s' = tr_active s.
Proof.
  unfold update. intros H.
  repeat (inv_bind H). injection H as <-. simpl. repeat split; reflexivity.
Qed.

Lemma convergence_tests_set_istop (fr : frame F) (s : locals F) (k : Z) :
  convergence_tests fr (set_istop s k) = convergence_tests fr s.
Proof. reflexivity. Qed.

(** The stop code a full step leaves is the one [stop_tests] computes from
    the quantities of lines 308-315, read off the state it returns. *)
Lemma full_step_stop_code (fr : frame F) (s s' : locals F) (r : rotation) :
  full_step fr s r = Ok s' ->
  itn s' = itn s /\ tr_active s' = tr_active s
  /\ exists t,
       convergence_tests fr s' = Ok t
       /\ istop s' = stop_tests (itn s') (fr_itnlim fr) t.(test1) t.(test2)
                       t.(test3) t.(t1') (fr_ctol fr) (fr_atol fr) t.(rtol)
                       (istop s).
Proof.
  unfold full_step. intros H.
  inv_bind H. inv_bind H. injection H as <-.
  destruct (update_frame _ _ _ _ E) as (Hi & Hs & Ht).
  rewrite convergence_tests_set_istop. simpl.
  repeat split; try assumption.
  exists y0. split; [assumption | ]. rewrite Hs. reflexivity.
Qed.

(** One pass: the counter goes up by one, and the pass ends either with
    the boundary step (code 8) or with the stopping tests of a full step. *)
Lemma iteration_cases (fr : frame F) (s s' : locals F) :
  iteration roots_quadratic A fr s = Ok s' ->
  tr_active s = false ->
  itn s' = itn s + 1
  /\ ((tr_active s' = true /\ istop s' = 8 /\ fr_radius fr <> None)
      \/ (tr_active s' = false
          /\ exists t,
               convergence_tests fr s' = Ok t
               /\ istop s' = stop_tests (itn s') (fr_itnlim fr) t.(test1)
                               t.(test2) t.(test3) t.(t1') (fr_ctol fr)
                               (fr_atol fr) t.(rtol) (istop s))).
Proof.
  unfold iteration. intros H Hact.
  inv_bind H. inv_bind H. inv_bind H.
  destruct (bidiag_frame _ _ _ E) as (Hi & Hs & Ht & _).
  simpl in Hi, Hs, Ht.
  assert (Hy1 : y1 = set_bars y y0
                \/ (tr_active y1 = true /\ istop y1 = 8 /\ itn y1 = itn y
                    /\ fr_radius fr <> None)).
  { destruct (fr_radius fr) as [rad | ].
    - destruct (trust_region_cases _ _ _ _ E1) as [-> | (H1 & H2 & H3 & _)].
      + left. reflexivity.
      + right. repeat split; try assumption. discriminate.
    - left. injection E1 as <-. reflexivity. }
  destruct Hy1 as [-> | (H1 & H2 & H3 & H4)].
  - simpl in H. rewrite Ht, Hact in H. simpl in H.
    destruct (full_step_stop_code _ _ _ _ H) as (Hi' & Ht' & t & Hc & Hst).
    simpl in Hi', Ht', Hst. split; [congruence | ]. right.
    split; [congruence | ]. exists t. split; [assumption | ].
    rewrite Hst, Hs. reflexivity.
  - rewrite H1 in H. simpl in H. injection H as <-.
    split; [congruence | ]. left. repeat split; assumption.
Qed.

End Passes.

(** ** The main loop *)

Section Loop.
Context {F : Type} {FO : FloatOps F}.
Variable roots_quadratic : num F -> num F -> num F -> result (list (num F)).
Variable A : LinearOperator F.

Lemma stop_tests_range (k lim : Z) (a1 a2 a3 a4 ctol atol rtol : num F) (i0 : Z) :
  stop_tests k lim a1 a2 a3 a4 ctol atol rtol i0 = i0
  \/ 1 <= stop_tests k lim a1 a2 a3 a4 ctol atol rtol i0 <= 7.
Proof.
  unfold stop_tests.
  destruct (lim <=? k), (le (add one a3) one), (le (add one a2) one),
    (le (add one a4) one), (le a3 ctol), (le a2 atol), (le a1 rtol);
    (left; reflexivity) || (right; lia).
Qed.

Lemma stop_tests_at_limit (k lim : Z) (a1 a2 a3 a4 ctol atol rtol : num F) (i0 : Z) :
  lim <= k ->
  1 <= stop_tests k lim a1 a2 a3 a4 ctol atol rtol i0 <= 7.
Proof.
  intros Hk. unfold stop_tests.
  apply Z.leb_le in Hk. rewrite Hk.
  destruct (le (add one a3) one), (le (add one a2) one),
    (le (add one a4) one), (le a3 ctol), (le a2 atol), (le a1 rtol); lia.
Qed.

Lemma stop_tests_limit_only (k lim : Z) (t : @tests F) (ctol atol : num F) (i0 : Z) :
  lim <= k ->
  other_test_fires t ctol atol = false ->
  stop_tests k lim t.(test1) t.(test2) t.(test3) t.(t1') ctol atol t.(rtol) i0 = 7.
Proof.
  intros Hk Hno. unfold stop_tests, other_test_fires in *.
  apply Z.leb_le in Hk. rewrite Hk.
  destruct (le (add one (test3 t)) one), (le (add one (test2 t)) one),
    (le (add one (t1' t)) one), (le (test3 t) ctol), (le (test2 t) atol),
    (le (test1 t) (rtol t)); simpl in Hno; try discriminate; reflexivity.
Qed.

Lemma iteration_itn (fr : frame F) (s s' : locals F) :
  iteration roots_quadratic A fr s = Ok s' -> itn s' = itn s + 1.
Proof.
  unfold iteration. intros H.
  inv_bind H. inv_bind H. inv_bind H.
  destruct (bidiag_frame _ _ _ _ E) as (Hi & _). simpl in Hi.
  assert (Hy1 : itn y1 = itn y).
  { destruct (fr_radius fr) as [rad | ].
    - destruct (trust_region_cases _ _ _ _ _ E1) as [-> | (_ & _ & H3 & _)];
        [reflexivity | exact H3].
    - injection E1 as <-. reflexivity. }
  destruct (negb (tr_active y1)).
  - destruct (full_step_stop_code _ _ _ _ H) as (Hi' & _). congruence.
  - injection H as <-. congruence.
Qed.

(** The guard [itn < itnlim] makes [itnlim - itn] passes of fuel enough. *)
Lemma main_loop_terminates (fuel : nat) (fr : frame F) (s : locals F) :
  (Z.to_nat (fr_itnlim fr - itn s) <= fuel)%nat ->
  exists r, main_loop roots_quadratic A fuel fr s = Some r.
Proof.
  revert s. induction fuel as [ | fuel IH]; intros s Hfuel; simpl.
  - destruct (itn s <? fr_itnlim fr) eqn:Hlt.
    + apply Z.ltb_lt in Hlt. lia.
    + simpl. eexists. reflexivity.
  - destruct ((itn s <? fr_itnlim fr) && negb (fr_x_is_zero fr)) eqn:Hg.
    + destruct (iteration roots_quadratic A fr s) as [s' | e] eqn:Hit.
      * destruct (0 <? istop s'); [eexists; reflexivity | ].
        apply IH. apply iteration_itn in Hit. lia.
      * eexists. reflexivity.
    + eexists. reflexivity.
Qed.

Lemma main_loop_more_fuel (fuel fuel' : nat) (fr : frame F) (s : locals F)
      (r : result (locals F)) :
  main_loop roots_quadratic A fuel fr s = Some r ->
  (fuel <= fuel')%nat ->
  main_loop roots_quadratic A fuel' fr s = Some r.
Proof.
  revert fuel' s. induction fuel as [ | fuel IH]; intros fuel' s H Hle.
  - simpl in H.
    destruct fuel'; simpl;
      destruct ((itn s <? fr_itnlim fr) && negb (fr_x_is_zero fr));
      try discriminate; assumption.
  - destruct fuel' as [ | fuel']; [lia | ].
    simpl in *.
    destruct ((itn s <? fr_itnlim fr) && negb (fr_x_is_zero fr)); [ | assumption].
    destruct (iteration roots_quadratic A fr s) as [s' | e]; [ | assumption].
    destruct (0 <? istop s'); [assumption | ].
    apply IH; [assumption | lia].
Qed.

(** What the state is when the loop ends normally: either no pass was
    made, or the last pass [sp -> s'] started below the limit with stop
    code 0 and ended with a positive stop code or at the limit. *)
Lemma main_loop_result (fuel : nat) (fr : frame F) (s s' : locals F) :
  istop s = 0 -> tr_active s = false ->
  main_loop roots_quadratic A fuel fr s = Some (Ok s') ->
  (s' = s /\ (itn s <? fr_itnlim fr) && negb (fr_x_is_zero fr) = false)
  \/ (exists sp,
        iteration roots_quadratic A fr sp = Ok s'
        /\ istop sp = 0 /\ tr_active sp = false
        /\ itn s <= itn sp < fr_itnlim fr
        /\ fr_x_is_zero fr = false
        /\ (0 < istop s' \/ (istop s' = 0 /\ fr_itnlim fr <= itn s'))).
Proof.
  revert s. induction fuel as [ | fuel IH]; intros s Hs Ht H; simpl in H.
  - destruct ((itn s <? fr_itnlim fr) && negb (fr_x_is_zero fr)) eqn:Hg;
      [discriminate | ].
    injection H as H. left. split; [symmetry; assumption | reflexivity].
  - destruct ((itn s <? fr_itnlim fr) && negb (fr_x_is_zero fr)) eqn:Hg.
    + apply andb_prop in Hg. destruct Hg as (Hlt & Hz).
      apply Z.ltb_lt in Hlt. apply negb_true_iff in Hz.
      destruct (iteration roots_quadratic A fr s) as [s1 | e] eqn:Hit;
        [ | discriminate].
      destruct (iteration_cases _ _ _ _ _ Hit Ht) as (Hi & Hc).
      destruct (0 <? istop s1) eqn:Hpos.
      * injection H as <-. right. exists s.
        apply Z.ltb_lt in Hpos. repeat split; try assumption; lia.
      * apply Z.ltb_ge in Hpos.
        assert (Hs1 : istop s1 = 0 /\ tr_active s1 = false).
        { destruct Hc as [(_ & H8 & _) | (Hf & t & _ & Hst)]; [lia | ].
          split; [ | assumption].
          rewrite Hs in Hst.
          destruct (stop_tests_range (itn s1) (fr_itnlim fr) (test1 t) (test2 t)
                      (test3 t) (t1' t) (fr_ctol fr) (fr_atol fr) (rtol t) 0)
            as [H0 | H17]; lia. }
        destruct Hs1 as (Hs1 & Ht1).
        destruct (IH s1 Hs1 Ht1 H) as [(-> & Hg1) | (sp & Hsp)].
        -- right. exists s. repeat split; try assumption; try lia.
           right. split; [assumption | ].
           rewrite Hz in Hg1. simpl in Hg1. rewrite andb_true_r in Hg1.
           apply Z.ltb_ge in Hg1. assumption.
        -- right. exists sp.
           destruct Hsp as (H1 & H2 & H3 & H4 & H5 & H6).
           repeat split; try assumption; lia.
    + injection H as H. left. split; [symmetry; assumption | reflexivity].
Qed.

(** However the call ends, the loop makes at most [itnlim - itn] passes. *)
Lemma passes_length (fuel : nat) (fr : frame F) (s : locals F) :
  (List.length (passes roots_quadratic A fuel fr s)
   <= Z.to_nat (fr_itnlim fr - itn s))%nat.
Proof.
  revert s. induction fuel as [ | fuel IH]; intros s; simpl.
  - destruct ((itn s <? fr_itnlim fr) && negb (fr_x_is_zero fr)); simpl; lia.
  - destruct ((itn s <? fr_itnlim fr) && negb (fr_x_is_zero fr)) eqn:Hg;
      [ | simpl; lia].
    apply andb_prop in Hg. destruct Hg as (Hlt & _). apply Z.ltb_lt in Hlt.
    destruct (iteration roots_quadratic A fr s) as [s' | e] eqn:Hit;
      [ | simpl; lia].
    apply iteration_itn in Hit. simpl.
    destruct (0 <? istop s'); simpl; [lia | ].
    specialize (IH s'). lia.
Qed.

End Loop.

(** ** Initialisation and the whole call *)

Section Calls.
Context {F : Type} {FO : FloatOps F}.
Variable roots_quadratic : num F -> num F -> num F -> result (list (num F)).
Variable A : LinearOperator F.

(** What lines 125-181 leave behind when they raise nothing. *)
Lemma initialise_start (a : args F) (fr : frame F) (s0 : locals F) :
  initialise A a = Ok (fr, s0) ->
  itn s0 = 0 /\ istop s0 = 0 /\ tr_active s0 = false
  /\ fr_itnlim fr = effective_itnlim A a
  /\ fr_ctol fr = zero
  /\ fr_x_is_zero fr = eq0 (mul (alfa s0) (beta s0))
  /\ arnorm s0 = mul (alfa s0) (beta s0)
  /\ x s0 = repeat f0 (snd (shape A))
  /\ wantvar a = false.
Proof.
  unfold initialise, effective_itnlim. destruct (shape A) as [m n]. intros H.
  inv_bind H. inv_bind H. inv_bind H. inv_bind H. inv_bind H.
  destruct y3 as [[u1 v1] alfa1]. inv_bind H. destruct y3 as [v2 w2].
  simpl in H. injection H as <- <-. simpl.
  repeat split; try reflexivity.
  - unfold zeros in E2. injection E2 as <-. reflexivity.
  - destruct (wantvar a); [ | reflexivity].
    inv_bind E. discriminate.
Qed.

Lemma solve_fuel_Ok (fuel : nat) (a : args F) (res : LSQRFramework F) :
  solve_fuel roots_quadratic A fuel a = Some (Ok res) ->
  exists fr s0 s,
    initialise A a = Ok (fr, s0)
    /\ main_loop roots_quadratic A fuel fr s0 = Some (Ok s)
    /\ res = finish fr s.
Proof.
  unfold solve_fuel. intros H.
  destruct (initialise A a) as [[fr s0] | e]; [ | discriminate].
  destruct (main_loop roots_quadratic A fuel fr s0) as [[s | e] | ] eqn:Hloop;
    try discriminate.
  injection H as <-. exists fr, s0, s.
  split; [reflexivity | ]. split; [exact Hloop | reflexivity].
Qed.

Lemma solve_unfold (a : args F) :
  solve roots_quadratic A a
  = solve_fuel roots_quadratic A (Z.to_nat (effective_itnlim A a)) a.
Proof.
  unfold solve, effective_itnlim. destruct (shape A) as [m n]. reflexivity.
Qed.

Lemma solve_fuel_terminates (fuel : nat) (a : args F) :
  (Z.to_nat (effective_itnlim A a) <= fuel)%nat ->
  exists r, solve_fuel roots_quadratic A fuel a = Some r.
Proof.
  intros Hfuel. unfold solve_fuel.
  destruct (initialise A a) as [[fr s0] | e] eqn:Hin; [ | eexists; reflexivity].
  destruct (initialise_start _ _ _ Hin) as (Hi & _ & _ & Hlim & _).
  destruct (main_loop_terminates roots_quadratic A fuel fr s0) as (r & Hr).
  - rewrite Hlim, Hi. rewrite Z.sub_0_r. exact Hfuel.
  - rewrite Hr. destruct r; eexists; reflexivity.
Qed.

Lemma solve_fuel_more (fuel : nat) (a : args F) :
  (Z.to_nat (effective_itnlim A a) <= fuel)%nat ->
  solve_fuel roots_quadratic A fuel a = solve roots_quadratic A a.
Proof.
  intros Hfuel. rewrite solve_unfold. unfold solve_fuel.
  destruct (initialise A a) as [[fr s0] | e] eqn:Hin; [ | reflexivity].
  destruct (initialise_start _ _ _ Hin) as (Hi & _ & _ & Hlim & _).
  destruct (main_loop_terminates roots_quadratic A
              (Z.to_nat (effective_itnlim A a)) fr s0) as (r & Hr).
  - rewrite Hlim, Hi. rewrite Z.sub_0_r. apply Nat.le_refl.
  - rewrite Hr. rewrite (main_loop_more_fuel _ _ _ _ _ _ _ Hr Hfuel).
    reflexivity.
Qed.

End Calls.

(** ** The stop code of a call *)

(** (C2) When several stopping conditions hold in the same pass, the stop
    code set by lines 323-332 is the code of the last satisfied test in the
    fixed evaluation order 7, 6, 5, 4 (the machine-precision guards), then
    3, 2, 1 (the user tolerances): a later assignment overwrites an earlier
    one, and the code is left as it was when no test holds.  A call that
    returns after a full last pass returns that code, computed from the
    quantities of lines 308-315 on the values it returns. *)
Theorem stop_tests_last_satisfied :
  (forall (F : Type) (FO : FloatOps F) (itn itnlim : Z) (t : @tests F)
          (ctol atol : num F) (istop0 : Z),
      stop_tests itn itnlim t.(test1) t.(test2) t.(test3) t.(t1')
                 ctol atol t.(rtol) istop0
      = last_satisfied (evaluation_order itn itnlim t ctol atol) istop0)
  /\ (forall (F : Type) (FO : FloatOps F)
             (roots_quadratic : num F -> num F -> num F -> result (list (num F)))
             (A : LinearOperator F) (a : args F) (res : LSQRFramework F),
        solve roots_quadratic A a = Some (Ok res) ->
        0 < self_itn res ->
        self_onBoundary res = false ->
        exists fr s t,
          res = finish fr s
          /\ convergence_tests fr s = Ok t
          /\ self_istop res
             = last_satisfied
                 (evaluation_order (self_itn res) (fr_itnlim fr) t
                    (fr_ctol fr) (fr_atol fr)) 0).
Proof.
  split.
  - intros F FO k lim t ctol atol i0. apply stop_tests_evaluation_order.
  - intros F FO rq A a res H Hitn Hb. rewrite solve_unfold in H.
    destruct (solve_fuel_Ok _ _ _ _ _ H) as (fr & s0 & s & Hin & Hloop & ->).
    destruct (initialise_start _ _ _ _ Hin) as (Hi & Hs & Ht & _).
    simpl in Hitn, Hb.
    destruct (main_loop_result _ _ _ _ _ _ Hs Ht Hloop)
      as [(-> & _) | (sp & Hit & Hsp0 & Hspt & _)]; [lia | ].
    destruct (iteration_cases _ _ _ _ _ Hit Hspt)
      as (_ & [(Hb' & _) | (_ & t & Hct & Hst)]); [congruence | ].
    exists fr, s, t. split; [reflexivity | ]. split; [exact Hct | ].
    simpl. rewrite Hst, Hsp0. apply stop_tests_evaluation_order.
Qed.

(** The identity with right-hand side (3, 4): the call returns after one
    full pass, in which the tests of codes 4 and 1 both hold, with code 1. *)
Lemma stop_tests_last_satisfied_witness :
  exists res fr s t,
    solve roots_quadratic_model (identity 2) (defaults [3; 4]%float)
      = Some (Ok res)
    /\ res = finish fr s
    /\ convergence_tests fr s = Ok t
    /\ self_istop res
       = last_satisfied
           (evaluation_order (self_itn res) (fr_itnlim fr) t
              (fr_ctol fr) (fr_atol fr)) 0.
Proof.
  assert (exists res,
             solve roots_quadratic_model (identity 2) (defaults [3; 4]%float)
               = Some (Ok res)
             /\ 0 < self_itn res /\ self_onBoundary res = false)
    as (res & H1 & H2 & H3).
  { eexists. split; [vm_compute; reflexivity | ]. split; reflexivity. }
  destruct (proj2 stop_tests_last_satisfied float Binary64 roots_quadratic_model
              (identity 2) (defaults [3; 4]%float) res H1 H2 H3)
    as (fr & s & t & He & Hc & Hst).
  exists res, fr, s, t. repeat split; assumption.
Defined.

(** ** Termination and the iteration limit *)

(** (C9) [solve] always terminates: with [itnlim] passes of fuel (3n when
    [itnlim = 0] is passed) the loop is never cut, and more fuel changes
    nothing; a call that returns has made at most that many passes, and
    however the call ends the log of its passes is no longer than that;
    and when the pass that reaches the limit is a full step in which no
    other test holds, the stop code returned is 7. *)
Theorem solve_terminates_within_itnlim :
  forall (F : Type) (FO : FloatOps F)
         (roots_quadratic : num F -> num F -> num F -> result (list (num F)))
         (A : LinearOperator F) (a : args F),
    (exists r, solve roots_quadratic A a = Some r)
    /\ (forall fuel, (Z.to_nat (effective_itnlim A a) <= fuel)%nat ->
                     solve_fuel roots_quadratic A fuel a = solve roots_quadratic A a)
    /\ (forall res, solve roots_quadratic A a = Some (Ok res) ->
                    0 <= self_itn res <= Z.max 0 (effective_itnlim A a))
    /\ (forall fr s0 fuel,
          initialise A a = Ok (fr, s0) ->
          (List.length (passes roots_quadratic A fuel fr s0)
           <= Z.to_nat (effective_itnlim A a))%nat)
    /\ (forall fr s0 s t,
          initialise A a = Ok (fr, s0) ->
          main_loop roots_quadratic A (Z.to_nat (effective_itnlim A a)) fr s0
            = Some (Ok s) ->
          0 < effective_itnlim A a ->
          itn s = effective_itnlim A a ->
          tr_active s = false ->
          convergence_tests fr s = Ok t ->
          other_test_fires t (fr_ctol fr) (fr_atol fr) = false ->
          solve roots_quadratic A a = Some (Ok (finish fr s))
          /\ self_istop (finish fr s) = 7).
Proof.
  intros F FO rq A a. split; [ | split; [ | split; [ | split]]].
  - rewrite solve_unfold. apply solve_fuel_terminates. apply Nat.le_refl.
  - intros fuel Hfuel. apply solve_fuel_more. exact Hfuel.
  - intros res H. rewrite solve_unfold in H.
    destruct (solve_fuel_Ok _ _ _ _ _ H) as (fr & s0 & s & Hin & Hloop & ->).
    destruct (initialise_start _ _ _ _ Hin) as (Hi & Hs & Ht & Hlim & _).
    simpl.
    destruct (main_loop_result _ _ _ _ _ _ Hs Ht Hloop)
      as [(-> & _) | (sp & Hit & _ & _ & Hsp & _)].
    + lia.
    + apply iteration_itn in Hit. lia.
  - intros fr s0 fuel Hin.
    destruct (initialise_start _ _ _ _ Hin) as (Hi & _ & _ & Hlim & _).
    pose proof (passes_length rq A fuel fr s0) as Hlen.
    rewrite Hlim, Hi, Z.sub_0_r in Hlen. exact Hlen.
  - intros fr s0 s t Hin Hloop Hpos Hitn Hact Hct Hno.
    split.
    + rewrite solve_unfold. unfold solve_fuel. rewrite Hin, Hloop. reflexivity.
    + destruct (initialise_start _ _ _ _ Hin) as (Hi & Hs & Ht & Hlim & _).
      simpl.
      destruct (main_loop_result _ _ _ _ _ _ Hs Ht Hloop)
        as [(-> & _) | (sp & Hit & Hsp0 & Hspt & _)].
      * lia.
      * destruct (iteration_cases _ _ _ _ _ Hit Hspt)
          as (_ & [(Hb & _) | (_ & t' & Hct' & Hst)]); [congruence | ].
        rewrite Hct in Hct'. injection Hct' as <-.
        rewrite Hst. apply stop_tests_limit_only; [lia | exact Hno].
Qed.

(** On diag(1, 2) with right-hand side (1, 1) and [itnlim = 1] the single
    pass meets no other test, and the call returns with code 7. *)
Lemma solve_terminates_within_itnlim_witness :
  exists res,
    solve roots_quadratic_model diag2 (with_itnlim 1 (defaults [1; 1]%float))
      = Some (Ok res)
    /\ self_itn res = 1 /\ self_istop res = 7.
Proof.
  destruct (solve_terminates_within_itnlim float Binary64 roots_quadratic_model
              diag2 (with_itnlim 1 (defaults [1; 1]%float)))
    as (_ & _ & _ & _ & H).
  edestruct H as (Hsolve & Hstop);
    [ lazy; reflexivity | lazy; reflexivity | reflexivity | reflexivity
    | reflexivity | lazy; reflexivity | reflexivity | ].
  eexists. split; [exact Hsolve | ]. split; [reflexivity | exact Hstop].
Defined.

(** ** The variance vector *)

(** (C10) Every call with [wantvar = True] fails during initialisation,
    before the first pass: [zeros(n, 1)] passes 1 as the dtype and raises
    [TypeError], whatever the operator, the right-hand side and the fuel,
    so neither a solution nor a variance estimate is returned. *)
Theorem wantvar_raises_TypeError :
  forall (F : Type) (FO : FloatOps F)
         (roots_quadratic : num F -> num F -> num F -> result (list (num F)))
         (A : LinearOperator F) (a : args F),
    wantvar a = true ->
    initialise A a = Raise TypeError
    /\ (forall fuel, solve_fuel roots_quadratic A fuel a = Some (Raise TypeError))
    /\ solve roots_quadratic A a = Some (Raise TypeError).
Proof.
  intros F FO rq A a Hw.
  assert (Hin : initialise A a = Raise TypeError).
  { unfold initialise. destruct (shape A) as [m n]. rewrite Hw. reflexivity. }
  split; [exact Hin | ]. split.
  - intros fuel. unfold solve_fuel. rewrite Hin. reflexivity.
  - rewrite solve_unfold. unfold solve_fuel. rewrite Hin. reflexivity.
Qed.

Lemma wantvar_raises_TypeError_witness :
  solve roots_quadratic_model diag2 (with_wantvar (defaults [1; 1]%float))
  = Some (Raise TypeError).
Proof.
  exact (proj2 (proj2 (wantvar_raises_TypeError float Binary64
                         roots_quadratic_model diag2
                         (with_wantvar (defaults [1; 1]%float)) eq_refl))).
Defined.

(** ** The trivial solution *)

Section ZeroBinary64.

Lemma sumsq_zeros (k : nat) : sumsq (repeat PrimFloat.zero k) = PrimFloat.zero.
Proof.
  unfold sumsq. induction k as [ | k IH]; simpl; [reflexivity | exact IH].
Qed.

Lemma firstn_repeat_zero (m k : nat) :
  firstn m (repeat PrimFloat.zero k) = repeat PrimFloat.zero (Nat.min m k).
Proof.
  revert k. induction m as [ | m IH]; intros [ | k]; simpl; try reflexivity.
  rewrite IH. reflexivity.
Qed.

(** A positive binary64 number is not equal to zero. *)
Lemma positive_not_zero (c : float) :
  PrimFloat.ltb PrimFloat.zero c = true -> PrimFloat.eqb c PrimFloat.zero = false.
Proof.
  rewrite ltb_spec, eqb_spec.
  change (Prim2SF PrimFloat.zero) with (S754_zero false).
  destruct (Prim2SF c) as [sg | sg | | sg mt ex]; simpl; try reflexivity.
  - discriminate.
  - destruct sg; reflexivity.
  - destruct sg; reflexivity.
Qed.

Lemma self_ctol_defined (c : float) :
  exists o,
    (if gt (PyFloat c) zero
     then r <- div one (PyFloat c) ;; Ok (Some r)
     else Ok None) = Ok o.
Proof.
  destruct (gt (PyFloat c) zero) eqn:Hg; [ | eexists; reflexivity].
  unfold gt in Hg. simpl in Hg. unfold div. simpl.
  rewrite (positive_not_zero c Hg). simpl. eexists. reflexivity.
Qed.

End ZeroBinary64.

Section Trivial.
Context {F : Type} {FO : FloatOps F}.
Variable roots_quadratic : num F -> num F -> num F -> result (list (num F)).
Variable A : LinearOperator F.

(** When [arnorm == 0.0] after the initialisation, the guard of the loop is
    false at once and the initial state is what [solve] stores. *)
Lemma zero_arnorm_skips_loop (a : args F) (fr : frame F) (s0 : locals F) :
  initialise A a = Ok (fr, s0) ->
  eq0 (mul (alfa s0) (beta s0)) = true ->
  (forall fuel, main_loop roots_quadratic A fuel fr s0 = Some (Ok s0))
  /\ solve roots_quadratic A a = Some (Ok (finish fr s0))
  /\ self_x (finish fr s0) = repeat f0 (snd (shape A))
  /\ self_istop (finish fr s0) = 0
  /\ self_itn (finish fr s0) = 0.
Proof.
  intros Hin Hz.
  destruct (initialise_start _ _ _ _ Hin) as (Hi & Hs & _ & _ & _ & Hx0 & _ & Hx & _).
  rewrite Hz in Hx0.
  assert (Hloop : forall fuel, main_loop roots_quadratic A fuel fr s0 = Some (Ok s0)).
  { intros [ | fuel]; simpl; rewrite Hx0, andb_false_r; reflexivity. }
  split; [exact Hloop | ]. split.
  - rewrite solve_unfold. unfold solve_fuel. rewrite Hin, Hloop. reflexivity.
  - simpl. repeat split; assumption.
Qed.

End Trivial.

(** On binary64, the initialisation of a zero right-hand side. *)
Lemma initialise_zero_rhs (A : LinearOperator float) (a : args float) (k : nat) :
  rhs a = repeat PrimFloat.zero k ->
  wantvar a = false ->
  (exists d2, sq (PyFloat (damp a)) = Ok d2) ->
  exists fr s0,
    initialise A a = Ok (fr, s0) /\ eq0 (mul (alfa s0) (beta s0)) = true.
Proof.
  intros Hrhs Hw (d2 & Hd2).
  unfold initialise. destruct (shape A) as [m n].
  destruct (self_ctol_defined (conlim a)) as (o & Ho).
  rewrite Hrhs, Hw, Hd2, Ho.
  rewrite firstn_repeat_zero. unfold norm. rewrite sumsq_zeros.
  simpl. eexists. eexists. split; reflexivity.
Qed.

(** (C5) Whenever the initial product [arnorm = alfa*beta] is exactly zero,
    the main loop is never entered (its guard is false even with no fuel)
    and [solve] returns the zero vector of length [n] with stop code 0 and no
    pass made.  In particular, on binary64, a zero right-hand side gives this
    result for every operator, provided the call reaches that point
    ([wantvar] is off and [damp**2] does not overflow). *)
Theorem zero_arnorm_returns_zero :
  (forall (F : Type) (FO : FloatOps F)
          (roots_quadratic : num F -> num F -> num F -> result (list (num F)))
          (A : LinearOperator F) (a : args F) (fr : frame F) (s0 : locals F),
      initialise A a = Ok (fr, s0) ->
      eq0 (mul (alfa s0) (beta s0)) = true ->
      main_loop roots_quadratic A 0 fr s0 = Some (Ok s0)
      /\ solve roots_quadratic A a = Some (Ok (finish fr s0))
      /\ self_x (finish fr s0) = repeat f0 (snd (shape A))
      /\ self_istop (finish fr s0) = 0
      /\ self_itn (finish fr s0) = 0)
  /\ (forall (roots_quadratic : num float -> num float -> num float
                                -> result (list (num float)))
             (A : LinearOperator float) (a : args float) (k : nat),
        rhs a = repeat PrimFloat.zero k ->
        wantvar a = false ->
        (exists d2, sq (PyFloat (damp a)) = Ok d2) ->
        exists res,
          solve roots_quadratic A a = Some (Ok res)
          /\ self_x res = repeat PrimFloat.zero (snd (shape A))
          /\ self_istop res = 0
          /\ self_itn res = 0).
Proof.
  split.
  - intros F FO rq A a fr s0 Hin Hz.
    destruct (zero_arnorm_skips_loop rq A a fr s0 Hin Hz) as (Hloop & Hrest).
    split; [apply Hloop | exact Hrest].
  - intros rq A a k Hrhs Hw Hd.
    destruct (initialise_zero_rhs A a k Hrhs Hw Hd) as (fr & s0 & Hin & Hz).
    destruct (zero_arnorm_skips_loop rq A a fr s0 Hin Hz) as (_ & Hsolve & Hrest).
    exists (finish fr s0). split; [exact Hsolve | exact Hrest].
Qed.

(** The zero right-hand side of length 3 on diag(1, 10, 100). *)
Lemma zero_arnorm_returns_zero_witness :
  exists res,
    solve roots_quadratic_model diag3 (defaults [0; 0; 0]%float) = Some (Ok res)
    /\ self_x res = [0; 0; 0]%float
    /\ self_istop res = 0
    /\ self_itn res = 0.
Proof.
  apply (proj2 zero_arnorm_returns_zero roots_quadratic_model diag3
           (defaults [0; 0; 0]%float) 3%nat).
  - reflexivity.
  - reflexivity.
  - eexists. reflexivity.
Defined.

(** ** The condition-number test *)

(** (C1) [conlim] has no effect on the stopping tests.  Line 138 stores [1.0/conlim] in the
    attribute [self.ctol], while the test of line 330 reads the local
    [ctol], which line 137 set to [0.0] and nothing changes: whatever
    [conlim] is, code 3 is tied to [test3 <= 0.0].  On diag(1, 10, 100)
    with right-hand side (1, 1, 1) and [conlim = 5], the second pass ends
    with [test3 <= 1/conlim] while tests 1 and 2 do not hold, yet the stop
    code stays 0, and the call returns after a third pass with code 1. *)
Theorem conlim_is_ignored :
  (forall (F : Type) (FO : FloatOps F) (A : LinearOperator F) (a : args F)
          (fr : frame F) (s0 : locals F),
      initialise A a = Ok (fr, s0) -> fr_ctol fr = zero)
  /\ (exists fr s0 s1 s2 t c res,
        let a := with_conlim 5 (defaults [1; 1; 1]%float) in
        initialise diag3 a = Ok (fr, s0)
        /\ iteration roots_quadratic_model diag3 fr s0 = Ok s1
        /\ iteration roots_quadratic_model diag3 fr s1 = Ok s2
        /\ convergence_tests fr s2 = Ok t
        /\ fr_self_ctol fr = Some c
        /\ div one (PyFloat (conlim a)) = Ok c
        /\ le (test3 t) c = true
        /\ le (test2 t) (fr_atol fr) = false
        /\ le (test1 t) (rtol t) = false
        /\ istop s2 = 0
        /\ solve roots_quadratic_model diag3 a = Some (Ok res)
        /\ self_itn res = 3
        /\ self_istop res = 1).
Proof.
  split.
  - intros F FO A a fr s0 Hin.
    destruct (initialise_start A a fr s0 Hin) as (_ & _ & _ & _ & Hc & _).
    exact Hc.
  - do 7 eexists. cbv zeta.
    split; [lazy; reflexivity | ].
    split; [lazy; reflexivity | ].
    split; [lazy; reflexivity | ].
    split; [lazy; reflexivity | ].
    split; [lazy; reflexivity | ].
    split; [lazy; reflexivity | ].
    split; [vm_compute; reflexivity | ].
    split; [vm_compute; reflexivity | ].
    split; [vm_compute; reflexivity | ].
    split; [reflexivity | ].
    split; [vm_compute; reflexivity | ].
    split; reflexivity.
Qed.

(** ** The trust-region boundary *)

Section Boundary.
Context {F : Type} {FO : FloatOps F}.
Variable roots_quadratic : num F -> num F -> num F -> result (list (num F)).
Variable A : LinearOperator F.

Lemma py_max_In (l : list (num F)) (m : num F) : py_max l = Ok m -> In m l.
Proof.
  destruct l as [ | a l]; simpl; [discriminate | ].
  intros H. injection H as <-.
  revert a. induction l as [ | b l IH]; intros a; simpl.
  - left. reflexivity.
  - destruct (IH (if gt b a then b else a)) as [<- | Hin].
    + destruct (gt b a); [right; left | left]; reflexivity.
    + right. right. exact Hin.
Qed.

(** The boundary step of lines 253-258: the step length is the absolute
    value of a root that has the sign of [t1]. *)
Lemma trust_region_boundary_step (rad : num F) (s s' : locals F) (r : rotation) :
  trust_region roots_quadratic rad s r = Ok s' ->
  tr_active s = false ->
  tr_active s' = true ->
  exists w0 xw ww roots rt,
    w s = Some w0
    /\ dot (x s) w0 = Ok xw
    /\ dot w0 w0 = Ok ww
    /\ roots_quadratic ww (mul two xw)
         (sub (mul (xnorm s) (xnorm s)) (mul rad rad)) = Ok roots
    /\ In rt roots
    /\ gt (mul rt r.(t1)) zero = true
    /\ gt (abs r.(t1)) (abs (abs rt)) = true
    /\ inplace2 f_add (x s) (scale (abs rt) w0) = Ok (x s').
Proof.
  unfold trust_region. intros H Hs Hs'.
  inv_bind H. inv_bind H. inv_bind H. inv_bind H. inv_bind H.
  destruct (gt (abs (t1 r)) (abs y3)) eqn:Hgt.
  - inv_bind H. inv_bind H. injection H as <-. simpl.
    apply py_max_In in E3. apply in_map_iff in E3.
    destruct E3 as (rt & <- & Hrt). apply filter_In in Hrt.
    destruct Hrt as (Hin & Hsign).
    exists y, y0, y1, y2, rt.
    repeat split; try assumption.
    destruct (w s); simpl in E; [injection E as ->; reflexivity | discriminate].
  - injection H as <-. congruence.
Qed.

(** A pass that takes the boundary step ends with code 8 and the boundary
    flag set, reports [xnorm = radius], and leaves what only the full step
    and the stopping tests assign as it was. *)
Lemma boundary_pass (fr : frame F) (s s' : locals F) :
  iteration roots_quadratic A fr s = Ok s' ->
  tr_active s = false ->
  tr_active s' = true ->
  istop s' = 8
  /\ fr_radius fr = Some (xnorm s')
  /\ w s' = w s /\ ddnorm s' = ddnorm s
  /\ acond s' = acond s /\ rnorm s' = rnorm s.
Proof.
  unfold iteration. intros H Hact Hact'.
  inv_bind H. inv_bind H. inv_bind H.
  destruct (bidiag_frame _ _ _ _ E)
    as (_ & _ & Ht & _ & Hw & _ & _ & Hdd & Hac & Hrn).
  simpl in Ht, Hw, Hdd, Hac, Hrn.
  destruct (negb (tr_active y1)) eqn:Hn.
  - destruct (full_step_stop_code _ _ _ _ H) as (_ & Ht' & _).
    apply negb_true_iff in Hn. congruence.
  - injection H as <-. apply negb_false_iff in Hn.
    destruct (fr_radius fr) as [rad | ].
    + destruct (trust_region_cases _ _ _ _ _ E1)
        as [-> | (_ & H8 & _ & Hx & Hw' & Hdd' & Hac' & Hrn' & _)].
      * simpl in Hn. congruence.
      * simpl in Hw', Hdd', Hac', Hrn'.
        repeat split; congruence.
    + injection E1 as <-. simpl in Hn. congruence.
Qed.

(** Once a pass has set a positive stop code, the loop returns its state. *)
Lemma main_loop_breaks (fuel : nat) (fr : frame F) (s s' : locals F) :
  (itn s <? fr_itnlim fr) && negb (fr_x_is_zero fr) = true ->
  iteration roots_quadratic A fr s = Ok s' ->
  0 < istop s' ->
  main_loop roots_quadratic A (S fuel) fr s = Some (Ok s').
Proof.
  intros Hg Hit Hpos. simpl. rewrite Hg, Hit.
  apply Z.ltb_lt in Hpos. rewrite Hpos. reflexivity.
Qed.

End Boundary.

(** (C3) The boundary step and the norm of the returned [x].  A pass in which
    [|t1| > |stepMax|] does take the step [x += stepMax*w], sets the
    boundary flag and code 8, reports [xnorm = radius] and ends the loop
    without the full step ([boundary_pass], [main_loop_breaks]).  But line
    251 takes [stepMax] as the absolute value of the root that has the sign
    of [t1], so when [t1 < 0] (as in every even pass while [alfa] and [beta]
    stay positive) the step goes along [+w]
    instead of [-w] and [x] does not land on the boundary.  On diag(1, 2)
    with right-hand side (1, 1) and [radius = 1] the boundary is met in the
    second pass: the call returns code 8 and [xnorm = 1], and the [x] it
    returns has norm below 0.75. *)
Theorem boundary_step_drops_sign :
  (forall (F : Type) (FO : FloatOps F)
          (roots_quadratic : num F -> num F -> num F -> result (list (num F)))
          (rad : num F) (s s' : locals F) (r : @rotation F),
      trust_region roots_quadratic rad s r = Ok s' ->
      tr_active s = false ->
      tr_active s' = true ->
      exists w0 rt,
        w s = Some w0
        /\ gt (mul rt r.(t1)) zero = true
        /\ inplace2 f_add (x s) (scale (abs rt) w0) = Ok (x s')
        /\ xnorm s' = rad /\ istop s' = 8)
  /\ (exists res,
        solve roots_quadratic_model diag2 (with_radius 1 (defaults [1; 1]%float))
          = Some (Ok res)
        /\ self_itn res = 2
        /\ self_istop res = 8
        /\ self_onBoundary res = true
        /\ self_xnorm res = PyFloat 1%float
        /\ lt (norm (self_x res)) (PyFloat 0.75%float) = true).
Proof.
  split.
  - intros F FO rq rad s s' r H Hs Hs'.
    destruct (trust_region_boundary_step rq rad s s' r H Hs Hs')
      as (w0 & xw & ww & roots & rt & Hw & _ & _ & _ & _ & Hsign & _ & Hx).
    destruct (trust_region_cases rq rad s s' r H)
      as [-> | (_ & H8 & _ & Hxn & _)]; [congruence | ].
    exists w0, rt. repeat split; assumption.
  - eexists. split; [vm_compute; reflexivity | ].
    repeat split; vm_compute; reflexivity.
Qed.

(** ** Shapes and the length of the right-hand side *)

(** [solve] makes no check of its own.  With a right-hand side of length 1
    and an operator that declares the shape (3, 3) (twice the identity,
    matrix-free), nothing is raised: the single entry is broadcast over
    [x], one pass is made and the call returns with code 1. *)
Lemma short_rhs_is_accepted :
  exists res,
    (List.length [1%float] < fst (shape (scaling 3 3 2%float)))%nat
    /\ solve roots_quadratic_model (scaling 3 3 2%float) (defaults [1%float])
       = Some (Ok res)
    /\ self_itn res = 1
    /\ self_istop res = 1
    /\ self_x res = [0.5; 0.5; 0.5]%float.
Proof.
  eexists. split; [simpl; lia | ].
  split; [vm_compute; reflexivity | ].
  repeat split; reflexivity.
Qed.

(** (C4, amended) [solve] checks neither the shape of the operator nor
    the length of [rhs], which it cuts to its first [m] entries.  On
    binary64, for a call that gets past the allocation of [var] and
    [damp**2], the initialisation raises exactly when [rhs[:m]] has a
    positive norm and the operator's own transposed product raises on the
    normalised [rhs[:m]]; the exception is then the operator's, raised
    before the loop.  Otherwise the loop is reached as for any other
    input. *)
Theorem initialise_raises_only_through_operator :
  forall (A : LinearOperator float) (a : args float) (e : exn) (d2 : num float),
    wantvar a = false ->
    sq (PyFloat (damp a)) = Ok d2 ->
    let u0 := firstn (fst (shape A)) (rhs a) in
    initialise A a = Raise e
    <-> (gt (norm u0) zero = true /\ AT_mul A (idiv u0 (norm u0)) = Raise e).
Proof.
  intros A a e d2 Hw Hd u0. subst u0.
  destruct (self_ctol_defined (conlim a)) as (c & Hc).
  unfold initialise. destruct (shape A) as [m n]. simpl fst.
  rewrite Hw, Hd, Hc. cbn [bind zeros].
  destruct (gt (norm (firstn m (rhs a))) zero) eqn:Hg.
  - destruct (AT_mul A (idiv (firstn m (rhs a)) (norm (firstn m (rhs a)))))
      as [v0 | e'] eqn:HAT; cbn [bind].
    + split.
      * destruct (gt (norm v0) zero); cbn [bind unbound]; discriminate.
      * intros (_ & H). discriminate.
    + split.
      * intros H. injection H as <-. split; reflexivity.
      * intros (_ & H). injection H as <-. reflexivity.
  - split.
    + cbn. discriminate.
    + intros (H & _). discriminate.
Qed.

(** A matrix does reject a short right-hand side: the product of the
    transpose of diag(1, 2) with a vector of length 1 raises [ValueError]. *)
Lemma initialise_raises_only_through_operator_witness :
  initialise diag2 (defaults [1%float]) = Raise ValueError.
Proof.
  apply (initialise_raises_only_through_operator diag2 (defaults [1%float])
           ValueError (PyFloat 0%float)).
  - reflexivity.
  - reflexivity.
  - split; reflexivity.
Defined.

(** ** Degenerate bidiagonalization steps *)




(** ** Values of the tagged scalars *)

Section Values.
Context {F : Type} {FO : FloatOps F}.

Lemma val_lift2 (op : F -> F -> F) (a b : num F) :
  val (lift2 op a b) = op (val a) (val b).
Proof. destruct a, b; reflexivity. Qed.

Lemma val_lift1 (op : F -> F) (a : num F) : val (lift1 op a) = op (val a).
Proof. destruct a; reflexivity. Qed.

Lemma val_add (a b : num F) : val (add a b) = f_add (val a) (val b).
Proof. apply val_lift2. Qed.

Lemma val_sub (a b : num F) : val (sub a b) = f_sub (val a) (val b).
Proof. apply val_lift2. Qed.

Lemma val_mul (a b : num F) : val (mul a b) = f_mul (val a) (val b).
Proof. apply val_lift2. Qed.

Lemma val_neg (a : num F) : val (neg a) = f_neg (val a).
Proof. apply val_lift1. Qed.

Lemma val_abs (a : num F) : val (abs a) = f_abs (val a).
Proof. apply val_lift1. Qed.

Lemma sq_val (a y : num F) : sq a = Ok y -> val y = f_mul (val a) (val a).
Proof.
  destruct a as [a0 | a0]; simpl.
  - destruct (f_isfinite a0 && negb (f_isfinite (f_mul a0 a0))); [discriminate | ].
    intros H. injection H as <-. reflexivity.
  - intros H. injection H as <-. reflexivity.
Qed.

Lemma sqrt_val (a y : num F) :
  sqrt a = Ok y -> y = PyFloat (f_sqrt (val a)) /\ f_ltb (val a) f0 = false.
Proof.
  unfold sqrt. destruct (f_ltb (val a) f0); [discriminate | ].
  intros H. injection H as <-. split; reflexivity.
Qed.

Lemma div_val (a b y : num F) : div a b = Ok y -> val y = f_div (val a) (val b).
Proof.
  destruct a as [a0 | a0], b as [b0 | b0]; simpl;
    try (intros H; injection H as <-; reflexivity).
  destruct (f_eqb b0 f0); [discriminate | ].
  intros H. injection H as <-. reflexivity.
Qed.

Lemma div_py_nonzero (a0 b0 : F) (y : num F) :
  div (PyFloat a0) (PyFloat b0) = Ok y -> f_eqb b0 f0 = false.
Proof.
  simpl. destruct (f_eqb b0 f0); [discriminate | reflexivity].
Qed.

Lemma normof2_val (a b y : num F) :
  normof2 a b = Ok y ->
  y = PyFloat (f_sqrt (f_add (f_mul (val a) (val a)) (f_mul (val b) (val b)))).
Proof.
  unfold normof2. intros H. inv_bind H. inv_bind H.
  apply sqrt_val in H. destruct H as (-> & _).
  rewrite val_add, (sq_val _ _ E), (sq_val _ _ E0). reflexivity.
Qed.

End Values.

(** ** Scalars the bidiagonalization and the initialisation leave alone *)

Section Scalars2.
Context {F : Type} {FO : FloatOps F}.
Variable A : LinearOperator F.

Lemma bidiag_scalars (dmp : num F) (s s' : locals F) :
  bidiag A dmp s = Ok s' ->
  phibar s' = phibar s /\ rhobar s' = rhobar s /\ res2 s' = res2 s
  /\ xxnorm s' = xxnorm s /\ r1norm s' = r1norm s.
Proof.
  unfold bidiag. intros H.
  inv_bind H. inv_bind H. inv_bind H.
  destruct (gt (norm y1) zero).
  - inv_bind H. inv_bind H. inv_bind H.
    injection H as <-. simpl. repeat split; reflexivity.
  - injection H as <-. simpl. repeat split; reflexivity.
Qed.

Lemma initialise_scalars (a : args F) (fr : frame F) (s0 : locals F) :
  initialise A a = Ok (fr, s0) ->
  fr_damp fr = PyFloat (damp a)
  /\ sq (PyFloat (damp a)) = Ok (fr_dampsq fr)
  /\ fr_radius fr = option_map PyFloat (radius a)
  /\ fr_btol fr = PyFloat (btol a) /\ fr_atol fr = PyFloat (atol a)
  /\ fr_bnorm fr = norm (firstn (fst (shape A)) (rhs a))
  /\ r1norm s0 = norm (firstn (fst (shape A)) (rhs a))
  /\ phibar s0 = norm (firstn (fst (shape A)) (rhs a))
  /\ res2 s0 = zero /\ xxnorm s0 = zero.
Proof.
  unfold initialise. destruct (shape A) as [m n]. intros H.
  inv_bind H. inv_bind H. inv_bind H. inv_bind H. inv_bind H.
  destruct y3 as [[u1 v1] alfa1]. inv_bind H. destruct y3 as [v2 w2].
  simpl in H. injection H as <- <-. simpl.
  repeat split; try reflexivity. exact E0.
Qed.

End Scalars2.

(** ** Exact arithmetic *)

Lemma Rltb_true (a b : R) : Rltb a b = true <-> (a < b)%R.
Proof.
  unfold Rltb. destruct (Rlt_dec a b); split; intros H;
    try reflexivity; try assumption; try discriminate; contradiction.
Qed.

Lemma Rltb_false (a b : R) : Rltb a b = false <-> (b <= a)%R.
Proof.
  unfold Rltb. destruct (Rlt_dec a b); split; intros H;
    try reflexivity; try discriminate; lra.
Qed.

Lemma Rleb_true (a b : R) : Rleb a b = true <-> (a <= b)%R.
Proof.
  unfold Rleb. destruct (Rle_dec a b); split; intros H;
    try reflexivity; try assumption; try discriminate; contradiction.
Qed.

Lemma Reqb_true (a b : R) : Reqb a b = true <-> a = b.
Proof.
  unfold Reqb. destruct (Req_dec_T a b); split; intros H;
    try reflexivity; try assumption; try discriminate; contradiction.
Qed.

Lemma Reqb_false (a b : R) : Reqb a b = false <-> a <> b.
Proof.
  unfold Reqb. destruct (Req_dec_T a b); split; intros H;
    try reflexivity; try assumption; try discriminate; contradiction.
Qed.

Lemma signed_sqrt_monotone (y1 y2 : R) :
  (y1 <= y2)%R -> (signed_sqrt y1 <= signed_sqrt y2)%R.
Proof.
  intros Hle. unfold signed_sqrt.
  destruct (Rltb y1 0) eqn:H1, (Rltb y2 0) eqn:H2.
  - apply Rltb_true in H1. apply Rltb_true in H2.
    apply Ropp_le_contravar. apply sqrt_le_1_alt.
    rewrite !Rabs_left by assumption. lra.
  - pose proof (sqrt_pos (Rabs y1)). pose proof (sqrt_pos (Rabs y2)). lra.
  - apply Rltb_false in H1. apply Rltb_true in H2. lra.
  - apply Rltb_false in H1. apply Rltb_false in H2.
    apply sqrt_le_1_alt. rewrite !Rabs_right by lra. exact Hle.
Qed.

Lemma signed_sqrt_square (b : R) : (0 <= b)%R -> signed_sqrt (b * b) = b.
Proof.
  intros Hb. unfold signed_sqrt.
  assert (H0 : (0 <= b * b)%R) by nra.
  destruct (Rltb (b * b) 0) eqn:H1.
  - apply Rltb_true in H1. lra.
  - rewrite Rabs_right by lra. apply sqrt_square. exact Hb.
Qed.

Section Exactly.
Variable pinf : R.

#[local] Instance ExactOps : FloatOps R := Exact pinf.

(** The two rotations do not raise the sum of the squares of [psi] and
    the new [phibar] above the square of the old [phibar]. *)
Lemma rotate_shrinks (d : R) (s : locals R) (r : @rotation R) :
  rotate (PyFloat d) s = Ok r ->
  (val (psi r) * val (psi r) + val (phibar_new r) * val (phibar_new r)
   <= val (phibar s) * val (phibar s))%R.
Proof.
  unfold rotate. intros H.
  inv_bind H. inv_bind H. inv_bind H. inv_bind H. inv_bind H. inv_bind H.
  inv_bind H. inv_bind H. inv_bind H. inv_bind H.
  injection H as <-. simpl.
  apply normof2_val in E. subst y.
  apply normof2_val in E2. subst y2.
  pose proof (div_py_nonzero _ _ _ E1) as Hr1.
  pose proof (div_py_nonzero _ _ _ E3) as Hrho.
  apply div_val in E0, E1, E4.
  rewrite !val_mul, E0, E1, E4.
  simpl in *.
  apply Reqb_false in Hr1. apply Reqb_false in Hrho.
  set (rb := val (rhobar s)) in *.
  set (bt := val (beta s)) in *.
  set (p := val (phibar s)) in *.
  set (R1 := R_sqrt.sqrt (rb * rb + d * d)) in *.
  set (rh := R_sqrt.sqrt (R1 * R1 + bt * bt)) in *.
  assert (HR1 : (R1 * R1 = rb * rb + d * d)%R).
  { unfold R1. apply sqrt_def. nra. }
  assert (Hrh : (rh * rh = R1 * R1 + bt * bt)%R).
  { unfold rh. apply sqrt_def. nra. }
  assert (Hcs : ((rb / R1) * (rb / R1) + (d / R1) * (d / R1) = 1)%R).
  { transitivity ((rb * rb + d * d) / (R1 * R1))%R; [field; assumption | ].
    rewrite <- HR1. field. assumption. }
  assert (Hsn : ((bt / rh) * (bt / rh) <= 1)%R).
  { replace ((bt / rh) * (bt / rh))%R with ((bt * bt) / (rh * rh))%R
      by (field; assumption).
    assert (Hpos : (0 < rh * rh)%R) by nra.
    apply (Rmult_le_reg_r (rh * rh)); [exact Hpos | ].
    replace (bt * bt / (rh * rh) * (rh * rh))%R with (bt * bt)%R
      by (field; assumption).
    nra. }
  assert (H0 : (0 <= (rb / R1) * (rb / R1))%R) by nra.
  assert (Hsn0 : (0 <= (bt / rh) * (bt / rh))%R) by nra.
  assert (Hp : (0 <= p * p)%R) by nra.
  replace (d / R1 * p * (d / R1 * p) + bt / rh * (rb / R1 * p) * (bt / rh * (rb / R1 * p)))%R
    with ((p * p) * ((d / R1) * (d / R1) + ((bt / rh) * (bt / rh)) * ((rb / R1) * (rb / R1))))%R
    by ring.
  set (c1 := (rb / R1 * (rb / R1))%R) in *.
  set (s1 := (d / R1 * (d / R1))%R) in *.
  set (s2 := (bt / rh * (bt / rh))%R) in *.
  assert (H1 : (s2 * c1 <= c1)%R) by nra.
  assert (H2 : (s1 + s2 * c1 <= 1)%R) by lra.
  rewrite <- (Rmult_1_r (p * p)) at 2.
  apply Rmult_le_compat_l; assumption.
Qed.

(** The estimate [r1norm] of a full step is the signed square root of
    [phibar^2 + res2 - dampsq*xxnorm], taken on the new values. *)
Lemma update_r1norm (fr : frame R) (s s' : locals R) (r : @rotation R) :
  update fr s r = Ok s' ->
  (0 <= val (res2 s))%R ->
  val (r1norm s')
  = signed_sqrt (val (phibar s) * val (phibar s) + val (res2 s')
                 - val (fr_dampsq fr) * val (xxnorm s'))
  /\ val (res2 s') = (val (res2 s) + val (psi r) * val (psi r))%R
  /\ (val (xxnorm s) <= val (xxnorm s'))%R
  /\ phibar s' = phibar s.
Proof.
  unfold update. intros H Hres.
  repeat (inv_bind H). injection H as <-. simpl.
  match goal with
  | H1 : sq (phibar s) = Ok ?a, H2 : sq (psi r) = Ok ?b,
    H3 : sqrt (add ?a (add (res2 s) ?b)) = Ok ?c, H4 : sq ?c = Ok ?e,
    H5 : sqrt (abs ?q) = Ok ?f |- _ =>
      apply sq_val in H1, H2, H4;
      apply sqrt_val in H3; destruct H3 as (H3 & _);
      apply sqrt_val in H5; destruct H5 as (H5 & _);
      rename H1 into Hp, H2 into Hpsi, H3 into Hrn, H4 into Hrn2, H5 into Hr1n
  end.
  subst y15. subst y17.
  simpl in Hp, Hpsi, Hrn2.
  rewrite !val_add, Hp, Hpsi in Hrn2. simpl in Hrn2.
  rewrite sqrt_def in Hrn2
    by (pose proof (Rle_0_sqr (val (phibar s)));
        pose proof (Rle_0_sqr (val (psi r))); unfold Rsqr in *; lra).
  rewrite !val_add, !val_mul, Hpsi. simpl.
  split; [ | split; [reflexivity | split; [ | reflexivity]]].
  - unfold lt, signed_sqrt. simpl.
    rewrite val_abs, val_sub, val_mul, val_add, val_mul, Hrn2. simpl.
    destruct (Rltb _ 0); reflexivity.
  - pose proof (Rle_0_sqr (val y11)). unfold Rsqr in *. lra.
Qed.

Variable roots_quadratic : num R -> num R -> num R -> result (list (num R)).
Variable A : LinearOperator R.

(** A full pass keeps [r1norm] tied to [r1sq_of] and does not raise it. *)
Lemma full_pass_r1norm (fr : frame R) (s s' : locals R) (d : R) :
  iteration roots_quadratic A fr s = Ok s' ->
  tr_active s = false ->
  tr_active s' = false ->
  fr_damp fr = PyFloat d ->
  (0 <= val (fr_dampsq fr))%R ->
  val (r1norm s) = signed_sqrt (r1sq_of fr s) ->
  (0 <= val (res2 s))%R ->
  val (r1norm s') = signed_sqrt (r1sq_of fr s')
  /\ (0 <= val (res2 s'))%R
  /\ (val (r1norm s') <= val (r1norm s))%R.
Proof.
  unfold iteration. intros H Hact Hact' Hd Hdsq Hinv Hres.
  inv_bind H. inv_bind H. inv_bind H.
  destruct (bidiag_frame _ _ _ _ E) as (_ & _ & Ht & _).
  destruct (bidiag_scalars _ _ _ _ E) as (Hp & _ & Hr2 & Hxx & Hr1).
  simpl in Ht, Hp, Hr2, Hxx, Hr1.
  rewrite Hd in E0. pose proof (rotate_shrinks _ _ _ E0) as Hrot.
  assert (Hy1 : y1 = set_bars y y0).
  { destruct (fr_radius fr) as [rad | ].
    - destruct (trust_region_cases _ _ _ _ _ E1) as [-> | (H1 & _)];
        [reflexivity | ].
      rewrite H1 in H. simpl in H. injection H as <-. congruence.
    - injection E1 as <-. reflexivity. }
  subst y1. simpl in H. rewrite Ht, Hact in H. simpl in H.
  unfold full_step in H. inv_bind H. inv_bind H. injection H as <-.
  destruct (update_r1norm _ _ _ _ E2) as (Hr1' & Hres' & Hxx' & Hp').
  { simpl. rewrite Hr2. exact Hres. }
  simpl in Hr1', Hres', Hxx', Hp'.
  rewrite Hr2 in Hres'. rewrite Hxx in Hxx'. rewrite Hp in Hrot.
  assert (Hq : r1sq_of fr (set_istop y1
                 (stop_tests (itn y1) (fr_itnlim fr) (test1 y2) (test2 y2)
                    (test3 y2) (t1' y2) (fr_ctol fr) (fr_atol fr) (rtol y2)
                    (istop y1)))
               = (val (phibar_new y0) * val (phibar_new y0) + val (res2 y1)
                  - val (fr_dampsq fr) * val (xxnorm y1))%R).
  { unfold r1sq_of. simpl. rewrite Hp'. reflexivity. }
  split; [ | split].
  - rewrite Hq. simpl. exact Hr1'.
  - simpl. rewrite Hres'.
    pose proof (Rle_0_sqr (val (psi y0))). unfold Rsqr in *. lra.
  - simpl. rewrite Hr1', Hinv. apply signed_sqrt_monotone.
    unfold r1sq_of. rewrite Hres'. nra.
Qed.

(** Along the log of a run, from any state that ties [r1norm] to
    [r1sq_of], the recorded values do not increase. *)
Lemma r1norm_log_nonincreasing (fr : frame R) (d : R) :
  fr_damp fr = PyFloat d ->
  (0 <= val (fr_dampsq fr))%R ->
  forall (fuel : nat) (s : locals R),
    tr_active s = false ->
    val (r1norm s) = signed_sqrt (r1sq_of fr s) ->
    (0 <= val (res2 s))%R ->
    nonincreasing (val (r1norm s) :: r1norm_log roots_quadratic A fuel fr s).
Proof.
  intros Hd Hdsq. unfold r1norm_log.
  induction fuel as [ | fuel IH]; intros s Hact Hinv Hres; simpl.
  - destruct ((itn s <? fr_itnlim fr) && negb (fr_x_is_zero fr)); exact I.
  - destruct ((itn s <? fr_itnlim fr) && negb (fr_x_is_zero fr)); [ | exact I].
    destruct (iteration roots_quadratic A fr s) as [s' | e] eqn:Hit; [ | exact I].
    simpl. destruct (tr_active s') eqn:Hact'.
    + simpl.
      destruct (boundary_pass _ _ _ _ _ Hit Hact Hact') as (H8 & _).
      rewrite H8. simpl. exact I.
    + simpl.
      destruct (full_pass_r1norm fr s s' d Hit Hact Hact' Hd Hdsq Hinv Hres)
        as (Hinv' & Hres' & Hle).
      split; [exact Hle | ].
      destruct (0 <? istop s').
      * simpl. exact I.
      * apply IH; assumption.
Qed.

(** *** The identity, symbolically *)

Lemma sumsq_acc (l : list R) (a : R) :
  fold_left (fun acc ai => Rplus acc (Rmult ai ai)) l a
  = (a + sumsq l)%R.
Proof.
  unfold sumsq. simpl. revert a. induction l as [ | c l IH]; intros a; simpl.
  - lra.
  - rewrite IH. rewrite (IH (0 + c * c)%R). lra.
Qed.

Lemma sumsq_cons (c : R) (l : list R) :
  sumsq (c :: l) = (c * c + sumsq l)%R.
Proof.
  unfold sumsq at 1. simpl. rewrite sumsq_acc. lra.
Qed.

Lemma sumsq_nonneg (l : list R) : (0 <= sumsq l)%R.
Proof.
  induction l as [ | c l IH].
  - unfold sumsq. simpl. lra.
  - rewrite sumsq_cons. nra.
Qed.

Lemma sumsq_scaled (l : list R) (c : R) :
  c <> 0%R ->
  sumsq (map (fun ai => (ai / c)%R) l) = (sumsq l / (c * c))%R.
Proof.
  intros Hc. induction l as [ | a l IH].
  - unfold sumsq. simpl. field. assumption.
  - simpl map. rewrite !sumsq_cons, IH. field. assumption.
Qed.

Lemma sumsq_zeros_exact (k : nat) : sumsq (repeat 0%R k) = 0%R.
Proof.
  induction k as [ | k IH].
  - reflexivity.
  - simpl repeat. rewrite sumsq_cons, IH. lra.
Qed.

Lemma sumsq_pos (l : list R) (c : R) :
  In c l -> c <> 0%R -> (0 < sumsq l)%R.
Proof.
  intros Hin Hc. induction l as [ | a l IH]; [contradiction | ].
  rewrite sumsq_cons. pose proof (sumsq_nonneg l) as Hl.
  destruct Hin as [-> | Hin].
  - assert (0 < c * c)%R by nra. lra.
  - specialize (IH Hin). nra.
Qed.

Lemma broadcast2_same (op : R -> R -> R) (l1 l2 : list R) :
  List.length l1 = List.length l2 ->
  @broadcast2 R op l1 l2 = Ok (map2 op l1 l2).
Proof.
  intros H. unfold broadcast2. rewrite H, Nat.eqb_refl. reflexivity.
Qed.

Lemma inplace2_same (op : R -> R -> R) (l1 l2 : list R) :
  List.length l1 = List.length l2 ->
  @inplace2 R op l1 l2 = Ok (map2 op l1 l2).
Proof.
  intros H. unfold inplace2. rewrite H, Nat.eqb_refl. reflexivity.
Qed.

Lemma map2_zeros_l (l : list R) (k : nat) :
  List.length l = k -> map2 Rplus (repeat 0%R k) l = l.
Proof.
  intros <-. induction l as [ | c l IH]; simpl; [reflexivity | ].
  rewrite IH, Rplus_0_l. reflexivity.
Qed.

Ltac xsimpl :=
  cbn [bind unbound normof2 normof4 sq sqrt div add sub mul neg abs lift1 lift2
       val gt le lt eq0 zero one two inf norm scale idiv imul zeros
       identity shape A_mul AT_mul
       itn istop x u v w alfa beta anorm acond arnorm rhobar phibar cs2 sn2 z
       xnorm xxnorm ddnorm res2 rnorm r1norm r2norm tr_active var
       fr_itnlim fr_damp fr_dampsq fr_atol fr_btol fr_ctol fr_self_ctol
       fr_radius fr_wantvar fr_bnorm fr_x_is_zero
       rhs itnlim damp atol btol conlim radius wantvar
       psi rho cs sn theta rhobar_new phi phibar_new tau t1 t2 dk
       test1 test2 test3 t1' rtol
       f0 f1 f2 f_inf f_add f_sub f_mul f_div f_neg f_abs f_sqrt f_eqb f_ltb
       f_leb f_isfinite ExactOps Exact andb negb fst snd option_map].

Lemma ctol_exact (c : R) :
  exists o,
    (if gt (PyFloat c) zero
     then r <- div one (PyFloat c) ;; Ok (Some r)
     else Ok None) = Ok o.
Proof.
  xsimpl. destruct (Rltb 0 c) eqn:H; [ | eexists; reflexivity].
  apply Rltb_true in H.
  rewrite (proj2 (Reqb_false c 0)) by lra. eexists. reflexivity.
Qed.

Lemma map_div_one (l : list R) : map (fun ai => (ai / 1)%R) l = l.
Proof.
  induction l as [ | c l IH]; simpl; [reflexivity | ].
  rewrite IH, Rdiv_1_r. reflexivity.
Qed.

Lemma map_mul_one (l : list R) : map (Rmult 1) l = l.
Proof.
  induction l as [ | c l IH]; simpl; [reflexivity | ].
  rewrite IH, Rmult_1_l. reflexivity.
Qed.

Lemma map2_sub_self (l : list R) :
  map2 Rminus l l = repeat 0%R (List.length l).
Proof.
  induction l as [ | c l IH]; simpl; [reflexivity | ].
  rewrite IH, Rminus_diag. reflexivity.
Qed.

Lemma map_scale_back (l : list R) (c : R) :
  c <> 0%R -> map (Rmult c) (map (fun ai => (ai / c)%R) l) = l.
Proof.
  intros Hc. induction l as [ | a l IH]; simpl; [reflexivity | ].
  rewrite IH. f_equal. field. assumption.
Qed.

Lemma map2_add_zero_l (l : list R) :
  map2 Rplus (map (fun ai => (ai * 0)%R) l) l = l.
Proof.
  induction l as [ | a l IH]; simpl; [reflexivity | ].
  rewrite IH. f_equal. ring.
Qed.

Lemma Ropp_minus_one : (- (-1) = 1)%R.
Proof. lra. Qed.

Create Rewrite HintDb exact_arith.
#[local] Hint Rewrite Rmult_0_l Rmult_0_r Rmult_1_l Rmult_1_r Rplus_0_l Rplus_0_r
  Rminus_0_r Ropp_0 Rabs_R0 sqrt_0 sqrt_1 Rdiv_0_l Rdiv_1_r Ropp_involutive
  Rminus_diag Ropp_minus_one : exact_arith.

Ltac decide_tests :=
  repeat match goal with
  | |- context [Rltb ?a ?b] =>
      first [ rewrite (proj2 (Rltb_true a b)) by nra
            | rewrite (proj2 (Rltb_false a b)) by nra ]
  | |- context [Reqb ?a ?b] =>
      first [ rewrite (proj2 (Reqb_true a b)) by lra
            | rewrite (proj2 (Reqb_false a b)) by lra ]
  end.

Ltac xs :=
  xsimpl;
  unfold norm, idiv, scale, imul, sqrt, div, sq, normof2, normof4, mul, add,
    sub, neg, abs, lift1, lift2, gt, le, lt, eq0, zero, one, two, inf;
  xsimpl.
Ltac step := xs; autorewrite with exact_arith; decide_tests; xs.
Ltac run := repeat (progress step).

Lemma initialise_identity (a : args R) (c : R) :
  In c (rhs a) -> c <> 0%R ->
  damp a = 0%R -> radius a = None -> wantvar a = false ->
  exists o,
    initialise (identity (List.length (rhs a))) a
    = Ok (identity_frame (effective_itnlim (identity (List.length (rhs a))) a)
            (atol a) (btol a) o (R_sqrt.sqrt (sumsq (rhs a))),
          identity_start (List.length (rhs a))
            (map (fun ai => (ai / R_sqrt.sqrt (sumsq (rhs a)))%R) (rhs a))
            (R_sqrt.sqrt (sumsq (rhs a)))).
Proof.
  intros Hin Hc Hd Hrad Hw.
  pose proof (sumsq_pos _ _ Hin Hc) as HS.
  destruct (ctol_exact (conlim a)) as (o & Ho). exists o.
  assert (Hb : (0 < R_sqrt.sqrt (sumsq (rhs a)))%R) by (apply sqrt_lt_R0; exact HS).
  assert (Hb2 : (R_sqrt.sqrt (sumsq (rhs a)) * R_sqrt.sqrt (sumsq (rhs a))
                 = sumsq (rhs a))%R) by (apply sqrt_def; lra).
  assert (Hub : sumsq (map (fun ai => (ai / R_sqrt.sqrt (sumsq (rhs a)))%R) (rhs a))
                = 1%R).
  { rewrite sumsq_scaled by lra. rewrite Hb2. apply Rdiv_diag. lra. }
  unfold effective_itnlim, identity_frame, identity_start, initialise.
  cbn [shape identity].
  rewrite Hw, Ho, Hd, Hrad. xs. rewrite firstn_all.
  decide_tests. xs. rewrite !Hub. step.
  rewrite map_div_one. reflexivity.
Qed.

Lemma stop_tests_test1 (k lim : Z) (a1 a2 a3 a4 ctol atol rtol : num R) (i0 : Z) :
  le a1 rtol = true ->
  stop_tests k lim a1 a2 a3 a4 ctol atol rtol i0 = 1.
Proof. intros H. unfold stop_tests. rewrite H. reflexivity. Qed.

Lemma identity_iteration (n : nat) (ub : list R) (bt tol_a tol_b : R)
      (lim : Z) (o : option (num R)) :
  (0 < bt)%R -> sumsq ub = 1%R -> List.length ub = n -> (0 <= tol_b)%R ->
  exists s',
    iteration roots_quadratic (identity n)
      (identity_frame lim tol_a tol_b o bt) (identity_start n ub bt) = Ok s'
    /\ x s' = map (Rmult bt) ub /\ istop s' = 1 /\ itn s' = 1.
Proof.
  intros Hbt Hub Hn Htol.
  unfold iteration, identity_frame, identity_start, next_itn, bidiag.
  xs. rewrite map_mul_one.
  rewrite broadcast2_same by reflexivity. xs.
  rewrite map2_sub_self, sumsq_zeros_exact. run.
  unfold rotate. run.
  unfold set_bars. run. unfold full_step, update. run.
  rewrite !inplace2_same
    by (rewrite ?repeat_length, ?length_map; congruence).
  rewrite map_mul_one, Hub, map2_add_zero_l. run.
  rewrite map2_zeros_l by (rewrite length_map; exact Hn).
  unfold convergence_tests. run.
  rewrite stop_tests_test1
    by (unfold le; xsimpl; apply Rleb_true; exact Htol).
  eexists. split; [reflexivity | ]. repeat split; reflexivity.
Qed.

Lemma identity_solve_fuel (a : args R) (c : R) (k : nat) :
  In c (rhs a) -> c <> 0%R ->
  damp a = 0%R -> radius a = None -> wantvar a = false ->
  (0 <= btol a)%R ->
  0 < effective_itnlim (identity (List.length (rhs a))) a ->
  exists res,
    solve_fuel roots_quadratic (identity (List.length (rhs a))) (S k) a
      = Some (Ok res)
    /\ self_x res = rhs a /\ self_istop res = 1 /\ self_itn res = 1.
Proof.
  intros Hin Hc Hd Hrad Hw Hbtol Hlim.
  pose proof (sumsq_pos _ _ Hin Hc) as HS.
  assert (Hb : (0 < R_sqrt.sqrt (sumsq (rhs a)))%R) by (apply sqrt_lt_R0; exact HS).
  destruct (initialise_identity a c Hin Hc Hd Hrad Hw) as (o & Hinit).
  destruct (identity_iteration (List.length (rhs a))
              (map (fun ai => (ai / R_sqrt.sqrt (sumsq (rhs a)))%R) (rhs a))
              (R_sqrt.sqrt (sumsq (rhs a))) (atol a) (btol a)
              (effective_itnlim (identity (List.length (rhs a))) a) o)
    as (s' & Hit & Hx & Hstop & Hitn).
  - exact Hb.
  - rewrite sumsq_scaled by lra. rewrite sqrt_def by lra. apply Rdiv_diag. lra.
  - apply length_map.
  - exact Hbtol.
  - unfold solve_fuel. rewrite Hinit. cbn [main_loop].
    cbn [identity_start identity_frame itn fr_itnlim fr_x_is_zero negb].
    apply Z.ltb_lt in Hlim. rewrite Hlim. cbn [andb].
    fold (identity_start (List.length (rhs a))
            (map (fun ai => (ai / R_sqrt.sqrt (sumsq (rhs a)))%R) (rhs a))
            (R_sqrt.sqrt (sumsq (rhs a)))).
    fold (identity_frame (effective_itnlim (identity (List.length (rhs a))) a)
            (atol a) (btol a) o (R_sqrt.sqrt (sumsq (rhs a)))).
    rewrite Hit, Hstop. cbn [Z.ltb Z.compare].
    eexists. split; [reflexivity | ].
    cbn [finish self_x self_istop self_itn].
    rewrite Hx, Hstop, Hitn, map_scale_back by lra.
    repeat split; reflexivity.
Qed.

End Exactly.

Lemma last_default {B : Type} (l : list B) (a d d' : B) :
  last (a :: l) d = last (a :: l) d'.
Proof.
  revert a. induction l as [ | b l IH]; intros a; [reflexivity | ].
  change (last (b :: l) d = last (b :: l) d'). apply IH.
Qed.

(** The log ends with the state the loop returns. *)
Lemma main_loop_last_pass (F : Type) (FO : FloatOps F)
      (roots_quadratic : num F -> num F -> num F -> result (list (num F)))
      (A : LinearOperator F) (fuel : nat) (fr : frame F) (s s' : locals F) :
  main_loop roots_quadratic A fuel fr s = Some (Ok s') ->
  last (passes roots_quadratic A fuel fr s) s = s'.
Proof.
  revert s. induction fuel as [ | fuel IH]; intros s H; simpl in *.
  - destruct ((itn s <? fr_itnlim fr) && negb (fr_x_is_zero fr));
      [discriminate | ]. injection H as <-. reflexivity.
  - destruct ((itn s <? fr_itnlim fr) && negb (fr_x_is_zero fr)).
    + destruct (iteration roots_quadratic A fr s) as [s1 | e]; [ | discriminate].
      destruct (0 <? istop s1).
      * injection H as <-. reflexivity.
      * specialize (IH s1 H).
        destruct (passes roots_quadratic A fuel fr s1) as [ | s2 l] eqn:Hp.
        -- simpl in *. exact IH.
        -- rewrite <- IH. apply (last_default l s2 s s1).
    + injection H as <-. reflexivity.
Qed.

(** ** Monotonicity of the residual estimate *)

Lemma nonincreasing_tail (a : R) (l : list R) :
  nonincreasing (a :: l) -> nonincreasing l.
Proof.
  destruct l as [ | b l]; simpl; [intros _; exact I | intros [_ H]; exact H].
Qed.

(** On the reals the check of an instrumented run succeeds on a list that
    does not increase. *)
Lemma nonincreasingb_exact (pinf : R) (l : list R) :
  nonincreasing l -> @nonincreasingb R (Exact pinf) l = true.
Proof.
  induction l as [ | a l IH]; [reflexivity | ].
  destruct l as [ | b l]; [reflexivity | ].
  intros [Hle Hrest].
  change (Rleb b a && @nonincreasingb R (Exact pinf) (b :: l) = true).
  apply andb_true_intro. split.
  - apply Rleb_true. exact Hle.
  - apply IH. exact Hrest.
Qed.




(** ** The identity operator *)




(** On binary64 the same run, with right-hand side (3, 4) and the default
    tolerances: one pass, [x = (3, 4)] and stop code 1. *)
Example identity_binary64 :
  exists res,
    solve roots_quadratic_model (identity 2) (defaults [3; 4]%float)
      = Some (Ok res)
    /\ self_x res = [3; 4]%float /\ self_istop res = 1 /\ self_itn res = 1.
Proof.
  eexists. split; [vm_compute; reflexivity | ]. repeat split; reflexivity.
Qed.

(* ================================================================== *)
(** * Further properties *)
(* ================================================================== *)

(** ** The result of a call *)

Section Returned.
Context {F : Type} {FO : FloatOps F}.
Variable roots_quadratic : num F -> num F -> num F -> result (list (num F)).
Variable A : LinearOperator F.

(** How a call that returns got its result: either no pass was made, or the
    last pass ended with the boundary step, or it ended with a full step
    and a positive stop code between 1 and 7. *)
Lemma solve_returns (a : args F) (res : LSQRFramework F) :
  solve roots_quadratic A a = Some (Ok res) ->
  exists fr s0 s,
    initialise A a = Ok (fr, s0)
    /\ main_loop roots_quadratic A (Z.to_nat (effective_itnlim A a)) fr s0
       = Some (Ok s)
    /\ res = finish fr s
    /\ ((s = s0
         /\ (itn s0 <? fr_itnlim fr) && negb (fr_x_is_zero fr) = false)
        \/ (0 < itn s /\ 0 < fr_itnlim fr /\ fr_x_is_zero fr = false
            /\ ((tr_active s = true /\ istop s = 8 /\ fr_radius fr <> None
                 /\ fr_radius fr = Some (xnorm s))
                \/ (tr_active s = false /\ 1 <= istop s <= 7)))).
Proof.
  intros H. rewrite solve_unfold in H.
  destruct (solve_fuel_Ok _ _ _ _ _ H) as (fr & s0 & s & Hin & Hloop & ->).
  destruct (initialise_start _ _ _ _ Hin) as (Hi & Hs & Ht & _).
  exists fr, s0, s. split; [exact Hin | ]. split; [exact Hloop | ].
  split; [reflexivity | ].
  destruct (main_loop_result _ _ _ _ _ _ Hs Ht Hloop)
    as [(-> & Hg) | (sp & Hit & Hsp0 & Hspt & Hrange & Hxz & Hend)].
  - left. split; [reflexivity | exact Hg].
  - right.
    destruct (iteration_cases _ _ _ _ _ Hit Hspt)
      as (Hitn & [(Hb & H8 & Hrad) | (Hb & t & Hct & Hst)]).
    + split; [lia | ]. split; [lia | ]. split; [exact Hxz | ]. left.
      destruct (boundary_pass _ _ _ _ _ Hit Hspt Hb) as (_ & Hx & _).
      repeat split; assumption.
    + split; [lia | ]. split; [lia | ]. split; [exact Hxz | ].
      right. split; [exact Hb | ].
      rewrite Hsp0 in Hst.
      destruct Hend as [Hpos | (H0 & Hlim)].
      * destruct (stop_tests_range (itn s) (fr_itnlim fr) (test1 t) (test2 t)
                    (test3 t) (t1' t) (fr_ctol fr) (fr_atol fr) (rtol t) 0)
          as [H0 | H17]; lia.
      * pose proof (stop_tests_at_limit (itn s) (fr_itnlim fr) (test1 t)
                      (test2 t) (test3 t) (t1' t) (fr_ctol fr) (fr_atol fr)
                      (rtol t) 0 Hlim). lia.
Qed.

End Returned.

Lemma status_of_defined (k : Z) :
  0 <= k <= 8 ->
  exists st, status_of k = Some st
             /\ In st ["solution is zero"; "residual small";
                       "ill-conditioned operator"; "max iterations";
                       "trust-region boundary active"]%string.
Proof.
  intros Hk.
  assert (H : k = 0 \/ k = 1 \/ k = 2 \/ k = 3 \/ k = 4 \/ k = 5 \/ k = 6
              \/ k = 7 \/ k = 8) by lia.
  repeat (destruct H as [-> | H]); try subst k;
    (eexists; split; [reflexivity | simpl; tauto]).
Qed.

Lemma msg_defined (k : Z) :
  0 <= k <= 8 -> exists m, py_index msg k = Some m.
Proof.
  intros Hk.
  assert (H : k = 0 \/ k = 1 \/ k = 2 \/ k = 3 \/ k = 4 \/ k = 5 \/ k = 6
              \/ k = 7 \/ k = 8) by lia.
  repeat (destruct H as [-> | H]); try subst k; eexists; reflexivity.
Qed.

(** (X1) Every call that returns stores a stop code between 0 and 8: the
    lookup [self.msg[istop]] of line 361 finds one of the nine messages
    of [__init__], and lines 373-377 assign [self.status] one of their five
    strings. *)
Theorem stop_code_in_range :
  forall (F : Type) (FO : FloatOps F)
         (roots_quadratic : num F -> num F -> num F -> result (list (num F)))
         (A : LinearOperator F) (a : args F) (res : LSQRFramework F),
    solve roots_quadratic A a = Some (Ok res) ->
    0 <= self_istop res <= 8
    /\ (exists m, py_index msg (self_istop res) = Some m)
    /\ (exists st,
          self_status res = Some st
          /\ In st ["solution is zero"; "residual small";
                    "ill-conditioned operator"; "max iterations";
                    "trust-region boundary active"]%string).
Proof.
  intros F FO rq A a res H.
  destruct (solve_returns rq A a res H) as (fr & s0 & s & Hin & _ & -> & Hc).
  destruct (initialise_start _ _ _ _ Hin) as (_ & Hs & _).
  assert (Hr : 0 <= istop s <= 8).
  { destruct Hc as [(-> & _) | (_ & _ & _ & [(_ & H8 & _) | (_ & H17)])]; lia. }
  simpl. split; [exact Hr | ]. split.
  - apply msg_defined. exact Hr.
  - apply status_of_defined. exact Hr.
Qed.

(** The call on diag(1, 2) with right-hand side (1, 1). *)
Lemma stop_code_in_range_witness :
  exists res,
    solve roots_quadratic_model diag2 (defaults [1; 1]%float) = Some (Ok res)
    /\ 0 <= self_istop res <= 8
    /\ (exists m, py_index msg (self_istop res) = Some m)
    /\ (exists st,
          self_status res = Some st
          /\ In st ["solution is zero"; "residual small";
                    "ill-conditioned operator"; "max iterations";
                    "trust-region boundary active"]%string).
Proof.
  assert (exists res,
             solve roots_quadratic_model diag2 (defaults [1; 1]%float)
             = Some (Ok res)) as (res & H).
  { eexists. vm_compute. reflexivity. }
  exists res. split; [exact H | ].
  exact (stop_code_in_range float Binary64 roots_quadratic_model diag2
           (defaults [1; 1]%float) res H).
Defined.

(** (X2) On return, [onBoundary] is [True] exactly when the stop code is
    8; this happens only with a radius and after at least one pass, and
    [xnorm] is then the radius. *)
Theorem boundary_flag_iff_code_8 :
  forall (F : Type) (FO : FloatOps F)
         (roots_quadratic : num F -> num F -> num F -> result (list (num F)))
         (A : LinearOperator F) (a : args F) (res : LSQRFramework F),
    solve roots_quadratic A a = Some (Ok res) ->
    (self_onBoundary res = true <-> self_istop res = 8)
    /\ (self_istop res = 8 ->
        0 < self_itn res
        /\ exists rad, radius a = Some rad /\ self_xnorm res = PyFloat rad).
Proof.
  intros F FO rq A a res H.
  destruct (solve_returns rq A a res H) as (fr & s0 & s & Hin & _ & -> & Hc).
  destruct (initialise_start _ _ _ _ Hin) as (_ & Hs & Ht & _).
  destruct (initialise_scalars _ _ _ _ Hin) as (_ & _ & Hrad & _).
  simpl.
  destruct Hc as [(-> & _) | (Hitn & _ & _ & [(Hb & H8 & _ & Hx) | (Hb & H17)])].
  - split; [split; intros; [congruence | lia] | intros; lia].
  - split; [split; intros; assumption | ].
    intros _. split; [exact Hitn | ].
    rewrite Hrad in Hx. destruct (radius a) as [rad | ]; [ | discriminate].
    exists rad. split; [reflexivity | ]. simpl in Hx. congruence.
  - split; [split; intros; [congruence | lia] | intros; lia].
Qed.

(** The call on diag(1, 2) with right-hand side (1, 1) and radius 1. *)
Lemma boundary_flag_iff_code_8_witness :
  exists res,
    solve roots_quadratic_model diag2 (with_radius 1 (defaults [1; 1]%float))
      = Some (Ok res)
    /\ (self_onBoundary res = true <-> self_istop res = 8)
    /\ (self_istop res = 8 ->
        0 < self_itn res
        /\ exists rad, radius (with_radius 1 (defaults [1; 1]%float)) = Some rad
                       /\ self_xnorm res = PyFloat rad).
Proof.
  assert (exists res,
             solve roots_quadratic_model diag2
               (with_radius 1 (defaults [1; 1]%float)) = Some (Ok res))
    as (res & H).
  { eexists. vm_compute. reflexivity. }
  exists res. split; [exact H | ].
  exact (boundary_flag_iff_code_8 float Binary64 roots_quadratic_model diag2
           (with_radius 1 (defaults [1; 1]%float)) res H).
Defined.

Lemma initialise_estimates {F : Type} {FO : FloatOps F} (A : LinearOperator F)
      (a : args F) (fr : frame F) (s0 : locals F) :
  initialise A a = Ok (fr, s0) ->
  anorm s0 = zero /\ acond s0 = zero /\ xnorm s0 = zero /\ var s0 = None.
Proof.
  unfold initialise. destruct (shape A) as [m n]. intros H.
  inv_bind H. inv_bind H. inv_bind H. inv_bind H. inv_bind H.
  destruct y3 as [[u1 v1] alfa1]. inv_bind H. destruct y3 as [v2 w2].
  simpl in H. injection H as <- <-. simpl.
  repeat split; try reflexivity.
  destruct (wantvar a); [inv_bind E; discriminate | ].
  injection E as <-. reflexivity.
Qed.

(** (X3) On return the stop code is 0 exactly when no pass was made, that
    is when the iteration limit in force is not positive or the initial
    [arnorm] is zero.  The call then returns the zero vector of length [n],
    the status 'solution is zero' and zero estimates, whatever the
    right-hand side is. *)
Theorem code_0_iff_no_pass :
  forall (F : Type) (FO : FloatOps F)
         (roots_quadratic : num F -> num F -> num F -> result (list (num F)))
         (A : LinearOperator F) (a : args F) (res : LSQRFramework F),
    solve roots_quadratic A a = Some (Ok res) ->
    (self_istop res = 0 <-> self_itn res = 0)
    /\ (exists fr s0,
          initialise A a = Ok (fr, s0)
          /\ (self_itn res = 0 <->
               (effective_itnlim A a <= 0 \/ eq0 (arnorm s0) = true)))
    /\ (self_itn res = 0 ->
        self_x res = repeat f0 (snd (shape A))
        /\ self_status res = Some "solution is zero"%string
        /\ self_xnorm res = zero /\ self_anorm res = zero
        /\ self_acond res = zero).
Proof.
  intros F FO rq A a res H.
  destruct (solve_returns rq A a res H) as (fr & s0 & s & Hin & _ & -> & Hc).
  destruct (initialise_start _ _ _ _ Hin)
    as (Hi & Hs & Ht & Hlim & _ & Hxz & Har & Hx & _).
  destruct (initialise_estimates _ _ _ _ Hin) as (Han & Hac & Hxn & _).
  simpl.
  destruct Hc as [(-> & Hg) | (Hitn & Hpos & Hz & Hc)].
  - split; [split; intros; assumption | ].
    split.
    + exists fr, s0. split; [exact Hin | ]. split; [ | intros; exact Hi].
      intros _. rewrite Hi in Hg. rewrite Har, <- Hxz, <- Hlim.
      destruct (fr_x_is_zero fr); [right; reflexivity | left].
      simpl in Hg. rewrite andb_true_r in Hg. apply Z.ltb_ge in Hg. exact Hg.
    + intros _. rewrite Hs. repeat split; assumption.
  - assert (Hst : 1 <= istop s <= 8).
    { destruct Hc as [(_ & H8 & _) | (_ & H17)]; lia. }
    split; [split; intros; lia | ].
    split; [ | intros; lia].
    exists fr, s0. split; [exact Hin | ]. split; [intros; lia | ].
    rewrite Har, <- Hxz, <- Hlim. intros [Hl | Hx0]; [lia | congruence].
Qed.

(** With a negative iteration limit the call makes no pass and reports that
    the solution is zero, here for diag(1, 2) and the right-hand side
    (1, 1). *)
Lemma code_0_iff_no_pass_witness :
  exists res,
    solve roots_quadratic_model diag2 (with_itnlim (-1) (defaults [1; 1]%float))
      = Some (Ok res)
    /\ self_istop res = 0
    /\ self_x res = [0; 0]%float
    /\ self_status res = Some "solution is zero"%string.
Proof.
  assert (exists res,
             solve roots_quadratic_model diag2
               (with_itnlim (-1) (defaults [1; 1]%float)) = Some (Ok res)
             /\ self_itn res = 0)
    as (res & H & H0).
  { eexists. split; [vm_compute; reflexivity | reflexivity]. }
  destruct (code_0_iff_no_pass float Binary64 roots_quadratic_model diag2
              (with_itnlim (-1) (defaults [1; 1]%float)) res H)
    as (Hiff & _ & Hrest).
  destruct (Hrest H0) as (Hx & Hst & _).
  exists res. split; [exact H | ]. split; [apply Hiff; exact H0 | ].
  split; [exact Hx | exact Hst].
Defined.

(** ** What the loop keeps *)

Section Invariants.
Context {F : Type} {FO : FloatOps F}.
Variable roots_quadratic : num F -> num F -> num F -> result (list (num F)).
Variable A : LinearOperator F.

(** What every pass keeps, the loop keeps. *)
Lemma main_loop_invariant (P : locals F -> Prop) (fr : frame F) :
  (forall s s', P s -> iteration roots_quadratic A fr s = Ok s' -> P s') ->
  forall (fuel : nat) (s s' : locals F),
    P s -> main_loop roots_quadratic A fuel fr s = Some (Ok s') -> P s'.
Proof.
  intros Hstep. induction fuel as [ | fuel IH]; intros s s' HP H; simpl in H.
  - destruct ((itn s <? fr_itnlim fr) && negb (fr_x_is_zero fr));
      [discriminate | ]. injection H as <-. exact HP.
  - destruct ((itn s <? fr_itnlim fr) && negb (fr_x_is_zero fr)).
    + destruct (iteration roots_quadratic A fr s) as [s1 | e] eqn:Hit;
        [ | discriminate].
      pose proof (Hstep s s1 HP Hit) as HP1.
      destruct (0 <? istop s1).
      * injection H as <-. exact HP1.
      * exact (IH s1 s' HP1 H).
    + injection H as <-. exact HP.
Qed.

Lemma map2_length (op : F -> F -> F) (a b : list F) :
  List.length a = List.length b -> List.length (map2 op a b) = List.length a.
Proof.
  revert b. induction a as [ | a0 a IH]; intros [ | b0 b] H; simpl in *;
    try reflexivity; try discriminate.
  f_equal. apply IH. lia.
Qed.

(** [a op= b] keeps the shape of [a]. *)
Lemma inplace2_length (op : F -> F -> F) (a b c : list F) :
  inplace2 op a b = Ok c -> List.length c = List.length a.
Proof.
  unfold inplace2. destruct (Nat.eqb (List.length a) (List.length b)) eqn:He.
  - intros H. injection H as <-. apply map2_length.
    apply Nat.eqb_eq. exact He.
  - destruct b as [ | b0 [ | b1 b]]; try discriminate.
    intros H. injection H as <-. apply length_map.
Qed.

Lemma update_x (fr : frame F) (s s' : locals F) (r : rotation) :
  update fr s r = Ok s' ->
  exists w0, w s = Some w0
             /\ inplace2 f_add (x s) (scale r.(t1) w0) = Ok (x s').
Proof.
  unfold update. intros H.
  inv_bind H. inv_bind H.
  assert (Hx : inplace2 f_add (x s) (scale (t1 r) y) = Ok y0) by exact E0.
  repeat (inv_bind H). injection H as <-. simpl.
  exists y. split; [ | exact Hx].
  destruct (w s); simpl in E; [injection E as ->; reflexivity | discriminate].
Qed.

(** A pass changes [x] only by [x += step * w], which keeps its length. *)
Lemma iteration_x_length (fr : frame F) (s s' : locals F) :
  iteration roots_quadratic A fr s = Ok s' ->
  List.length (x s') = List.length (x s).
Proof.
  unfold iteration. intros H.
  inv_bind H. inv_bind H. inv_bind H.
  destruct (bidiag_frame _ _ _ _ E) as (_ & _ & _ & Hx & _). simpl in Hx.
  assert (Hy1 : List.length (x y1) = List.length (x s)).
  { destruct (fr_radius fr) as [rad | ].
    - destruct (trust_region_cases _ _ _ _ _ E1)
        as [-> | (_ & _ & _ & _ & _ & _ & _ & _ & w0 & sm & _ & _ & Hin)].
      + simpl. congruence.
      + apply inplace2_length in Hin. simpl in Hin. congruence.
    - injection E1 as <-. simpl. congruence. }
  destruct (negb (tr_active y1)).
  - unfold full_step in H. inv_bind H. inv_bind H. injection H as <-. simpl.
    destruct (update_x _ _ _ _ E2) as (w0 & _ & Hin).
    apply inplace2_length in Hin. congruence.
  - injection H as <-. exact Hy1.
Qed.

(** Without a radius the quadratic is never solved. *)
Lemma main_loop_no_radius
      (roots_quadratic' : num F -> num F -> num F -> result (list (num F)))
      (fuel : nat) (fr : frame F) (s : locals F) :
  fr_radius fr = None ->
  main_loop roots_quadratic' A fuel fr s = main_loop roots_quadratic A fuel fr s.
Proof.
  intros Hrad. revert s. induction fuel as [ | fuel IH]; intros s; simpl.
  - reflexivity.
  - unfold iteration. rewrite Hrad.
    destruct ((itn s <? fr_itnlim fr) && negb (fr_x_is_zero fr)); [ | reflexivity].
    destruct (x0 <- bidiag A (fr_damp fr) (next_itn s);;
              r <- rotate (fr_damp fr) x0;;
              s3 <- Ok (set_bars x0 r);;
              (if negb (tr_active s3) then full_step fr s3 r else Ok s3))
      as [s1 | e]; [ | reflexivity].
    destruct (0 <? istop s1); [reflexivity | apply IH].
Qed.

End Invariants.

(** (X4) The [x] a call returns has length [n], for every operator and
    right-hand side: the updates [x += step*w] keep the shape of
    [zeros(n)]. *)
Theorem returned_x_has_length_n :
  forall (F : Type) (FO : FloatOps F)
         (roots_quadratic : num F -> num F -> num F -> result (list (num F)))
         (A : LinearOperator F) (a : args F) (res : LSQRFramework F),
    solve roots_quadratic A a = Some (Ok res) ->
    List.length (self_x res) = snd (shape A).
Proof.
  intros F FO rq A a res H. rewrite solve_unfold in H.
  destruct (solve_fuel_Ok _ _ _ _ _ H) as (fr & s0 & s & Hin & Hloop & ->).
  destruct (initialise_start _ _ _ _ Hin) as (_ & _ & _ & _ & _ & _ & _ & Hx & _).
  simpl.
  apply (main_loop_invariant rq A
           (fun s => List.length (x s) = snd (shape A)) fr) with (3 := Hloop).
  - intros s1 s2 H1 Hit. rewrite (iteration_x_length rq A fr s1 s2 Hit). exact H1.
  - rewrite Hx. apply repeat_length.
Qed.

(** A right-hand side of length 1 with an operator of shape (3, 3): the
    call returns an [x] of length 3. *)
Lemma returned_x_has_length_n_witness :
  exists res,
    solve roots_quadratic_model (scaling 3 3 2%float) (defaults [1%float])
      = Some (Ok res)
    /\ List.length (self_x res) = 3%nat.
Proof.
  assert (exists res,
             solve roots_quadratic_model (scaling 3 3 2%float)
               (defaults [1%float]) = Some (Ok res)) as (res & H).
  { eexists. vm_compute. reflexivity. }
  exists res. split; [exact H | ].
  exact (returned_x_has_length_n float Binary64 roots_quadratic_model
           (scaling 3 3 2%float) (defaults [1%float]) res H).
Defined.

(** (X5) When [radius] is [None] the quadratic is never solved: the
    result of the call is the same for every [roots_quadratic], the
    boundary flag is off and the stop code is not 8. *)
Theorem no_radius_no_quadratic :
  forall (F : Type) (FO : FloatOps F)
         (rq1 rq2 : num F -> num F -> num F -> result (list (num F)))
         (A : LinearOperator F) (a : args F),
    radius a = None ->
    solve rq1 A a = solve rq2 A a
    /\ (forall res, solve rq1 A a = Some (Ok res) ->
                    self_onBoundary res = false /\ self_istop res <> 8).
Proof.
  intros F FO rq1 rq2 A a Hrad. split.
  - rewrite !solve_unfold. unfold solve_fuel.
    destruct (initialise A a) as [[fr s0] | e] eqn:Hin; [ | reflexivity].
    destruct (initialise_scalars _ _ _ _ Hin) as (_ & _ & Hr & _).
    rewrite Hrad in Hr. simpl in Hr.
    rewrite (main_loop_no_radius rq2 A rq1 _ fr s0 Hr). reflexivity.
  - intros res H.
    destruct (solve_returns rq1 A a res H) as (fr & s0 & s & Hin & _ & -> & Hc).
    destruct (initialise_start _ _ _ _ Hin) as (_ & Hs & Ht & _).
    destruct (initialise_scalars _ _ _ _ Hin) as (_ & _ & Hr & _).
    rewrite Hrad in Hr. simpl in Hr. simpl.
    destruct Hc as [(-> & _) | (_ & _ & _ & [(_ & _ & Hn & _) | (Hb & H17)])].
    + split; [exact Ht | lia].
    + contradiction.
    + split; [exact Hb | lia].
Qed.

(** The call on diag(1, 2) with a [roots_quadratic] that always raises. *)
Lemma no_radius_no_quadratic_witness :
  solve (fun _ _ _ => Raise ValueError) diag2 (defaults [1; 1]%float)
  = solve roots_quadratic_model diag2 (defaults [1; 1]%float).
Proof.
  exact (proj1 (no_radius_no_quadratic float Binary64
                  (fun _ _ _ => Raise ValueError) roots_quadratic_model
                  diag2 (defaults [1; 1]%float) eq_refl)).
Defined.

(** ** Binary64: signs, NaN and negation *)

Section Binary64Facts.

Lemma ltb_zero_spec (x : float) :
  PrimFloat.ltb x PrimFloat.zero = negb (sf_not_negative (Prim2SF x)).
Proof.
  rewrite ltb_spec. change (Prim2SF PrimFloat.zero) with (S754_zero false).
  destruct (Prim2SF x) as [s | s | | s m e]; try destruct s; reflexivity.
Qed.

Lemma round_aux_not_negative (m e : Z) (l : location) :
  sf_not_negative (binary_round_aux prec emax false m e l) = true.
Proof.
  unfold binary_round_aux.
  destruct (shr_fexp prec emax m e l) as [mrs e1].
  destruct (shr_fexp prec emax _ e1 loc_Exact) as [mrs' e2].
  destruct (shr_m mrs'); [reflexivity | | reflexivity].
  destruct (e2 <=? emax - prec)%Z; reflexivity.
Qed.

Lemma round_aux_opp (s : bool) (m e : Z) (l : location) :
  SFopp (binary_round_aux prec emax s m e l)
  = binary_round_aux prec emax (negb s) m e l.
Proof.
  unfold binary_round_aux.
  destruct (shr_fexp prec emax m e l) as [mrs e1].
  destruct (shr_fexp prec emax _ e1 loc_Exact) as [mrs' e2].
  destruct (shr_m mrs'); [reflexivity | | reflexivity].
  destruct (e2 <=? emax - prec)%Z; reflexivity.
Qed.

(** [a * a] is never below zero. *)
Lemma mul_self_not_negative (a : float) : PrimFloat.ltb (a * a) PrimFloat.zero = false.
Proof.
  rewrite ltb_zero_spec, mul_spec. apply negb_false_iff.
  unfold SF64mul.
  destruct (Prim2SF a) as [s | s | | s m e]; simpl;
    try reflexivity; try (destruct s; reflexivity).
  replace (xorb s s) with false by (destruct s; reflexivity).
  apply round_aux_not_negative.
Qed.

(** The sum of two numbers that are not below zero is not below zero. *)
Lemma add_not_negative (a b : float) :
  PrimFloat.ltb a PrimFloat.zero = false ->
  PrimFloat.ltb b PrimFloat.zero = false ->
  PrimFloat.ltb (a + b) PrimFloat.zero = false.
Proof.
  rewrite !ltb_zero_spec, add_spec. intros Ha Hb.
  apply negb_false_iff in Ha, Hb. apply negb_false_iff.
  unfold SF64add.
  destruct (Prim2SF a) as [sa | sa | | sa ma ea];
    destruct (Prim2SF b) as [sb | sb | | sb mb eb];
    try destruct sa; try destruct sb; simpl in *; try reflexivity;
    try discriminate.
  unfold binary_normalize, binary_round.
  destruct (shl_align _ _ _) as [mz ez].
  apply round_aux_not_negative.
Qed.

Lemma sqrt_not_negative (a : float) : PrimFloat.ltb (PrimFloat.sqrt a) PrimFloat.zero = false.
Proof.
  rewrite ltb_zero_spec, sqrt_spec. apply negb_false_iff.
  unfold SF64sqrt, SFsqrt.
  destruct (Prim2SF a) as [s | s | | s m e]; try destruct s; try reflexivity.
  destruct (SFsqrt_core_binary prec emax (Z.pos m) e) as [[mz ez] lz].
  apply round_aux_not_negative.
Qed.

Lemma abs_not_negative (a : float) : PrimFloat.ltb (PrimFloat.abs a) PrimFloat.zero = false.
Proof.
  rewrite ltb_zero_spec, abs_spec. apply negb_false_iff.
  destruct (Prim2SF a) as [s | s | | s m e]; reflexivity.
Qed.

Lemma zero_not_negative : PrimFloat.ltb PrimFloat.zero PrimFloat.zero = false.
Proof. reflexivity. Qed.

Lemma not_negative_add (a b : num float) :
  not_negative a -> not_negative b -> not_negative (add a b).
Proof.
  unfold not_negative. rewrite val_add. apply add_not_negative.
Qed.

Lemma not_negative_mul_self (a : num float) : not_negative (mul a a).
Proof.
  unfold not_negative. rewrite val_mul. apply mul_self_not_negative.
Qed.

Lemma not_negative_abs (a : num float) : not_negative (abs a).
Proof.
  unfold not_negative. rewrite val_abs. apply abs_not_negative.
Qed.

Lemma not_negative_zero : not_negative zero.
Proof. reflexivity. Qed.

End Binary64Facts.

Section Binary64Negation.

Lemma mul_opp_opp (a : float) : (- a * - a = a * a)%float.
Proof.
  apply Prim2SF_inj. rewrite !mul_spec, !opp_spec. unfold SF64mul.
  destruct (Prim2SF a) as [s | s | | s m e]; simpl; try reflexivity;
    destruct s; reflexivity.
Qed.

Lemma mul_opp_l (a b : float) : (- a * b = - (a * b))%float.
Proof.
  apply Prim2SF_inj. rewrite opp_spec, !mul_spec, opp_spec. unfold SF64mul.
  destruct (Prim2SF a) as [sa | sa | | sa ma ea];
    destruct (Prim2SF b) as [sb | sb | | sb mb eb]; simpl; try reflexivity;
    try (destruct sa, sb; reflexivity).
  rewrite round_aux_opp. destruct sa, sb; reflexivity.
Qed.

Lemma div_opp_l (a b : float) : (- a / b = - (a / b))%float.
Proof.
  apply Prim2SF_inj. rewrite opp_spec, !div_spec, opp_spec. unfold SF64div.
  destruct (Prim2SF a) as [sa | sa | | sa ma ea];
    destruct (Prim2SF b) as [sb | sb | | sb mb eb]; simpl; try reflexivity;
    try (destruct sa, sb; reflexivity).
  destruct (SFdiv_core_binary prec emax (Z.pos ma) ea (Z.pos mb) eb)
    as [[mz ez] lz].
  rewrite round_aux_opp. destruct sa, sb; reflexivity.
Qed.

Lemma eqb_opp_opp (a : float) : PrimFloat.eqb (- a) (- a) = PrimFloat.eqb a a.
Proof.
  rewrite !eqb_spec, opp_spec. unfold SFeqb.
  destruct (Prim2SF a) as [s | s | | s m e]; simpl; try reflexivity;
    destruct s; try reflexivity; simpl;
    rewrite Z.compare_refl, ?Pos.compare_cont_refl; reflexivity.
Qed.

Lemma abs_opp (a : float) : PrimFloat.abs (- a) = PrimFloat.abs a.
Proof.
  apply Prim2SF_inj. rewrite !abs_spec, opp_spec.
  destruct (Prim2SF a) as [s | s | | s m e]; reflexivity.
Qed.

Lemma is_finite_opp (a : float) : PrimFloat.is_finite (- a) = PrimFloat.is_finite a.
Proof.
  unfold PrimFloat.is_finite, PrimFloat.is_nan, PrimFloat.is_infinity.
  rewrite eqb_opp_opp, abs_opp. reflexivity.
Qed.

End Binary64Negation.

(** ** Binary64: NaN *)

Section Binary64NaN.

Lemma eqb_refl_not_nan (x : float) :
  Prim2SF x <> S754_nan -> PrimFloat.eqb x x = true.
Proof.
  rewrite eqb_spec. unfold SFeqb.
  destruct (Prim2SF x) as [s | s | | s m e]; intros H; simpl;
    try reflexivity; try (destruct s; reflexivity); try contradiction.
  destruct s; rewrite Z.compare_refl, Pos.compare_cont_refl; reflexivity.
Qed.

Lemma is_nan_spec (x : float) :
  PrimFloat.is_nan x = true <-> Prim2SF x = S754_nan.
Proof.
  unfold PrimFloat.is_nan. split.
  - intros H. apply negb_true_iff in H.
    destruct (Prim2SF x) as [s | s | | s m e] eqn:Hx; try reflexivity;
      rewrite eqb_refl_not_nan in H by (rewrite Hx; discriminate);
      discriminate.
  - intros H. rewrite eqb_spec, H. reflexivity.
Qed.

Lemma add_nan_l (a b : float) :
  Prim2SF a = S754_nan -> Prim2SF (a + b) = S754_nan.
Proof. intros H. rewrite add_spec, H. reflexivity. Qed.

Lemma add_nan_r (a b : float) :
  Prim2SF b = S754_nan -> Prim2SF (a + b) = S754_nan.
Proof.
  intros H. rewrite add_spec, H. unfold SF64add.
  destruct (Prim2SF a); reflexivity.
Qed.

Lemma mul_nan_r (a b : float) :
  Prim2SF b = S754_nan -> Prim2SF (a * b) = S754_nan.
Proof.
  intros H. rewrite mul_spec, H. unfold SF64mul.
  destruct (Prim2SF a); reflexivity.
Qed.

Lemma sumsq_nan_acc (l : list float) (acc : float) :
  Prim2SF acc = S754_nan ->
  Prim2SF (fold_left (fun acc ai => acc + ai * ai)%float l acc) = S754_nan.
Proof.
  revert acc. induction l as [ | c l IH]; intros acc H; simpl; [exact H | ].
  apply IH. apply add_nan_l. exact H.
Qed.

Lemma sumsq_nan_from (l : list float) (acc c : float) :
  In c l -> Prim2SF c = S754_nan ->
  Prim2SF (fold_left (fun acc ai => acc + ai * ai)%float l acc) = S754_nan.
Proof.
  revert acc. induction l as [ | c0 l IH]; intros acc Hin Hc; [contradiction | ].
  simpl. destruct Hin as [-> | Hin].
  - apply sumsq_nan_acc. apply add_nan_r. apply mul_nan_r. exact Hc.
  - apply IH; assumption.
Qed.

(** The sum of the squares of a vector that holds a NaN is a NaN. *)
Lemma sumsq_nan (l : list float) (c : float) :
  In c l -> Prim2SF c = S754_nan -> Prim2SF (sumsq l) = S754_nan.
Proof. intros Hin Hc. unfold sumsq. apply (sumsq_nan_from l _ c Hin Hc). Qed.

Lemma norm_nan (l : list float) (c : float) :
  In c l -> Prim2SF c = S754_nan ->
  exists b, norm l = NpFloat64 b /\ Prim2SF b = S754_nan.
Proof.
  intros Hin Hc. unfold norm. eexists. split; [reflexivity | ].
  simpl. rewrite sqrt_spec, (sumsq_nan l c Hin Hc). reflexivity.
Qed.

End Binary64NaN.

(** ** Binary64: [normof2] and [normof4] *)

Lemma normof4_val {F : Type} {FO : FloatOps F} (a b c d y : num F) :
  normof4 a b c d = Ok y ->
  y = PyFloat (f_sqrt (f_add (f_add (f_add (f_mul (val a) (val a))
                                            (f_mul (val b) (val b)))
                                     (f_mul (val c) (val c)))
                              (f_mul (val d) (val d)))).
Proof.
  unfold normof4. intros H. inv_bind H. inv_bind H. inv_bind H. inv_bind H.
  apply sqrt_val in H. destruct H as (-> & _).
  rewrite !val_add, (sq_val _ _ E), (sq_val _ _ E0), (sq_val _ _ E1),
    (sq_val _ _ E2). reflexivity.
Qed.

Lemma sq_raises_OverflowError {F : Type} {FO : FloatOps F} (a : num F) (e : exn) :
  sq a = Raise e -> e = OverflowError.
Proof.
  destruct a as [a0 | a0]; simpl; [ | discriminate].
  destruct (f_isfinite a0 && negb (f_isfinite (f_mul a0 a0)));
    [ | discriminate].
  intros H. injection H as <-. reflexivity.
Qed.

Lemma sq_not_negative (a y : num float) : sq a = Ok y -> not_negative y.
Proof.
  intros H. unfold not_negative. rewrite (sq_val _ _ H).
  apply mul_self_not_negative.
Qed.

Lemma sqrt_defined (a : num float) :
  not_negative a -> sqrt a = Ok (PyFloat (PrimFloat.sqrt (val a))).
Proof. unfold sqrt, not_negative. simpl. intros ->. reflexivity. Qed.

(** (X6) On binary64, [normof2] and [normof4] return the Python float
    [sqrt] of the sum of the squares, which is not below zero: [math.sqrt]
    never raises in them, and their only exception is the [OverflowError]
    of the square of a Python float.  On numpy scalars they always
    return. *)
Theorem normof_raise_only_OverflowError :
  (forall x y : num float,
      match normof2 x y with
      | Ok r =>
          r = PyFloat (PrimFloat.sqrt (val x * val x + val y * val y))
          /\ PrimFloat.ltb (val r) 0 = false
      | Raise e =>
          e = OverflowError
          /\ (sq x = Raise OverflowError \/ sq y = Raise OverflowError)
      end)
  /\ (forall x1 x2 x3 x4 : num float,
        match normof4 x1 x2 x3 x4 with
        | Ok r =>
            r = PyFloat (PrimFloat.sqrt (val x1 * val x1 + val x2 * val x2
                                         + val x3 * val x3 + val x4 * val x4))
            /\ PrimFloat.ltb (val r) 0 = false
        | Raise e =>
            e = OverflowError
            /\ (sq x1 = Raise OverflowError \/ sq x2 = Raise OverflowError
                \/ sq x3 = Raise OverflowError \/ sq x4 = Raise OverflowError)
        end)
  /\ (forall a b : float,
        normof2 (NpFloat64 a) (NpFloat64 b)
        = Ok (PyFloat (PrimFloat.sqrt (a * a + b * b))))
  /\ (forall a b c d : float,
        normof4 (NpFloat64 a) (NpFloat64 b) (NpFloat64 c) (NpFloat64 d)
        = Ok (PyFloat (PrimFloat.sqrt (a * a + b * b + c * c + d * d)))).
Proof.
  split; [ | split; [ | split]].
  - intros x y. destruct (normof2 x y) as [r | e] eqn:H.
    + apply normof2_val in H. subst r.
      split; [reflexivity | apply sqrt_not_negative].
    + unfold normof2 in H.
      destruct (sq x) as [x2 | ex] eqn:Hx;
        [ | simpl in H; injection H as <-;
            rewrite (sq_raises_OverflowError x ex Hx); auto].
      destruct (sq y) as [y2 | ey] eqn:Hy;
        [ | simpl in H; injection H as <-;
            rewrite (sq_raises_OverflowError y ey Hy); auto].
      simpl in H.
      rewrite sqrt_defined in H by
        (apply not_negative_add; eapply sq_not_negative; eassumption).
      discriminate.
  - intros x1 x2 x3 x4. destruct (normof4 x1 x2 x3 x4) as [r | e] eqn:H.
    + apply normof4_val in H. subst r.
      split; [reflexivity | apply sqrt_not_negative].
    + unfold normof4 in H.
      destruct (sq x1) as [a1 | e1] eqn:H1;
        [ | simpl in H; injection H as <-;
            rewrite (sq_raises_OverflowError x1 e1 H1); auto].
      destruct (sq x2) as [a2 | e2] eqn:H2;
        [ | simpl in H; injection H as <-;
            rewrite (sq_raises_OverflowError x2 e2 H2); auto].
      destruct (sq x3) as [a3 | e3] eqn:H3;
        [ | simpl in H; injection H as <-;
            rewrite (sq_raises_OverflowError x3 e3 H3); auto].
      destruct (sq x4) as [a4 | e4] eqn:H4;
        [ | simpl in H; injection H as <-;
            rewrite (sq_raises_OverflowError x4 e4 H4); auto 6].
      simpl in H.
      rewrite sqrt_defined in H by
        (repeat apply not_negative_add; eapply sq_not_negative; eassumption).
      discriminate.
  - intros a b. unfold normof2. cbn [sq bind].
    rewrite sqrt_defined; [reflexivity | ].
    apply not_negative_add; unfold not_negative; simpl;
      apply mul_self_not_negative.
  - intros a b c d. unfold normof4. cbn [sq bind].
    rewrite sqrt_defined; [reflexivity | ].
    repeat apply not_negative_add; unfold not_negative; simpl;
      apply mul_self_not_negative.
Qed.

(** ** The sign of [damp] *)

Lemma bind_ext {A B : Type} (r : result A) (k k' : A -> result B) :
  (forall a, k a = k' a) -> bind r k = bind r k'.
Proof. intros H. destruct r; simpl; [apply H | reflexivity]. Qed.

Section DampSign.
Context {F : Type} {FO : FloatOps F}.
Hypothesis mul_neg_neg : forall a : F, f_mul (f_neg a) (f_neg a) = f_mul a a.
Hypothesis isfinite_neg : forall a : F, f_isfinite (f_neg a) = f_isfinite a.
Hypothesis div_neg_l : forall a b : F, f_div (f_neg a) b = f_neg (f_div a b).
Hypothesis mul_neg_l : forall a b : F, f_mul (f_neg a) b = f_neg (f_mul a b).
Variable roots_quadratic : num F -> num F -> num F -> result (list (num F)).
Variable A : LinearOperator F.

Lemma sq_neg (a : num F) : sq (neg a) = sq a.
Proof.
  destruct a as [a0 | a0]; simpl.
  - rewrite isfinite_neg, mul_neg_neg. reflexivity.
  - rewrite mul_neg_neg. reflexivity.
Qed.

Lemma div_neg (a b : num F) : div (neg a) b = (r <- div a b ;; Ok (neg r)).
Proof.
  destruct a as [a0 | a0], b as [b0 | b0]; simpl;
    try (rewrite div_neg_l; reflexivity).
  destruct (f_eqb b0 f0); simpl; [reflexivity | ].
  rewrite div_neg_l. reflexivity.
Qed.

Lemma mul_neg (a b : num F) : mul (neg a) b = neg (mul a b).
Proof.
  destruct a as [a0 | a0], b as [b0 | b0]; simpl; rewrite mul_neg_l; reflexivity.
Qed.

Lemma normof4_neg (x1 x2 x3 d : num F) :
  normof4 x1 x2 x3 (neg d) = normof4 x1 x2 x3 d.
Proof.
  unfold normof4. do 3 (apply bind_ext; intros).
  rewrite sq_neg. reflexivity.
Qed.

Lemma bidiag_neg (d : num F) (s : locals F) :
  bidiag A (neg d) s = bidiag A d s.
Proof.
  unfold bidiag. do 3 (apply bind_ext; intros).
  destruct (gt (norm a1) zero); [ | reflexivity].
  rewrite normof4_neg. reflexivity.
Qed.

Lemma rotate_neg (d : num F) (s : locals F) :
  rotate (neg d) s = (r <- rotate d s ;; Ok (flip_psi r)).
Proof.
  unfold rotate, normof2.
  destruct (sq (rhobar s)) as [x2 | e]; [ | reflexivity]. cbn [bind].
  rewrite sq_neg.
  destruct (sq d) as [d2 | e]; [ | reflexivity]. cbn [bind].
  destruct (sqrt (add x2 d2)) as [rhobar1 | e]; [ | reflexivity]. cbn [bind].
  destruct (div (rhobar s) rhobar1) as [cs1 | e]; [ | reflexivity]. cbn [bind].
  rewrite div_neg.
  destruct (div d rhobar1) as [sn1 | e]; [ | reflexivity]. cbn [bind].
  destruct (sq rhobar1) as [r2 | e]; [ | reflexivity]. cbn [bind].
  destruct (sq (beta s)) as [b2 | e]; [ | reflexivity]. cbn [bind].
  destruct (sqrt (add r2 b2)) as [rho | e]; [ | reflexivity]. cbn [bind].
  destruct (div rhobar1 rho) as [cs | e]; [ | reflexivity]. cbn [bind].
  destruct (div (beta s) rho) as [sn | e]; [ | reflexivity]. cbn [bind].
  destruct (div (mul cs (mul cs1 (phibar s))) rho) as [t1 | e];
    [ | reflexivity]. cbn [bind].
  destruct (div (neg (mul sn (alfa s))) rho) as [t2 | e];
    [ | reflexivity]. cbn [bind].
  destruct (div one rho) as [rinv | e]; [ | reflexivity]. cbn [bind].
  destruct (unbound (w s)) as [w0 | e]; [ | reflexivity]. cbn [bind].
  unfold flip_psi. cbn. rewrite mul_neg. reflexivity.
Qed.

Lemma update_flip (fr : frame F) (s : locals F) (r : @rotation F) :
  update (flip_damp fr) s (flip_psi r) = update fr s r.
Proof.
  unfold update. cbn [flip_psi flip_damp psi rho cs sn theta rhobar_new phi
                      phibar_new tau t1 t2 dk fr_wantvar fr_dampsq].
  do 13 (apply bind_ext; intros).
  rewrite sq_neg. reflexivity.
Qed.

Lemma iteration_neg (fr : frame F) (s : locals F) :
  iteration roots_quadratic A (flip_damp fr) s = iteration roots_quadratic A fr s.
Proof.
  unfold iteration. cbn [flip_damp fr_damp fr_radius].
  rewrite bidiag_neg. apply bind_ext. intros s1.
  rewrite rotate_neg.
  destruct (rotate (fr_damp fr) s1) as [r | e]; [ | reflexivity]. cbn [bind].
  change (set_bars s1 (flip_psi r)) with (set_bars s1 r).
  assert (Htr : forall rad s2,
             trust_region roots_quadratic rad s2 (flip_psi r)
             = trust_region roots_quadratic rad s2 r) by reflexivity.
  destruct (fr_radius fr) as [rad | ].
  - rewrite Htr. apply bind_ext. intros s3.
    destruct (negb (tr_active s3)); [ | reflexivity].
    unfold full_step. rewrite update_flip. reflexivity.
  - cbn [bind]. destruct (negb (tr_active (set_bars s1 r))); [ | reflexivity].
    unfold full_step. rewrite update_flip. reflexivity.
Qed.

Lemma main_loop_neg (fuel : nat) (fr : frame F) (s : locals F) :
  main_loop roots_quadratic A fuel (flip_damp fr) s
  = main_loop roots_quadratic A fuel fr s.
Proof.
  revert s. induction fuel as [ | fuel IH]; intros s; simpl; [reflexivity | ].
  rewrite iteration_neg.
  destruct ((itn s <? fr_itnlim fr) && negb (fr_x_is_zero fr)); [ | reflexivity].
  destruct (iteration roots_quadratic A fr s) as [s1 | e]; [ | reflexivity].
  destruct (0 <? istop s1); [reflexivity | apply IH].
Qed.

Lemma initialise_neg (a : args F) :
  initialise A (negate_damp a)
  = (p <- initialise A a ;; Ok (flip_damp (fst p), snd p)).
Proof.
  unfold initialise. destruct (shape A) as [m n].
  cbn [negate_damp rhs itnlim damp atol btol conlim radius wantvar].
  destruct (if wantvar a then r <- zeros n (DtypeInt 1) ;; Ok (Some r) else Ok None)
    as [var0 | e]; [ | reflexivity]. cbn [bind].
  change (PyFloat (f_neg (damp a))) with (neg (PyFloat (damp a))).
  rewrite sq_neg.
  destruct (sq (PyFloat (damp a))) as [d2 | e]; [ | reflexivity]. cbn [bind].
  destruct (if gt (PyFloat (conlim a)) zero
            then r <- div one (PyFloat (conlim a)) ;; Ok (Some r) else Ok None)
    as [c | e]; [ | reflexivity]. cbn [bind].
  destruct (zeros n DtypeDefault) as [x0 | e]; [ | reflexivity]. cbn [bind].
  destruct (if gt (norm (firstn m (rhs a))) zero
            then _ else _) as [[[u1 v1] alfa1] | e]; [ | reflexivity].
  cbn [bind].
  destruct (if gt alfa1 zero then _ else _) as [[v2 w2] | e]; reflexivity.
Qed.

Lemma solve_negate_damp (a : args F) :
  solve roots_quadratic A (negate_damp a) = solve roots_quadratic A a.
Proof.
  rewrite !solve_unfold. unfold solve_fuel, effective_itnlim.
  cbn [negate_damp itnlim].
  rewrite initialise_neg.
  destruct (initialise A a) as [[fr s0] | e]; [ | reflexivity].
  cbn [bind fst snd]. rewrite main_loop_neg.
  destruct (main_loop _ _ _ fr s0) as [[s | e] | ]; reflexivity.
Qed.

End DampSign.

(** (X7) On binary64 the sign of [damp] has no effect: [damp] enters
    through [damp**2] and through [psi = (damp/rhobar1)*phibar], which is
    only squared.  The call with [-damp] returns the same attributes or
    raises the same exception. *)
Theorem damp_sign_is_ignored :
  forall (roots_quadratic : num float -> num float -> num float
                            -> result (list (num float)))
         (A : LinearOperator float) (a : args float),
    solve roots_quadratic A (negate_damp a) = solve roots_quadratic A a.
Proof.
  intros rq A a.
  apply (@solve_negate_damp float Binary64 mul_opp_opp is_finite_opp
           div_opp_l mul_opp_l).
Qed.

(** ** [conlim] *)

Section Conlim.
Variable roots_quadratic : num float -> num float -> num float
                           -> result (list (num float)).
Variable A : LinearOperator float.

Lemma iteration_without_ctol (fr : frame float) (s : locals float) :
  iteration roots_quadratic A (frame_without_ctol fr) s
  = iteration roots_quadratic A fr s.
Proof. reflexivity. Qed.

Lemma main_loop_without_ctol (fuel : nat) (fr : frame float) (s : locals float) :
  main_loop roots_quadratic A fuel (frame_without_ctol fr) s
  = main_loop roots_quadratic A fuel fr s.
Proof.
  revert s. induction fuel as [ | fuel IH]; intros s; simpl; [reflexivity | ].
  rewrite iteration_without_ctol.
  destruct ((itn s <? fr_itnlim fr) && negb (fr_x_is_zero fr)); [ | reflexivity].
  destruct (iteration roots_quadratic A fr s) as [s1 | e]; [ | reflexivity].
  destruct (0 <? istop s1); [reflexivity | apply IH].
Qed.

(** The initialisation reads [conlim] only to set [self.ctol]. *)
Lemma initialise_without_ctol (c : float) (a : args float) :
  (p <- initialise A (with_conlim c a) ;; Ok (frame_without_ctol (fst p), snd p))
  = (p <- initialise A a ;; Ok (frame_without_ctol (fst p), snd p)).
Proof.
  unfold initialise. destruct (shape A) as [m n].
  cbn [with_conlim rhs itnlim damp atol btol conlim radius wantvar].
  destruct (if wantvar a then r <- zeros n (DtypeInt 1) ;; Ok (Some r) else Ok None)
    as [var0 | e]; [ | reflexivity]. cbn [bind].
  destruct (sq (PyFloat (damp a))) as [d2 | e]; [ | reflexivity]. cbn [bind].
  destruct (self_ctol_defined c) as (o1 & ->).
  destruct (self_ctol_defined (conlim a)) as (o2 & ->). cbn [bind].
  destruct (zeros n DtypeDefault) as [x0 | e]; [ | reflexivity]. cbn [bind].
  destruct (if gt (norm (firstn m (rhs a))) zero
            then _ else _) as [[[u1 v1] alfa1] | e]; [ | reflexivity].
  cbn [bind].
  destruct (if gt alfa1 zero then _ else _) as [[v2 w2] | e]; reflexivity.
Qed.

Lemma solve_with_conlim (c : float) (a : args float) :
  outcome (solve roots_quadratic A (with_conlim c a))
  = outcome (solve roots_quadratic A a).
Proof.
  rewrite !solve_unfold. unfold solve_fuel, effective_itnlim.
  cbn [with_conlim itnlim].
  pose proof (initialise_without_ctol c a) as H.
  destruct (initialise A (with_conlim c a)) as [[fr1 s1] | e1];
    destruct (initialise A a) as [[fr2 s2] | e2]; simpl in H;
    try discriminate.
  - assert (Hfr : frame_without_ctol fr1 = frame_without_ctol fr2)
      by congruence.
    assert (Hs : s1 = s2) by congruence. subst s2. clear H.
    rewrite <- (main_loop_without_ctol _ fr1), <- (main_loop_without_ctol _ fr2).
    rewrite Hfr.
    destruct (main_loop _ _ _ (frame_without_ctol fr2) s1) as [[s | e] | ];
      reflexivity.
  - injection H as <-. reflexivity.
Qed.

End Conlim.

(** (X8) On binary64, [conlim] changes nothing but the attribute
    [self.ctol]: two calls that differ only in [conlim] return the same
    [x], stop code and estimates, or raise the same exception. *)
Theorem conlim_changes_only_self_ctol :
  forall (roots_quadratic : num float -> num float -> num float
                            -> result (list (num float)))
         (A : LinearOperator float) (a : args float) (c : float),
    outcome (solve roots_quadratic A (with_conlim c a))
    = outcome (solve roots_quadratic A a).
Proof.
  intros rq A a c. apply solve_with_conlim.
Qed.

(** ** Binary64: a NaN in the right-hand side *)

(** (X9) On binary64, a NaN among the first [m] entries of the right-hand
    side makes the call raise [UnboundLocalError]: [beta] is a NaN, so [v]
    is never assigned, [arnorm] is a NaN and not [== 0.0], and the first
    pass reads [v] (line 204).  This for a call that reaches the loop:
    [wantvar] off, [damp**2] not overflowing, a positive iteration
    limit. *)
Theorem nan_rhs_raises_UnboundLocalError :
  forall (roots_quadratic : num float -> num float -> num float
                            -> result (list (num float)))
         (A : LinearOperator float) (a : args float) (c : float),
    In c (firstn (fst (shape A)) (rhs a)) ->
    PrimFloat.is_nan c = true ->
    wantvar a = false ->
    (exists d2, sq (PyFloat (damp a)) = Ok d2) ->
    0 < effective_itnlim A a ->
    solve roots_quadratic A a = Some (Raise UnboundLocalError).
Proof.
  intros rq A a c Hin Hc Hw (d2 & Hd) Hlim.
  apply is_nan_spec in Hc.
  destruct (norm_nan _ c Hin Hc) as (b & Hb & Hnan).
  destruct (self_ctol_defined (conlim a)) as (o & Ho).
  assert (Hgt : PrimFloat.ltb PrimFloat.zero b = false).
  { rewrite ltb_spec, Hnan. reflexivity. }
  assert (Hz : PrimFloat.eqb (PrimFloat.zero * b) PrimFloat.zero = false).
  { rewrite eqb_spec, (mul_nan_r PrimFloat.zero b Hnan). reflexivity. }
  rewrite solve_unfold. unfold solve_fuel, initialise, effective_itnlim in *.
  destruct (shape A) as [m n]. simpl fst in *. simpl snd in *.
  rewrite Hw, Hd, Ho. cbn [bind zeros]. rewrite Hb.
  unfold gt at 1. cbn [val zero f_ltb Binary64 f0]. rewrite Hgt.
  cbn [bind]. unfold gt at 1. cbn [val zero f_ltb Binary64 f0].
  change (PrimFloat.ltb PrimFloat.zero PrimFloat.zero) with false.
  cbn [bind].
  unfold eq0, mul, lift2. cbn [val zero f_mul f_eqb Binary64 f0].
  rewrite Hz.
  destruct (Z.to_nat (if itnlim a =? 0 then 3 * Z.of_nat n else itnlim a))
    as [ | k] eqn:Hk; [lia | ].
  cbn [main_loop itn fr_itnlim fr_x_is_zero negb].
  apply Z.ltb_lt in Hlim. rewrite Hlim. cbn [andb].
  reflexivity.
Qed.

(** The right-hand side (1, nan) on diag(1, 2). *)
Lemma nan_rhs_raises_UnboundLocalError_witness :
  solve roots_quadratic_model diag2 (defaults [1; PrimFloat.nan]%float)
  = Some (Raise UnboundLocalError).
Proof.
  apply (nan_rhs_raises_UnboundLocalError roots_quadratic_model diag2
           (defaults [1; PrimFloat.nan]%float) PrimFloat.nan).
  - right. left. reflexivity.
  - reflexivity.
  - reflexivity.
  - eexists. reflexivity.
  - reflexivity.
Defined.

(** ** Binary64: a pass that ends with [arnorm == 0.0] *)

Section Binary64ZeroQuotient.

Lemma eqb_zero_spec (a : float) :
  PrimFloat.eqb a PrimFloat.zero = true -> exists s, Prim2SF a = S754_zero s.
Proof.
  rewrite eqb_spec. change (Prim2SF PrimFloat.zero) with (S754_zero false).
  destruct (Prim2SF a) as [s | s | | s m e]; simpl; intros H;
    try discriminate; try (destruct s; discriminate).
  exists s. reflexivity.
Qed.

(** A quotient with a zero numerator is a zero or a NaN. *)
Lemma div_zero_l (a b : float) :
  PrimFloat.eqb a PrimFloat.zero = true ->
  PrimFloat.is_nan (a / b) = true \/ exists s, Prim2SF (a / b) = S754_zero s.
Proof.
  intros H. destruct (eqb_zero_spec a H) as (s & Ha).
  rewrite is_nan_spec, div_spec, Ha. unfold SF64div.
  destruct (Prim2SF b) as [sb | sb | | sb mb eb]; simpl; eauto.
Qed.

Lemma one_plus_zero (z : float) (s : bool) :
  Prim2SF z = S754_zero s -> (PrimFloat.one + z)%float = PrimFloat.one.
Proof.
  intros H. apply Prim2SF_inj. rewrite add_spec, H.
  remember (Prim2SF PrimFloat.one) as o eqn:Ho. vm_compute in Ho. subst o.
  reflexivity.
Qed.

End Binary64ZeroQuotient.

(** (X10) On binary64, a full pass that ends with [arnorm == 0.0] ends
    the loop, with a stop code between 1 and 5, unless
    [test2 = arnorm/(anorm*rnorm)] is a NaN: [test2] is then a zero and
    [1 + test2 <= 1] holds. *)
Theorem zero_arnorm_ends_the_loop :
  forall (roots_quadratic : num float -> num float -> num float
                            -> result (list (num float)))
         (A : LinearOperator float) (fr : frame float) (s s' : locals float),
    iteration roots_quadratic A fr s = Ok s' ->
    tr_active s = false ->
    tr_active s' = false ->
    eq0 (arnorm s') = true ->
    exists t,
      convergence_tests fr s' = Ok t
      /\ (PrimFloat.is_nan (val (test2 t)) = true
          \/ (1 <= istop s' <= 5
              /\ forall fuel,
                   (itn s <? fr_itnlim fr) && negb (fr_x_is_zero fr) = true ->
                   main_loop roots_quadratic A (S fuel) fr s = Some (Ok s'))).
Proof.
  intros rq A fr s s' Hit Hact Hact' Hz.
  destruct (iteration_cases _ _ _ _ _ Hit Hact)
    as (_ & [(Hb & _) | (_ & t & Hct & Hst)]); [congruence | ].
  exists t. split; [exact Hct | ].
  assert (Ht2 : val (test2 t)
                = (val (arnorm s') / val (mul (anorm s') (rnorm s')))%float).
  { unfold convergence_tests in Hct.
    inv_bind Hct. inv_bind Hct. inv_bind Hct. inv_bind Hct. inv_bind Hct.
    inv_bind Hct. injection Hct as <-. simpl.
    apply (div_val _ _ _ E0). }
  destruct (div_zero_l (val (arnorm s')) (val (mul (anorm s') (rnorm s'))) Hz)
    as [Hnan | (sg & Hzero)].
  - left. rewrite Ht2. exact Hnan.
  - right. rewrite <- Ht2 in Hzero.
    assert (H5 : le (add one (test2 t)) one = true).
    { unfold le. rewrite val_add. simpl.
      rewrite (one_plus_zero _ _ Hzero). reflexivity. }
    assert (Hr : 1 <= istop s' <= 5).
    { rewrite Hst. unfold stop_tests. rewrite H5.
      destruct (fr_itnlim fr <=? itn s'), (le (add one (test3 t)) one),
        (le (add one (t1' t)) one), (le (test3 t) (fr_ctol fr)),
        (le (test2 t) (fr_atol fr)), (le (test1 t) (rtol t)); lia. }
    split; [exact Hr | ].
    intros fuel Hg. apply main_loop_breaks; [exact Hg | exact Hit | lia].
Qed.

(** On the 4 by 1 matrix with column (1, 1, 0, 0) and right-hand side
    (1, 1, 1, 1) the first pass finds [alfa = 0], so [arnorm = 0]: the
    pass ends with code 2 and the loop with it. *)
Lemma zero_arnorm_ends_the_loop_witness :
  exists fr s0 s1 t,
    initialise column4 (defaults [1; 1; 1; 1]%float) = Ok (fr, s0)
    /\ iteration roots_quadratic_model column4 fr s0 = Ok s1
    /\ convergence_tests fr s1 = Ok t
    /\ (PrimFloat.is_nan (val (test2 t)) = true
        \/ (1 <= istop s1 <= 5
            /\ forall fuel,
                 (itn s0 <? fr_itnlim fr) && negb (fr_x_is_zero fr) = true ->
                 main_loop roots_quadratic_model column4 (S fuel) fr s0
                 = Some (Ok s1))).
Proof.
  assert (exists fr s0 s1,
             initialise column4 (defaults [1; 1; 1; 1]%float) = Ok (fr, s0)
             /\ iteration roots_quadratic_model column4 fr s0 = Ok s1
             /\ tr_active s0 = false /\ tr_active s1 = false
             /\ eq0 (arnorm s1) = true)
    as (fr & s0 & s1 & Hin & Hit & H0 & H1 & Hz).
  { do 3 eexists. split; [lazy; reflexivity | ].
    split; [lazy; reflexivity | ].
    repeat split; vm_compute; reflexivity. }
  destruct (zero_arnorm_ends_the_loop roots_quadratic_model column4 fr s0 s1
              Hit H0 H1 Hz) as (t & Hct & Hc).
  exists fr, s0, s1, t. repeat split; assumption.
Defined.

(** ** Binary64: the exceptions a call can raise *)

Section Binary64Exceptions.
Variable roots_quadratic : num float -> num float -> num float
                           -> result (list (num float)).
Variable A : LinearOperator float.
Hypothesis shaped : well_shaped A.

Lemma safe_bind {B C : Type} (Q : B -> Prop) (P : C -> Prop)
      (r : result B) (k : B -> result C) :
  safe Q r -> (forall b, Q b -> safe P (k b)) -> safe P (bind r k).
Proof. destruct r as [b | e]; simpl; intros H Hk; [apply Hk | ]; exact H. Qed.

Lemma safe_weaken {B : Type} (Q P : B -> Prop) (r : result B) :
  safe Q r -> (forall b, Q b -> P b) -> safe P r.
Proof. destruct r as [b | e]; simpl; intros H Hk; [apply Hk | ]; exact H. Qed.

(** [a ** 2] raises nothing but [OverflowError]; its value is not below
    zero. *)
Lemma safe_sq (a : num float) : safe not_negative (sq a).
Proof.
  destruct a as [a0 | a0]; simpl.
  - destruct (PrimFloat.is_finite a0 && negb (PrimFloat.is_finite (a0 * a0))).
    + left. reflexivity.
    + apply mul_self_not_negative.
  - apply mul_self_not_negative.
Qed.

(** [a / b] raises nothing but [ZeroDivisionError]. *)
Lemma safe_div (a b : num float) : safe (fun _ => True) (div a b).
Proof.
  destruct a as [a0 | a0], b as [b0 | b0]; simpl; try exact I.
  destruct (PrimFloat.eqb b0 PrimFloat.zero); simpl; [ | exact I].
  right. left. reflexivity.
Qed.

(** [math.sqrt] does not raise on a number that is not below zero. *)
Lemma safe_sqrt (a : num float) :
  not_negative a -> safe not_negative (sqrt a).
Proof.
  unfold sqrt, not_negative. simpl. intros ->. simpl.
  apply sqrt_not_negative.
Qed.

Lemma safe_normof2 (a b : num float) : safe not_negative (normof2 a b).
Proof.
  unfold normof2.
  apply (safe_bind not_negative); [apply safe_sq | intros a2 Ha].
  apply (safe_bind not_negative); [apply safe_sq | intros b2 Hb].
  apply safe_sqrt. apply not_negative_add; assumption.
Qed.

Lemma safe_normof4 (a b c d : num float) : safe not_negative (normof4 a b c d).
Proof.
  unfold normof4.
  apply (safe_bind not_negative); [apply safe_sq | intros a2 Ha].
  apply (safe_bind not_negative); [apply safe_sq | intros b2 Hb].
  apply (safe_bind not_negative); [apply safe_sq | intros c2 Hc].
  apply (safe_bind not_negative); [apply safe_sq | intros d2 Hd].
  apply safe_sqrt. repeat apply not_negative_add; assumption.
Qed.

Lemma safe_unbound {B : Type} (o : option B) :
  safe (fun b => o = Some b) (unbound o).
Proof.
  destruct o as [b | ]; simpl; [reflexivity | right; right; reflexivity].
Qed.

Lemma safe_broadcast2 (op : float -> float -> float) (a b : list float) :
  List.length a = List.length b ->
  safe (fun c => List.length c = List.length a) (broadcast2 op a b).
Proof.
  intros H. unfold broadcast2. rewrite H, Nat.eqb_refl. simpl.
  rewrite <- H. apply map2_length. exact H.
Qed.

Lemma safe_inplace2 (op : float -> float -> float) (a b : list float) :
  List.length a = List.length b ->
  safe (fun c => List.length c = List.length a) (inplace2 op a b).
Proof.
  intros H. unfold inplace2. rewrite H, Nat.eqb_refl. simpl.
  rewrite <- H. apply map2_length. exact H.
Qed.

Lemma safe_A_mul (y : list float) :
  List.length y = snd (shape A) ->
  safe (fun r => List.length r = fst (shape A)) (A_mul A y).
Proof.
  intros H. destruct (proj1 shaped y H) as (r & -> & Hr). exact Hr.
Qed.

Lemma safe_AT_mul (y : list float) :
  List.length y = fst (shape A) ->
  safe (fun r => List.length r = snd (shape A)) (AT_mul A y).
Proof.
  intros H. destruct (proj2 shaped y H) as (r & -> & Hr). exact Hr.
Qed.

Let m := fst (shape A).
Let n := snd (shape A).

Lemma bidiag_safe (d : num float) (s : locals float) :
  shapes_ok m n s ->
  safe (fun s' => shapes_ok m n s'
                  /\ xxnorm s' = xxnorm s /\ ddnorm s' = ddnorm s
                  /\ res2 s' = res2 s /\ tr_active s' = tr_active s
                  /\ var s' = var s)
       (bidiag A d s).
Proof.
  subst m n. intros (Hx & Hu & Hv & Hw). unfold bidiag.
  eapply safe_bind; [apply safe_unbound | intros v0 Hv0].
  pose proof (Hv v0 Hv0) as Lv.
  eapply safe_bind; [apply safe_A_mul; exact Lv | intros Av LAv].
  eapply safe_bind;
    [apply safe_broadcast2; unfold scale; rewrite length_map; congruence
    | intros u1 Lu1].
  cbv beta in Lu1. rewrite LAv in Lu1.
  destruct (gt (norm u1) zero).
  - eapply safe_bind; [apply safe_normof4 | intros anorm1 _].
    eapply safe_bind;
      [apply safe_AT_mul; unfold idiv; rewrite length_map; exact Lu1
      | intros ATu LATu].
    eapply safe_bind;
      [apply safe_broadcast2; unfold scale; rewrite length_map; congruence
      | intros v1 Lv1].
    cbv beta in Lv1. rewrite LATu in Lv1.
    cbn [safe]; unfold shapes_ok, sums_ok; cbn [x u v w xxnorm ddnorm res2 tr_active var]. repeat split; try assumption.
    + unfold idiv. rewrite length_map. exact Lu1.
    + intros v2 H2. injection H2 as <-.
      match goal with
      | |- context [if ?c then _ else _] => destruct c
      end; [unfold idiv; rewrite length_map | ]; exact Lv1.
  - cbn [safe]; unfold shapes_ok, sums_ok; cbn [x u v w xxnorm ddnorm res2 tr_active var]. repeat split; assumption.
Qed.

Lemma rotate_safe (d : num float) (s : locals float) :
  safe (fun _ => True) (rotate d s).
Proof.
  unfold rotate.
  eapply safe_bind; [apply safe_normof2 | intros rhobar1 _].
  eapply safe_bind; [apply safe_div | intros cs1 _].
  eapply safe_bind; [apply safe_div | intros sn1 _].
  eapply safe_bind; [apply safe_normof2 | intros rho _].
  eapply safe_bind; [apply safe_div | intros cs _].
  eapply safe_bind; [apply safe_div | intros sn _].
  eapply safe_bind; [apply safe_div | intros t1 _].
  eapply safe_bind; [apply safe_div | intros t2 _].
  eapply safe_bind; [apply safe_div | intros rinv _].
  eapply safe_bind; [apply safe_unbound | intros w0 _].
  exact I.
Qed.

Lemma update_safe (fr : frame float) (s : locals float) (r : rotation) :
  fr_wantvar fr = false ->
  shapes_ok m n s -> sums_ok s ->
  safe (fun s' => shapes_ok m n s' /\ sums_ok s'
                  /\ tr_active s' = tr_active s)
       (update fr s r).
Proof.
  subst m n. intros Hwv (Hx & Hu & Hv & Hw) (Hxx & Hdd & Hres). unfold update.
  eapply safe_bind; [apply safe_unbound | intros w0 Hw0].
  pose proof (Hw w0 Hw0) as Lw.
  eapply safe_bind;
    [apply safe_inplace2; unfold scale; rewrite length_map; congruence
    | intros x1 Lx1].
  eapply safe_bind; [apply safe_unbound | intros v0 Hv0].
  pose proof (Hv v0 Hv0) as Lv.
  eapply safe_bind;
    [apply safe_inplace2; unfold imul; rewrite length_map; congruence
    | intros w1 Lw1].
  cbv beta in Lx1, Lw1. unfold imul in Lw1. rewrite length_map in Lw1.
  eapply safe_bind; [apply safe_sq | intros ndk2 Hndk].
  rewrite Hwv.
  eapply (safe_bind (fun _ => True)); [exact I | intros var1 _].
  eapply safe_bind; [apply safe_div | intros zbar _].
  eapply safe_bind; [apply safe_sq | intros zbar2 Hzbar2].
  eapply safe_bind;
    [apply safe_sqrt; apply not_negative_add; assumption | intros xnorm1 _].
  eapply safe_bind; [apply safe_normof2 | intros gamma _].
  eapply safe_bind; [apply safe_div | intros cs2' _].
  eapply safe_bind; [apply safe_div | intros sn2' _].
  eapply safe_bind; [apply safe_div | intros z1 _].
  eapply safe_bind;
    [apply safe_sqrt; apply not_negative_add; assumption | intros sd _].
  eapply safe_bind; [apply safe_sq | intros res1 Hres1].
  eapply safe_bind; [apply safe_sq | intros psi2 Hpsi2].
  eapply safe_bind;
    [apply safe_sqrt; repeat apply not_negative_add; assumption
    | intros rnorm1 _].
  eapply safe_bind; [apply safe_sq | intros rn2 _].
  eapply safe_bind;
    [apply safe_sqrt; apply not_negative_abs | intros r1n _].
  cbn [safe]; unfold shapes_ok, sums_ok; cbn [x u v w xxnorm ddnorm res2 tr_active var].
  repeat split; try assumption; try congruence.
  - apply not_negative_add; [assumption | apply not_negative_mul_self].
  - apply not_negative_add; assumption.
  - apply not_negative_add; assumption.
Qed.

Lemma convergence_tests_safe (fr : frame float) (s : locals float) :
  safe (fun _ => True) (convergence_tests fr s).
Proof.
  unfold convergence_tests.
  eapply safe_bind; [apply safe_div | intros test1 _].
  eapply safe_bind; [apply safe_div | intros test2 _].
  eapply (safe_bind (fun _ => True));
    [destruct (eq0 (acond s)); [exact I | apply safe_div] | intros test3 _].
  eapply safe_bind; [apply safe_div | intros ax _].
  eapply safe_bind; [apply safe_div | intros t1' _].
  eapply safe_bind; [apply safe_div | intros ax' _].
  exact I.
Qed.

(** The invariant of the loop. *)
Lemma iteration_safe (fr : frame float) (s : locals float) :
  fr_radius fr = None -> fr_wantvar fr = false ->
  shapes_ok m n s -> sums_ok s -> tr_active s = false ->
  safe (fun s' => shapes_ok m n s' /\ sums_ok s' /\ tr_active s' = false)
       (iteration roots_quadratic A fr s).
Proof.
  intros Hrad Hwv Hsh Hsum Hact. unfold iteration. rewrite Hrad.
  eapply safe_bind;
    [apply bidiag_safe; exact Hsh
    | intros s1 (Hsh1 & Hxx & Hdd & Hres & Ht & _)].
  eapply safe_bind; [apply rotate_safe | intros r _].
  cbn [bind].
  assert (Hsh2 : shapes_ok m n (set_bars s1 r)) by exact Hsh1.
  assert (Hsum2 : sums_ok (set_bars s1 r)).
  { destruct Hsum as (H1 & H2 & H3). unfold sums_ok.
    cbn [set_bars xxnorm ddnorm res2].
    rewrite Hxx, Hdd, Hres. repeat split; assumption. }
  assert (Ht2 : tr_active (set_bars s1 r) = false).
  { cbn [set_bars tr_active]. rewrite Ht. exact Hact. }
  rewrite Ht2. cbn [negb]. unfold full_step.
  eapply safe_bind;
    [apply update_safe; assumption | intros s3 (Hsh3 & Hsum3 & Ht3)].
  eapply safe_bind; [apply convergence_tests_safe | intros t _].
  cbn [safe set_istop]. split; [exact Hsh3 | ]. split; [exact Hsum3 | ].
  cbn [tr_active set_istop]. rewrite Ht3. exact Ht2.
Qed.

Lemma main_loop_safe (fr : frame float) :
  fr_radius fr = None -> fr_wantvar fr = false ->
  forall (fuel : nat) (s : locals float) (e : exn),
    shapes_ok m n s -> sums_ok s -> tr_active s = false ->
    main_loop roots_quadratic A fuel fr s = Some (Raise e) ->
    arithmetic_or_unbound e.
Proof.
  intros Hrad Hwv. induction fuel as [ | fuel IH]; intros s e Hsh Hsum Hact H;
    simpl in H.
  - destruct ((itn s <? fr_itnlim fr) && negb (fr_x_is_zero fr)); discriminate.
  - destruct ((itn s <? fr_itnlim fr) && negb (fr_x_is_zero fr));
      [ | discriminate].
    pose proof (iteration_safe fr s Hrad Hwv Hsh Hsum Hact) as Hs.
    destruct (iteration roots_quadratic A fr s) as [s1 | e1]; simpl in Hs.
    + destruct Hs as (Hsh1 & Hsum1 & Hact1).
      destruct (0 <? istop s1); [discriminate | ].
      exact (IH s1 e Hsh1 Hsum1 Hact1 H).
    + injection H as <-. exact Hs.
Qed.

Lemma initialise_safe (a : args float) :
  wantvar a = false ->
  (m <= List.length (rhs a))%nat ->
  safe (fun p => shapes_ok m n (snd p) /\ sums_ok (snd p)
                 /\ tr_active (snd p) = false
                 /\ fr_wantvar (fst p) = false
                 /\ fr_radius (fst p) = option_map PyFloat (radius a))
       (initialise A a).
Proof.
  intros Hwv Hlen. unfold initialise. subst m n.
  destruct (shape A) as [m n] eqn:Hshape. simpl fst in *. simpl snd in *.
  rewrite Hwv.
  eapply (safe_bind (fun _ => True)); [exact I | intros var0 _].
  eapply safe_bind; [apply safe_sq | intros dampsq _].
  destruct (self_ctol_defined (conlim a)) as (o & ->). cbn [bind zeros].
  assert (Lu : List.length (firstn m (rhs a)) = m).
  { rewrite length_firstn. lia. }
  eapply (safe_bind
            (fun st => List.length (fst (fst st)) = m
                       /\ (forall v0, snd (fst st) = Some v0 -> List.length v0 = n)
                       /\ (gt (snd st) zero = true -> snd (fst st) <> None))).
  - destruct (gt (norm (firstn m (rhs a))) zero).
    + eapply safe_bind;
        [apply safe_AT_mul; rewrite Hshape; unfold idiv; rewrite length_map;
         exact Lu
        | intros v0 Lv0].
      rewrite Hshape in Lv0. simpl in *. split; [ | split].
      * unfold idiv. rewrite length_map. exact Lu.
      * intros v1 H1. injection H1 as <-. exact Lv0.
      * intros _. discriminate.
    + simpl. split; [exact Lu | split].
      * intros v0 H0. discriminate.
      * intros H. discriminate.
  - intros [[u1 v1] alfa1] (Lu1 & Lv1 & Hv1). simpl in Lu1, Lv1, Hv1.
    eapply (safe_bind
              (fun vw => (forall v0, fst vw = Some v0 -> List.length v0 = n)
                         /\ (forall w0, snd vw = Some w0 -> List.length w0 = n))).
    + destruct (gt alfa1 zero) eqn:Hg.
      * destruct v1 as [v0 | ];
          [ | exfalso; apply Hv1; [exact Hg | reflexivity]].
        simpl. pose proof (Lv1 v0 eq_refl) as L.
        split; intros y Hy; injection Hy as <-; unfold idiv;
          rewrite length_map; exact L.
      * simpl. split; [exact Lv1 | intros w0 H0; discriminate].
    + intros [v2 w2] (Lv2 & Lw2). simpl in Lv2, Lw2. simpl.
      repeat split; try assumption; try reflexivity.
      apply repeat_length.
Qed.

Lemma solve_safe (a : args float) (e : exn) :
  wantvar a = false -> radius a = None ->
  (m <= List.length (rhs a))%nat ->
  solve roots_quadratic A a = Some (Raise e) ->
  arithmetic_or_unbound e.
Proof.
  intros Hwv Hrad Hlen H. rewrite solve_unfold in H. unfold solve_fuel in H.
  pose proof (initialise_safe a Hwv Hlen) as Hi.
  destruct (initialise A a) as [[fr s0] | e0]; simpl in Hi.
  - destruct Hi as (Hsh & Hsum & Hact & Hw & Hr).
    rewrite Hrad in Hr. simpl in Hr.
    destruct (main_loop roots_quadratic A _ fr s0) as [[s | e1] | ] eqn:Hloop;
      try discriminate.
    injection H as <-.
    exact (main_loop_safe fr Hr Hw _ s0 e1 Hsh Hsum Hact Hloop).
  - injection H as <-. exact Hi.
Qed.

End Binary64Exceptions.

(** (X11) On binary64, with an operator whose products accept and return
    vectors of the declared lengths, a right-hand side of at least [m]
    entries, no radius and [wantvar] off, a call raises nothing but
    [OverflowError], [ZeroDivisionError] or [UnboundLocalError]: no
    [ValueError] from [math.sqrt] or from the shapes, and no
    [TypeError]. *)
Theorem solve_raises_only_arithmetic_errors :
  forall (roots_quadratic : num float -> num float -> num float
                            -> result (list (num float)))
         (A : LinearOperator float) (a : args float) (e : exn),
    well_shaped A ->
    wantvar a = false -> radius a = None ->
    (fst (shape A) <= List.length (rhs a))%nat ->
    solve roots_quadratic A a = Some (Raise e) ->
    e = OverflowError \/ e = ZeroDivisionError \/ e = UnboundLocalError.
Proof.
  intros rq A a e HA Hwv Hrad Hlen H.
  exact (solve_safe rq A HA a e Hwv Hrad Hlen H).
Qed.

(** ** Matrices are well-shaped operators *)

Section DenseShapes.
Context {F : Type} {FO : FloatOps F}.

Lemma sequence_Ok {B : Type} (l : list (result B)) :
  (forall r, In r l -> exists b, r = Ok b) ->
  exists bs, sequence l = Ok bs /\ List.length bs = List.length l.
Proof.
  induction l as [ | r l IH]; intros H; simpl.
  - exists []. split; reflexivity.
  - destruct (H r (or_introl eq_refl)) as (b & ->).
    destruct IH as (bs & -> & Hl); [intros r' Hr'; apply H; right; exact Hr' | ].
    exists (b :: bs). split; [reflexivity | simpl; congruence].
Qed.

Lemma matvec_Ok (rows : list (list F)) (y : list F) :
  (forall row, In row rows -> List.length row = List.length y) ->
  exists r, matvec rows y = Ok r /\ List.length r = List.length rows.
Proof.
  intros H. unfold matvec.
  destruct (sequence_Ok (map (fun row => r <- dot row y ;; Ok (val r)) rows))
    as (bs & Hs & Hl).
  - intros r Hr. apply in_map_iff in Hr. destruct Hr as (row & <- & Hin).
    unfold dot. rewrite (H row Hin), Nat.eqb_refl. simpl. eexists. reflexivity.
  - exists bs. split; [exact Hs | ]. rewrite Hl. apply length_map.
Qed.

Lemma columns_length (n : nat) (rows : list (list F)) :
  List.length (columns n rows) = n.
Proof.
  revert rows. induction n as [ | n IH]; intros rows; simpl;
    [reflexivity | rewrite IH; reflexivity].
Qed.

Lemma columns_rows (n : nat) (rows : list (list F)) (c : list F) :
  In c (columns n rows) -> List.length c = List.length rows.
Proof.
  revert rows. induction n as [ | n IH]; intros rows; simpl; [contradiction | ].
  intros [<- | H].
  - apply length_map.
  - rewrite (IH _ H). apply length_map.
Qed.

(** An [m] by [n] matrix, given by [m] rows of length [n]. *)
Lemma dense_well_shaped (m n : nat) (rows : list (list F)) :
  List.length rows = m ->
  (forall row, In row rows -> List.length row = n) ->
  well_shaped (dense m n rows).
Proof.
  intros Hm Hn. split; simpl; intros y Hy.
  - destruct (matvec_Ok rows y) as (r & Hr & Hl).
    + intros row Hin. rewrite (Hn row Hin). symmetry. exact Hy.
    + exists r. split; [exact Hr | congruence].
  - destruct (matvec_Ok (columns n rows) y) as (r & Hr & Hl).
    + intros c Hin. rewrite (columns_rows n rows c Hin). congruence.
    + exists r. split; [exact Hr | ]. rewrite Hl. apply columns_length.
Qed.

End DenseShapes.

(** On diag(1, 2) with right-hand side (1e200, 1) the norm of the
    right-hand side overflows and the call raises [ZeroDivisionError]. *)
Lemma solve_raises_only_arithmetic_errors_witness :
  solve roots_quadratic_model diag2 (defaults [1.0e200; 1]%float)
    = Some (Raise ZeroDivisionError)
  /\ (ZeroDivisionError = OverflowError
      \/ ZeroDivisionError = ZeroDivisionError
      \/ ZeroDivisionError = UnboundLocalError).
Proof.
  assert (H : solve roots_quadratic_model diag2 (defaults [1.0e200; 1]%float)
              = Some (Raise ZeroDivisionError)) by (vm_compute; reflexivity).
  split; [exact H | ].
  apply (solve_raises_only_arithmetic_errors roots_quadratic_model diag2
           (defaults [1.0e200; 1]%float) ZeroDivisionError).
  - apply dense_well_shaped; [reflexivity | ].
    intros row [<- | [<- | []]]; reflexivity.
  - reflexivity.
  - reflexivity.
  - simpl. lia.
  - exact H.
Defined.

(** ** Exact arithmetic: the estimates *)

Section LoopFull.
Context {F : Type} {FO : FloatOps F}.
Variable roots_quadratic : num F -> num F -> num F -> result (list (num F)).
Variable A : LinearOperator F.

(** What every full pass keeps holds of a result that is not on the
    boundary. *)
Lemma main_loop_full_invariant (P : locals F -> Prop) (fr : frame F) :
  (forall s s', P s -> tr_active s = false ->
                iteration roots_quadratic A fr s = Ok s' ->
                tr_active s' = false -> P s') ->
  forall (fuel : nat) (s s' : locals F),
    P s -> tr_active s = false ->
    main_loop roots_quadratic A fuel fr s = Some (Ok s') ->
    tr_active s' = false -> P s'.
Proof.
  intros Hstep. induction fuel as [ | fuel IH]; intros s s' HP Hact H Hact';
    simpl in H.
  - destruct ((itn s <? fr_itnlim fr) && negb (fr_x_is_zero fr));
      [discriminate | ]. injection H as <-. exact HP.
  - destruct ((itn s <? fr_itnlim fr) && negb (fr_x_is_zero fr)).
    + destruct (iteration roots_quadratic A fr s) as [s1 | e] eqn:Hit;
        [ | discriminate].
      destruct (0 <? istop s1) eqn:Hpos.
      * injection H as <-. exact (Hstep s s1 HP Hact Hit Hact').
      * assert (Hact1 : tr_active s1 = false).
        { destruct (iteration_cases _ _ _ _ _ Hit Hact)
            as (_ & [(_ & H8 & _) | (Hf & _)]); [ | exact Hf].
          rewrite H8 in Hpos. discriminate. }
        exact (IH s1 s' (Hstep s s1 HP Hact Hit Hact1) Hact1 H Hact').
    + injection H as <-. exact HP.
Qed.

(** Along the log of an estimate, each full pass relates the value before
    it to the value after it. *)
Lemma estimate_log_chain (f : locals F -> num F) (rel : F -> F -> Prop)
      (P : locals F -> Prop) (fr : frame F) :
  (forall s s', P s -> tr_active s = false ->
                iteration roots_quadratic A fr s = Ok s' ->
                tr_active s' = false ->
                P s' /\ rel (val (f s)) (val (f s'))) ->
  forall (fuel : nat) (s : locals F),
    P s -> tr_active s = false ->
    chain rel (val (f s) :: estimate_log roots_quadratic A f fuel fr s).
Proof.
  intros Hstep. unfold estimate_log.
  induction fuel as [ | fuel IH]; intros s HP Hact; simpl.
  - destruct ((itn s <? fr_itnlim fr) && negb (fr_x_is_zero fr)); exact I.
  - destruct ((itn s <? fr_itnlim fr) && negb (fr_x_is_zero fr)); [ | exact I].
    destruct (iteration roots_quadratic A fr s) as [s' | e] eqn:Hit; [ | exact I].
    simpl. destruct (tr_active s') eqn:Hact'.
    + simpl.
      destruct (boundary_pass _ _ _ _ _ Hit Hact Hact') as (H8 & _).
      rewrite H8. simpl. exact I.
    + simpl. destruct (Hstep s s' HP Hact Hit Hact') as (HP' & Hrel).
      split; [exact Hrel | ].
      destruct (0 <? istop s').
      * simpl. exact I.
      * apply IH; assumption.
Qed.

End LoopFull.

Lemma initialise_norms {F : Type} {FO : FloatOps F} (A : LinearOperator F)
      (a : args F) (fr : frame F) (s0 : locals F) :
  initialise A a = Ok (fr, s0) ->
  ddnorm s0 = zero
  /\ r2norm s0 = norm (firstn (fst (shape A)) (rhs a))
  /\ rnorm s0 = norm (firstn (fst (shape A)) (rhs a)).
Proof.
  unfold initialise. destruct (shape A) as [m n]. intros H.
  inv_bind H. inv_bind H. inv_bind H. inv_bind H. inv_bind H.
  destruct y3 as [[u1 v1] alfa1]. inv_bind H. destruct y3 as [v2 w2].
  simpl in H. injection H as <- <-. simpl.
  repeat split; reflexivity.
Qed.

Lemma bidiag_r2norm {F : Type} {FO : FloatOps F} (A : LinearOperator F)
      (dmp : num F) (s s' : locals F) :
  bidiag A dmp s = Ok s' -> r2norm s' = r2norm s.
Proof.
  unfold bidiag. intros H.
  inv_bind H. inv_bind H. inv_bind H.
  destruct (gt (norm y1) zero).
  - inv_bind H. inv_bind H. inv_bind H.
    injection H as <-. reflexivity.
  - injection H as <-. reflexivity.
Qed.

Lemma signed_sqrt_not_negative (y : R) :
  (0 <= y)%R -> signed_sqrt y = R_sqrt.sqrt y.
Proof.
  intros Hy. unfold signed_sqrt.
  rewrite (proj2 (Rltb_false y 0)) by exact Hy.
  rewrite Rabs_right by lra. reflexivity.
Qed.

Section ExactEstimates.
Variable pinf : R.

#[local] Hint Extern 0 (FloatOps R) => exact (ExactOps pinf) : typeclass_instances.

Variable roots_quadratic : num R -> num R -> num R -> result (list (num R)).
Variable A : LinearOperator R.

(** The bidiagonalization does not lower [anorm]. *)
Lemma bidiag_anorm (d : num R) (s s' : locals R) :
  bidiag A d s = Ok s' ->
  (0 <= val (anorm s))%R ->
  (val (anorm s) <= val (anorm s'))%R.
Proof.
  unfold bidiag. intros H Ha.
  inv_bind H. inv_bind H. inv_bind H.
  destruct (gt (norm y1) zero).
  - inv_bind H. inv_bind H. inv_bind H.
    injection H as <-. simpl.
    apply normof4_val in E2. subst y2. simpl.
    rewrite <- (sqrt_square (val (anorm s))) at 1 by exact Ha.
    apply sqrt_le_1_alt.
    pose proof (Rle_0_sqr (val (alfa s))).
    pose proof (Rle_0_sqr (R_sqrt.sqrt (sumsq y1))).
    pose proof (Rle_0_sqr (val d)). unfold Rsqr in *. lra.
  - injection H as <-. simpl. lra.
Qed.

(** What a full step computes: the sums grow, [r2norm] and [acond] are
    the square roots of lines 285-288 on the new values. *)
Lemma update_estimates (fr : frame R) (s s' : locals R) (r : @rotation R) :
  update fr s r = Ok s' ->
  (0 <= val (res2 s))%R -> (0 <= val (ddnorm s))%R ->
  val (r2norm s')
  = R_sqrt.sqrt (val (phibar s) * val (phibar s) + val (res2 s'))
  /\ (val (ddnorm s) <= val (ddnorm s'))%R
  /\ val (acond s') = (val (anorm s) * R_sqrt.sqrt (val (ddnorm s')))%R
  /\ anorm s' = anorm s.
Proof.
  unfold update. intros H Hres Hdd.
  repeat (inv_bind H). injection H as <-. simpl.
  apply sq_val in E3, E13, E14.
  apply sqrt_val in E12, E15.
  destruct E12 as (-> & _). destruct E15 as (-> & _).
  simpl in E3, E13, E14. 
  rewrite !val_add, ?val_mul, E3, E13, E14. simpl.
  repeat split.
  - pose proof (Rle_0_sqr (R_sqrt.sqrt (sumsq (dk r)))). unfold Rsqr in *. lra.
Qed.

(** A full pass keeps the estimates tied to the running sums; it lowers
    neither [anorm] nor [acond] and does not raise [r2norm]. *)
Lemma full_pass_estimates (fr : frame R) (s s' : locals R) (d : R) :
  iteration roots_quadratic A fr s = Ok s' ->
  tr_active s = false ->
  tr_active s' = false ->
  fr_damp fr = PyFloat d ->
  (0 <= val (fr_dampsq fr))%R ->
  estimates_ok fr s ->
  estimates_ok fr s'
  /\ (val (r2norm s') <= val (r2norm s))%R
  /\ (val (anorm s) <= val (anorm s'))%R
  /\ (val (acond s) <= val (acond s'))%R.
Proof.
  intros Hit Hact Hact' Hd Hdsq (Hres & Hxx & Hdd & Han & Hr1 & Hr2 & Hac).
  destruct (full_pass_r1norm pinf roots_quadratic A fr s s' d Hit Hact Hact'
              Hd Hdsq Hr1 Hres) as (Hr1' & Hres' & _).
  unfold iteration in Hit.
  inv_bind Hit. inv_bind Hit. inv_bind Hit.
  destruct (bidiag_frame _ _ _ _ E) as (_ & _ & Ht & _ & _ & _ & _ & Hdd1 & Hac1 & _).
  destruct (bidiag_scalars _ _ _ _ E) as (Hp & _ & Hr21 & Hxx1 & _).
  pose proof (bidiag_r2norm _ _ _ _ E) as Hr2n.
  pose proof (bidiag_anorm _ _ _ E) as Han1.
  simpl in Ht, Hdd1, Hac1, Hp, Hr21, Hxx1, Hr2n, Han1.
  specialize (Han1 Han).
  rewrite Hd in E0. pose proof (rotate_shrinks pinf _ _ _ E0) as Hrot.
  assert (Hy1 : y1 = set_bars y y0).
  { destruct (fr_radius fr) as [rad | ].
    - destruct (trust_region_cases _ _ _ _ _ E1) as [-> | (H1 & _)];
        [reflexivity | ].
      rewrite H1 in Hit. simpl in Hit. injection Hit as <-. congruence.
    - injection E1 as <-. reflexivity. }
  subst y1. simpl in Hit. rewrite Ht, Hact in Hit. simpl in Hit.
  unfold full_step in Hit. inv_bind Hit. inv_bind Hit. injection Hit as <-.
  destruct (update_r1norm pinf _ _ _ _ E2) as (_ & Hres2 & Hxx2 & Hp2).
  { simpl. rewrite Hr21. exact Hres. }
  destruct (update_estimates _ _ _ _ E2) as (Hr2' & Hdd2 & Hac2 & Han2).
  { simpl. rewrite Hr21. exact Hres. }
  { simpl. rewrite Hdd1. exact Hdd. }
  simpl in Hres2, Hxx2, Hp2, Hr2', Hdd2, Hac2, Han2.
  rewrite Hr21 in Hres2. rewrite Hxx1 in Hxx2. rewrite Hdd1 in Hdd2.
  rewrite Hp in Hrot.
  unfold estimates_ok. simpl.
  rewrite Han2.
  assert (Hsq : (val (phibar_new y0) * val (phibar_new y0) + val (res2 y1)
                 <= val (phibar s) * val (phibar s) + val (res2 s))%R).
  { rewrite Hres2. lra. }
  simpl in Hres', Hr1'.
  split; [ | split; [ | split]].
  - split; [exact Hres' | ]. split; [lra | ]. split; [lra | ].
    split; [lra | ]. split; [exact Hr1' | ].
    split; [rewrite Hp2; exact Hr2' | exact Hac2].
  - rewrite Hr2', Hr2. apply sqrt_le_1_alt. exact Hsq.
  - exact Han1.
  - rewrite Hac2, Hac.
    apply Rmult_le_compat; try assumption.
    + apply sqrt_pos.
    + apply sqrt_le_1_alt. exact Hdd2.
Qed.

End ExactEstimates.

Section ExactResults.
Variable pinf : R.

#[local] Hint Extern 0 (FloatOps R) => exact (ExactOps pinf) : typeclass_instances.

Variable roots_quadratic : num R -> num R -> num R -> result (list (num R)).
Variable A : LinearOperator R.

(** The estimates are tied to the running sums from the start. *)
Lemma initial_estimates_ok (a : args R) (fr : frame R) (s0 : locals R) :
  initialise A a = Ok (fr, s0) ->
  estimates_ok fr s0
  /\ fr_damp fr = PyFloat (damp a)
  /\ val (fr_dampsq fr) = (damp a * damp a)%R.
Proof.
  intros Hin.
  destruct (initialise_scalars A a fr s0 Hin)
    as (Hd & Hdsq & _ & _ & _ & _ & Hr1 & Hp & Hr2 & Hxx).
  destruct (initialise_estimates A a fr s0 Hin) as (Han & Hac & _).
  destruct (initialise_norms A a fr s0 Hin) as (Hdd & Hr2n & _).
  apply sq_val in Hdsq. simpl in Hdsq.
  split; [ | split; [exact Hd | exact Hdsq]].
  unfold estimates_ok, r1sq_of.
  rewrite Hr1, Hp, Hr2, Hxx, Han, Hac, Hdd, Hr2n. simpl.
  set (S := sumsq (firstn (fst (shape A)) (rhs a))).
  pose proof (sqrt_pos S) as HS.
  repeat split; try lra.
  - rewrite <- (signed_sqrt_square (R_sqrt.sqrt S)) at 1 by exact HS.
    f_equal. ring.
  - rewrite Rplus_0_r. symmetry. apply sqrt_square. exact HS.
Qed.

Lemma solve_estimates_ok (a : args R) (res : LSQRFramework R) :
  solve roots_quadratic A a = Some (Ok res) ->
  self_istop res <> 8 ->
  exists fr s0 s,
    initialise A a = Ok (fr, s0) /\ res = finish fr s /\ estimates_ok fr s.
Proof.
  intros H H8.
  destruct (solve_returns roots_quadratic A a res H)
    as (fr & s0 & s & Hin & Hloop & -> & Hc).
  destruct (initialise_start A a fr s0 Hin) as (_ & _ & Ht & _).
  assert (Hact : tr_active s = false).
  { destruct Hc as [(-> & _) | (_ & _ & _ & [(_ & Hb & _) | (Hf & _)])];
      [exact Ht | | exact Hf].
    simpl in H8. contradiction. }
  destruct (initial_estimates_ok a fr s0 Hin) as (Hok & Hd & Hdsq).
  exists fr, s0, s. split; [exact Hin | ]. split; [reflexivity | ].
  apply (main_loop_full_invariant roots_quadratic A (estimates_ok fr) fr)
    with (4 := Hloop); try assumption.
  intros s1 s2 H1 Ha1 Hit Ha2.
  apply (full_pass_estimates pinf roots_quadratic A fr s1 s2 (damp a) Hit Ha1
           Ha2 Hd); [ | exact H1].
  rewrite Hdsq. pose proof (Rle_0_sqr (damp a)). unfold Rsqr in *. lra.
Qed.

End ExactResults.





(** ** Exact arithmetic: the bidiagonalization vectors *)

Section PassFields.
Context {F : Type} {FO : FloatOps F}.
Variable roots_quadratic : num F -> num F -> num F -> result (list (num F)).
Variable A : LinearOperator F.

(** Only the bidiagonalization assigns [u], [v], [alfa] and [beta]. *)
Lemma after_bidiag (fr : frame F) (s s' : locals F) :
  iteration roots_quadratic A fr s = Ok s' ->
  exists s1,
    bidiag A (fr_damp fr) (next_itn s) = Ok s1
    /\ u s' = u s1 /\ v s' = v s1 /\ alfa s' = alfa s1 /\ beta s' = beta s1.
Proof.
  unfold iteration. intros H.
  inv_bind H. inv_bind H. inv_bind H.
  exists y. split; [exact E | ].
  assert (Hy1 : u y1 = u y /\ v y1 = v y /\ alfa y1 = alfa y /\ beta y1 = beta y).
  { destruct (fr_radius fr) as [rad | ].
    - unfold trust_region in E1.
      inv_bind E1. inv_bind E1. inv_bind E1. inv_bind E1. inv_bind E1.
      destruct (gt (abs (t1 y0)) (abs y6)).
      + inv_bind E1. inv_bind E1. injection E1 as <-. simpl.
        repeat split; reflexivity.
      + injection E1 as <-. simpl. repeat split; reflexivity.
    - injection E1 as <-. simpl. repeat split; reflexivity. }
  destruct Hy1 as (Hu & Hv & Ha & Hb).
  destruct (negb (tr_active y1)).
  - unfold full_step in H. inv_bind H. inv_bind H. injection H as <-.
    unfold update in E2. repeat (inv_bind E2). injection E2 as <-. simpl.
    repeat split; assumption.
  - injection H as <-. repeat split; assumption.
Qed.

(** What every pass keeps holds of every state of the log. *)
Lemma passes_invariant (P : locals F -> Prop) (fr : frame F) :
  (forall s s', P s -> iteration roots_quadratic A fr s = Ok s' -> P s') ->
  forall (fuel : nat) (s s' : locals F),
    P s -> In s' (passes roots_quadratic A fuel fr s) -> P s'.
Proof.
  intros Hstep. induction fuel as [ | fuel IH]; intros s s' HP Hin;
    simpl in Hin.
  - destruct ((itn s <? fr_itnlim fr) && negb (fr_x_is_zero fr)); contradiction.
  - destruct ((itn s <? fr_itnlim fr) && negb (fr_x_is_zero fr));
      [ | contradiction].
    destruct (iteration roots_quadratic A fr s) as [s1 | e] eqn:Hit;
      [ | contradiction].
    pose proof (Hstep s s1 HP Hit) as HP1.
    destruct Hin as [<- | Hin]; [exact HP1 | ].
    destruct (0 <? istop s1); [contradiction | ].
    exact (IH s1 s' HP1 Hin).
Qed.

End PassFields.

Section ExactVectors.
Variable pinf : R.

#[local] Hint Extern 0 (FloatOps R) => exact (ExactOps pinf) : typeclass_instances.

Variable roots_quadratic : num R -> num R -> num R -> result (list (num R)).
Variable A : LinearOperator R.

(** A vector divided by its positive norm is a unit vector; a vector whose
    norm is not positive has norm zero. *)
Lemma normalise_vector (l : list R) :
  sumsq (if gt (norm l) zero then idiv l (norm l) else l)
  = (if gt (norm l) zero then 1%R else 0%R).
Proof.
  unfold gt, norm, idiv.
  cbn [val zero f_ltb f0 f1 f_sqrt f_div ExactOps Exact].
  pose proof (sumsq_nonneg pinf l) as Hn.
  destruct (Rltb 0 (R_sqrt.sqrt (sumsq l))) eqn:Hb.
  - apply Rltb_true in Hb.
    assert (Hs : (0 < sumsq l)%R).
    { destruct (Rle_lt_or_eq_dec _ _ Hn) as [Hlt | Heq]; [exact Hlt | ].
      rewrite <- Heq, sqrt_0 in Hb. lra. }
    rewrite (sumsq_scaled pinf) by lra.
    rewrite sqrt_def by lra. apply Rdiv_diag. lra.
  - apply Rltb_false in Hb.
    pose proof (sqrt_pos (sumsq l)) as Hp.
    assert (H0 : R_sqrt.sqrt (sumsq l) = 0%R) by lra.
    apply sqrt_eq_0 in H0; assumption.
Qed.

Lemma bidiag_normalised (d : num R) (s s' : locals R) :
  bidiag A d s = Ok s' -> normalised s -> normalised s'.
Proof.
  unfold bidiag. intros H (Hu & Hv).
  inv_bind H. inv_bind H. inv_bind H.
  pose proof (normalise_vector y1) as Hn.
  destruct (gt (norm y1) zero) eqn:Hg.
  - inv_bind H. inv_bind H. inv_bind H. injection H as <-.
    unfold normalised. cbn [u v alfa beta]. rewrite Hg.
    split; [exact Hn | ].
    intros v0 H0. injection H0 as <-. apply normalise_vector.
  - injection H as <-. unfold normalised. cbn [u v alfa beta]. rewrite Hg.
    split; [exact Hn | exact Hv].
Qed.

Lemma iteration_normalised (fr : frame R) (s s' : locals R) :
  normalised s -> iteration roots_quadratic A fr s = Ok s' -> normalised s'.
Proof.
  intros Hn Hit.
  destruct (after_bidiag roots_quadratic A fr s s' Hit)
    as (s1 & Hb & Hu & Hv & Ha & Hbt).
  pose proof (bidiag_normalised _ _ _ Hb Hn) as (H1 & H2).
  unfold normalised. rewrite Hu, Hv, Ha, Hbt. split; assumption.
Qed.

Lemma initialise_normalised (a : args R) (fr : frame R) (s0 : locals R) :
  initialise A a = Ok (fr, s0) -> normalised s0.
Proof.
  unfold initialise. destruct (shape A) as [m n]. intros H.
  inv_bind H. inv_bind H. inv_bind H. inv_bind H.
  pose proof (normalise_vector (firstn m (rhs a))) as Hn.
  destruct (gt (norm (firstn m (rhs a))) zero) eqn:Hg.
  - inv_bind H. inv_bind E3. injection E3 as <-. cbn [bind] in H.
    pose proof (normalise_vector y4) as Hv.
    destruct (gt (norm y4) zero) eqn:Hg'.
    + cbn [bind unbound] in H. injection H as <- <-.
      unfold normalised. cbn [u v alfa beta]. rewrite Hg, Hg'.
      split; [exact Hn | ]. intros v0 H0. injection H0 as <-. exact Hv.
    + cbn [bind] in H. injection H as <- <-.
      unfold normalised. cbn [u v alfa beta]. rewrite Hg, Hg'.
      split; [exact Hn | ]. intros v0 H0. injection H0 as <-. exact Hv.
  - cbn [bind] in H.
    assert (Hz : gt (@zero R _) zero = false).
    { unfold gt. simpl. apply Rltb_false. lra. }
    rewrite Hz in H. cbn [bind] in H. injection H as <- <-.
    unfold normalised. cbn [u v alfa beta]. rewrite Hg.
    split; [exact Hn | ]. intros v0 H0. discriminate.
Qed.

End ExactVectors.



(* ------------------------------------------------------------------ *)
(** ** The iteration limit *)

(** [stop_tests] started from 0 yields 7 only through the test of line 323. *)
Lemma stop_tests_7 {F : Type} {FO : FloatOps F} (k lim : Z)
      (a1 a2 a3 a4 ctol atol rtol : num F) :
  stop_tests k lim a1 a2 a3 a4 ctol atol rtol 0 = 7 -> lim <= k.
Proof.
  unfold stop_tests.
  destruct (lim <=? k) eqn:Hk; [intros _; apply Z.leb_le; exact Hk | ].
  destruct (le (add one a3) one), (le (add one a2) one),
    (le (add one a4) one), (le a3 ctol), (le a2 atol), (le a1 rtol);
    discriminate.
Qed.

(** (X15) A call that returns with stop code 7 has made exactly [itnlim]
    passes (the default limit when none is given), at least one, and has not
    stepped to the trust-region boundary: line 323 is the only assignment of
    7, it needs [itn >= itnlim], and the guard of line 197 admits no pass
    beyond the limit. *)
Theorem code_7_means_limit_reached :
  forall (F : Type) (FO : FloatOps F)
         (roots_quadratic : num F -> num F -> num F -> result (list (num F)))
         (A : LinearOperator F) (a : args F) (res : LSQRFramework F),
    solve roots_quadratic A a = Some (Ok res) ->
    self_istop res = 7 ->
    self_itn res = effective_itnlim A a
    /\ 0 < effective_itnlim A a
    /\ self_onBoundary res = false.
Proof.
  intros F FO rq A a res H H7. rewrite solve_unfold in H.
  destruct (solve_fuel_Ok _ _ _ _ _ H) as (fr & s0 & s & Hin & Hloop & ->).
  destruct (initialise_start _ _ _ _ Hin) as (Hi & Hs & Ht & Hlim & _).
  simpl in *.
  destruct (main_loop_result _ _ _ _ _ _ Hs Ht Hloop)
    as [(-> & _) | (sp & Hit & Hsp0 & Hspt & Hrange & _)]; [lia | ].
  destruct (iteration_cases _ _ _ _ _ Hit Hspt)
    as (Hitn & [(_ & H8 & _) | (Hb & t & _ & Hst)]); [lia | ].
  rewrite Hsp0, H7 in Hst. symmetry in Hst. apply stop_tests_7 in Hst.
  rewrite <- Hlim. repeat split; [lia | lia | exact Hb].
Qed.

(** On diag(1, 2) with right-hand side (1, 1) and [itnlim = 1]. *)
Lemma code_7_means_limit_reached_witness :
  exists res,
    solve roots_quadratic_model diag2 (with_itnlim 1 (defaults [1; 1]%float))
      = Some (Ok res)
    /\ self_itn res = 1.
Proof.
  assert (exists res,
             solve roots_quadratic_model diag2
               (with_itnlim 1 (defaults [1; 1]%float)) = Some (Ok res)
             /\ self_istop res = 7) as (res & H & H7).
  { eexists. split; [vm_compute; reflexivity | reflexivity]. }
  exists res. split; [exact H | ].
  exact (proj1 (code_7_means_limit_reached float Binary64 roots_quadratic_model
                  diag2 (with_itnlim 1 (defaults [1; 1]%float)) res H H7)).
Defined.
